(** * Dual-AI-Chat: the discussion orchestrator of [App.tsx]

    A shallow embedding of the response parser ([parseAIResponse]), the
    retry loop around every call of [generateResponse], the discussion loop
    of [handleSendMessage], the continuation after a manual retry
    ([continueDiscussionAfterSuccessfulRetry]) and [handleManualRetry].

    JavaScript strings are sequences of UTF-16 code units; the asynchronous
    handlers are a transition function over the events on which they are
    suspended (a call of [generateResponse] returns, a retry delay elapses,
    the image of a query has been read). *)

From Stdlib Require Import String Ascii.
From Stdlib Require Import List NArith ZArith Bool Lia.
Import ListNotations.

(** ** JavaScript strings *)

Module JsString.

(** A string is the list of its UTF-16 code units. *)
Definition jsstring := list N.

(** An ASCII literal of the source. *)
Definition lit (s : string) : jsstring :=
  map N_of_ascii (list_ascii_of_string s).

(** [s] is truthy: a string is falsy only when empty. *)
Definition truthy (s : jsstring) : bool :=
  match s with [] => false | _ :: _ => true end.

(** WhiteSpace and LineTerminator code units, the ones
    [String.prototype.trim] strips. *)
Definition is_ws (c : N) : bool :=
  ((9 <=? c) && (c <=? 13) || (c =? 32) || (c =? 160) || (c =? 5760)
   || (8192 <=? c) && (c <=? 8202) || (c =? 8232) || (c =? 8233)
   || (c =? 8239) || (c =? 8287) || (c =? 12288) || (c =? 65279))%N.

Fixpoint trimStart (s : jsstring) : jsstring :=
  match s with
  | [] => []
  | c :: s' => if is_ws c then trimStart s' else s
  end.

Fixpoint trimEnd (s : jsstring) : jsstring :=
  match s with
  | [] => []
  | c :: s' =>
      match trimEnd s' with
      | [] => if is_ws c then [] else [c]
      | t => c :: t
      end
  end.

(** [s.trim()] *)
Definition trim (s : jsstring) : jsstring := trimEnd (trimStart s).

(** [s.startsWith(p)] *)
Fixpoint startsWith (s p : jsstring) : bool :=
  match p, s with
  | [], _ => true
  | _ :: _, [] => false
  | c :: p', d :: s' => (c =? d)%N && startsWith s' p'
  end.

(** [s.endsWith(p)] *)
Definition endsWith (s p : jsstring) : bool :=
  startsWith (rev s) (rev p).

(** [s.includes(p)] *)
Fixpoint includes (s p : jsstring) : bool :=
  startsWith s p ||
  match s with
  | [] => false
  | _ :: s' => includes s' p
  end.

(** The scan behind [lastIndexOf]: [i] is the index of the head of [s] in
    the whole string, [acc] the last match seen so far. *)
Fixpoint lastIndexOf_from (s p : jsstring) (i acc : Z) : Z :=
  let acc' := if startsWith s p then i else acc in
  match s with
  | [] => acc'
  | _ :: s' => lastIndexOf_from s' p (i + 1) acc'
  end.

(** [s.lastIndexOf(p)], [-1] when [p] does not occur. *)
Definition lastIndexOf (s p : jsstring) : Z :=
  lastIndexOf_from s p 0 (-1).

Definition jslength (s : jsstring) : Z := Z.of_nat (length s).

(** [s.substring(a, b)]: both indices are clamped to [0 .. length] and
    swapped when [a > b]. *)
Definition substring (s : jsstring) (a b : Z) : jsstring :=
  let clamp i := Z.max 0 (Z.min i (jslength s)) in
  let lo := Z.min (clamp a) (clamp b) in
  let hi := Z.max (clamp a) (clamp b) in
  firstn (Z.to_nat (hi - lo)) (skipn (Z.to_nat lo) s).

(** *** The fragment of [RegExp] the parser builds *)

(** The characters of [/[.*+?^${}()|[\]\\]/], the class the source escapes. *)
Definition is_syntax_char (c : N) : bool :=
  existsb (N.eqb c) (lit ".*+?^${}()|[]\").

(** [t.replace(/[.*+?^${}()|[\]\\]/g, '\\$&')]: a backslash before every
    character of the class. *)
Definition escapeRegExp (t : jsstring) : jsstring :=
  flat_map (fun c => if is_syntax_char c then [92%N; c] else [c]) t.

(** Atoms of a pattern: a literal code unit, or [.]. *)
Inductive atom := Lit (c : N) | AnyChar.

(** [new RegExp(p, 'g')] on the fragment without quantifiers, groups,
    classes and anchors: an escaped syntax character and every ordinary
    character stand for themselves, [.] is the wildcard, anything else is
    outside the fragment ([None]). *)
Fixpoint regexOf (p : jsstring) : option (list atom) :=
  match p with
  | [] => Some []
  | c :: p' =>
      if (c =? 92)%N then
        match p' with
        | d :: p'' =>
            if is_syntax_char d then option_map (cons (Lit d)) (regexOf p'')
            else None
        | [] => None
        end
      else if (c =? 46)%N then option_map (cons AnyChar) (regexOf p')
      else if is_syntax_char c then None
      else option_map (cons (Lit c)) (regexOf p')
  end.

Definition is_line_terminator (c : N) : bool :=
  ((c =? 10) || (c =? 13) || (c =? 8232) || (c =? 8233))%N.

Definition atom_matches (a : atom) (c : N) : bool :=
  match a with
  | Lit d => (d =? c)%N
  | AnyChar => negb (is_line_terminator c)
  end.

(** The pattern matches at the head of [s]. *)
Fixpoint matchesAt (re : list atom) (s : jsstring) : bool :=
  match re, s with
  | [], _ => true
  | _ :: _, [] => false
  | a :: re', c :: s' => atom_matches a c && matchesAt re' s'
  end.

(** The global scan of [s.replace(re, repl)]: left to right, a match is
    replaced and the scan goes on behind it; [skip] counts the code units of
    the current match still to be dropped. *)
Fixpoint replace_scan (re : list atom) (repl s : jsstring) (skip : nat)
  : jsstring :=
  match s with
  | [] => []
  | c :: s' =>
      match skip with
      | S k => replace_scan re repl s' k
      | O =>
          if matchesAt re s
          then repl ++ replace_scan re repl s' (length re - 1)
          else c :: replace_scan re repl s' 0
      end
  end.

(** [s.replace(re, repl)] for a global [re]; the empty pattern matches the
    empty string at every position, also at the end. *)
Definition replaceAll (re : list atom) (repl s : jsstring) : jsstring :=
  match re with
  | [] => flat_map (fun c => repl ++ [c]) s ++ repl
  | _ :: _ => replace_scan re repl s 0
  end.

(** [s.split(sep)] for a separator of one code unit. *)
Fixpoint splitOn (sep : N) (s : jsstring) : list jsstring :=
  match s with
  | [] => [[]]
  | c :: s' =>
      if (c =? sep)%N then [] :: splitOn sep s'
      else
        match splitOn sep s' with
        | piece :: pieces => (c :: piece) :: pieces
        | [] => [[c]]
        end
  end.

(** The scan behind [indexOf]: [i] is the index of the head of [s] in the
    whole string. *)
Fixpoint indexOf_from (s p : jsstring) (i : nat) : option nat :=
  if startsWith s p then Some i
  else
    match s with
    | [] => None
    | _ :: s' => indexOf_from s' p (S i)
    end.

(** [s.indexOf(p)], [None] for [-1]. *)
Definition indexOf (s p : jsstring) : option nat := indexOf_from s p 0.

(** [GetSubstitution] for a match without captures: in the replacement
    text, [$$] stands for [$], [$&] for the matched text, [$`] for the text
    before the match and [$'] for the text behind it; any other [$] stands
    for itself. *)
Fixpoint getSubstitution (matched before after replacement : jsstring)
  : jsstring :=
  match replacement with
  | [] => []
  | c :: r =>
      if (c =? 36)%N then
        match r with
        | d :: r' =>
            if (d =? 36)%N then
              36%N :: getSubstitution matched before after r'
            else if (d =? 38)%N then
              matched ++ getSubstitution matched before after r'
            else if (d =? 96)%N then
              before ++ getSubstitution matched before after r'
            else if (d =? 39)%N then
              after ++ getSubstitution matched before after r'
            else 36%N :: getSubstitution matched before after r
        | [] => [36%N]
        end
      else c :: getSubstitution matched before after r
  end.

(** [s.replace(searchString, replaceValue)] for two strings: the first
    occurrence of [searchString] is replaced by the substitution of
    [replaceValue]; without occurrence [s] is returned. *)
Definition replaceString (s searchString replaceValue : jsstring)
  : jsstring :=
  match indexOf s searchString with
  | None => s
  | Some pos =>
      let before := firstn pos s in
      let after := skipn (pos + length searchString) s in
      before ++ getSubstitution searchString before after replaceValue
        ++ after
  end.

(** [pieces.join(sep)] *)
Fixpoint join (sep : jsstring) (pieces : list jsstring) : jsstring :=
  match pieces with
  | [] => []
  | p :: ps =>
      match ps with
      | [] => p
      | _ :: _ => p ++ sep ++ join sep ps
      end
  end.

End JsString.

(** ** The response parser *)

Module Parser.
Import JsString.

(** constants.ts *)
Definition NOTEPAD_UPDATE_TAG_START : jsstring := lit "<notepad_update>".
Definition NOTEPAD_UPDATE_TAG_END : jsstring := lit "</notepad_update>".
Definition DISCUSSION_COMPLETE_TAG : jsstring := lit "<discussion_complete />".

(** The action texts and placeholders of [parseAIResponse], as code units. *)
Definition NOTEPAD_ACTION_TEXT : jsstring :=
  [26356; 26032; 20102; 35760; 20107; 26412]%N.
Definition DISCUSSION_ACTION_TEXT : jsstring :=
  [24314; 35758; 32467; 26463; 35752; 35770]%N.
Definition AND_TEXT : jsstring := [24182%N].
Definition NO_TEXT_PLACEHOLDER : jsstring :=
  [40; 65; 73; 32; 26410; 25552; 20379; 39069; 22806; 25991; 26412; 22238;
   22797; 41]%N.

Record ParsedAIResponse := {
  spokenText : jsstring;
  newNotepadContent : option jsstring;
  discussionShouldEnd : bool
}.

(** The condition of the [if] at line 66, on the trimmed text. *)
Definition hasNotepadBlock (currentText : jsstring) : bool :=
  let notepadStartIndex := lastIndexOf currentText NOTEPAD_UPDATE_TAG_START in
  let notepadEndIndex := lastIndexOf currentText NOTEPAD_UPDATE_TAG_END in
  negb (notepadStartIndex =? -1)%Z && negb (notepadEndIndex =? -1)%Z
  && (notepadStartIndex <? notepadEndIndex)%Z
  && endsWith currentText NOTEPAD_UPDATE_TAG_END.

(** The text between the markers, trimmed (line 67). *)
Definition notepadInner (currentText : jsstring) : jsstring :=
  trim (substring currentText
          (lastIndexOf currentText NOTEPAD_UPDATE_TAG_START
           + jslength NOTEPAD_UPDATE_TAG_START)
          (lastIndexOf currentText NOTEPAD_UPDATE_TAG_END)).

(** The text before the start marker, trimmed (line 68). *)
Definition textBeforeBlock (currentText : jsstring) : jsstring :=
  trim (substring currentText 0
          (lastIndexOf currentText NOTEPAD_UPDATE_TAG_START)).

(** Lines 63-75: the spoken text, the notepad content and the notepad
    action text. *)
Definition extractNotepad (currentText : jsstring)
  : jsstring * option jsstring * jsstring :=
  if hasNotepadBlock currentText then
    let newNotepadContent := notepadInner currentText in
    (textBeforeBlock currentText, Some newNotepadContent,
     if truthy newNotepadContent then NOTEPAD_ACTION_TEXT else [])
  else (currentText, None, []).

(** [new RegExp(DISCUSSION_COMPLETE_TAG.replace(..., '\\$&'), 'g')]; the
    pattern lies in the fragment of [regexOf] (lemma
    [discussion_complete_regex] below), the other branch is never taken. *)
Definition DISCUSSION_COMPLETE_REGEX : list atom :=
  match regexOf (escapeRegExp DISCUSSION_COMPLETE_TAG) with
  | Some re => re
  | None => []
  end.

(** Lines 77-81: the spoken text without the completion tag, the end signal
    and the discussion action text. *)
Definition extractDiscussionTag (spoken : jsstring)
  : jsstring * bool * jsstring :=
  if includes spoken DISCUSSION_COMPLETE_TAG then
    (trim (replaceAll DISCUSSION_COMPLETE_REGEX [] spoken), true,
     DISCUSSION_ACTION_TEXT)
  else (spoken, false, []).

(** Lines 83-93: the placeholder for an empty spoken text. *)
Definition synthesizePlaceholder (spoken notepadActionText
    discussionActionText : jsstring) (newNotepadContent : option jsstring)
    (discussionShouldEnd : bool) : jsstring :=
  if negb (truthy (trim spoken))
     && (truthy notepadActionText || truthy discussionActionText) then
    if truthy notepadActionText && truthy discussionActionText then
      lit "(AI " ++ notepadActionText ++ AND_TEXT ++ discussionActionText
        ++ lit ")"
    else if truthy notepadActionText then
      lit "(AI " ++ notepadActionText ++ lit ")"
    else lit "(AI " ++ discussionActionText ++ lit ")"
  else if negb (truthy (trim spoken))
          && match newNotepadContent with None => true | Some _ => false end
          && negb discussionShouldEnd then
    NO_TEXT_PLACEHOLDER
  else spoken.

(** [parseAIResponse], lines 54-96. *)
Definition parseAIResponse (responseText : jsstring) : ParsedAIResponse :=
  let currentText := trim responseText in
  let '(spoken0, newNotepadContent, notepadActionText) :=
    extractNotepad currentText in
  let '(spoken1, discussionShouldEnd, discussionActionText) :=
    extractDiscussionTag spoken0 in
  let spoken2 :=
    synthesizePlaceholder spoken1 notepadActionText discussionActionText
      newNotepadContent discussionShouldEnd in
  {| spokenText := trim spoken2;
     newNotepadContent := newNotepadContent;
     discussionShouldEnd := discussionShouldEnd |}.

(** The spoken text the completion tag is searched in (the first component
    of [extractNotepad]). *)
Definition extractedSpoken (responseText : jsstring) : jsstring :=
  fst (fst (extractNotepad (trim responseText))).

End Parser.

(** ** The orchestrator *)

Module Orchestrator.
Import JsString Parser.

(** *** Data *)

(** Modelled from the spec: the enum [MessageSender] of [types.ts], which
    is not among the sources; the senders of a message are the user, the
    two personas and the system, the members [App.tsx] uses. *)
Inductive MessageSender := User | Cognito | Muse | System.

(** Modelled from the spec: the enum [MessagePurpose] of [types.ts], the
    tag that says why a message was produced; the members are the ones
    [App.tsx] uses. *)
Inductive MessagePurpose :=
  UserInput | SystemNotification | CognitoToMuse | MuseToCognito
| FinalResponse.

(** [DiscussionMode] of constants.ts *)
Inductive DiscussionMode := FixedTurns | AiDriven.

(** constants.ts *)
Definition MAX_AUTO_RETRIES : nat := 2.
Definition RETRY_DELAY_BASE_MS : nat := 1000.

(** The two system prompts of constants.ts, by name. *)
Inductive SystemInstruction :=
  COGNITO_SYSTEM_PROMPT_HEADER | MUSE_SYSTEM_PROMPT_HEADER.

(** The step identifiers: ['cognito-initial-to-muse'],
    [`muse-reply-to-cognito-turn-${turn}`],
    [`cognito-reply-to-muse-turn-${turn}`] and ['cognito-final-answer']. *)
Inductive StepIdentifier :=
| CognitoInitialToMuse
| MuseReplyToCognitoTurn (turn : nat)
| CognitoReplyToMuseTurn (turn : nat)
| CognitoFinalAnswer.

(** The image file given to [handleSendMessage], by its [type]: its name
    goes to the display only, its content to the reader of [fileToBase64]. *)
Definition ImageFile := jsstring.

(** [{ inlineData: { mimeType, data } }]; [data] is what [fileToBase64]
    resolved with, [None] for [undefined]. *)
Definition ImagePart := (jsstring * option jsstring)%type.

(** An entry [`${sender}: ${spokenText}`] of the discussion log. *)
Definition LogEntry := (MessageSender * jsstring)%type.

(** A prompt is one of four templates; the record holds the template and
    the values that are spliced into it. [p_notepadInstruction] is the text
    [NOTEPAD_INSTRUCTION_PROMPT_PART.replace('{notepadContent}',
    notepadContent)] of [commonPromptInstructions()], which ends every
    prompt, [p_aiDrivenInstruction] says whether
    [AI_DRIVEN_DISCUSSION_INSTRUCTION_PROMPT_PART] follows it. *)
Inductive PromptKind :=
  InitialPrompt | MusePrompt | CognitoReplyPrompt | FinalAnswerPrompt.

Record Prompt := {
  p_kind : PromptKind;
  p_userInput : jsstring;
  p_imageInstruction : bool;
  p_discussion : list LogEntry;
  p_lastTurnText : jsstring;
  p_notepadInstruction : jsstring;
  p_aiDrivenInstruction : bool;
  p_partnerSuggestedEnd : bool
}.

Record FailedStepPayload := {
  stepIdentifier : StepIdentifier;
  prompt : Prompt;
  modelName : jsstring;
  systemInstruction : SystemInstruction;
  imageApiPart : option ImagePart;
  fs_sender : MessageSender;
  fs_purpose : MessagePurpose;
  originalSystemErrorMsgId : nat;
  thinkingConfig : option N;
  userInputForFlow : jsstring;
  imageApiPartForFlow : option ImagePart;
  discussionLogBeforeFailure : list LogEntry;
  currentTurnIndexForResume : option nat;
  previousAISignaledStopForResume : option bool
}.

(** The text of a message: what an AI or the user said, or one of the
    notification templates with the values that vary in it (the display
    name of the model is left out). *)
Inductive MessageText :=
| Spoken (text : jsstring)
| PreparingInitial
| MuseResponding
| CognitoResponding
| Synthesizing
| CallFailedRetrying (continued : bool) (step : StepIdentifier)
    (attempt : nat) (err : jsstring)
| StepFailedCanRetry (continued : bool) (step : StepIdentifier)
    (err : jsstring)
| ErrorText (err : jsstring)
| ErrorCheckApiKey (err : jsstring)
| SuggestedEnd (who waitingFor : MessageSender)
| BothAgreed (first second : MessageSender)
| UserStopped
| ManualRetrying (who : MessageSender) (step : StepIdentifier)
| ManualRetrySucceeded (who : MessageSender) (step : StepIdentifier)
| ManualRetryFailed (who : MessageSender) (step : StepIdentifier)
    (err : jsstring)
| UserStoppedManualRetry
| ImageProcessingFailed.

(** [ChatMessage] without timestamp, duration and image. *)
Record ChatMessage := {
  msg_id : nat;
  msg_text : MessageText;
  msg_sender : MessageSender;
  msg_purpose : MessagePurpose
}.

(** The state and refs of the component the handlers write. Message ids
    come from [generateUniqueId] (time and a random suffix); they are
    modelled by a counter. *)
Record AppState := {
  messages : list ChatMessage;
  nextId : nat;
  notepadContent : jsstring;
  lastNotepadUpdateBy : option MessageSender;
  discussionLog : list LogEntry;
  failedStepInfo : option FailedStepPayload;
  isApiKeyMissing : bool;
  isLoading : bool;
  cancelRequest : bool
}.

(** What a handler reads from its closure: the values of the render in
    which it was created. [env_failedStepInfo] says whether the captured
    [failedStepInfo] is non-null, [env_messagesInclude msg] whether some
    captured message text includes [msg]. *)
Record Env := {
  discussionMode : DiscussionMode;
  manualFixedTurns : nat;
  selectedModelApiName : jsstring;
  activeThinkingConfig : option N;
  env_notepadContent : jsstring;
  env_failedStepInfo : bool;
  env_messagesInclude : jsstring -> bool
}.

(** Modelled from the spec: the result [{text, error, durationMs}] of
    [generateResponse] ([services/geminiService.ts] is not among the
    sources), without the duration; [r_error] is the optional error
    message, [r_text] the completion or, on failure, the text the error is
    built from. *)
Record ApiResult := { r_text : jsstring; r_error : option jsstring }.

(** The local variables of the discussion flow. *)
Record Locals := {
  userInput : jsstring;
  l_imageApiPart : option ImagePart;
  currentDiscussionLog : list LogEntry;
  lastTurnTextForLog : jsstring;
  previousAISignaledStop : bool
}.

(** [Fresh s]: [handleSendMessage], with [s] the value of
    [cognitoParsedResponse.discussionShouldEnd] ([false] while the opening
    turn has not been parsed; it is not read before).
    [Continued prior init]: [continueDiscussionAfterSuccessfulRetry], with
    the truth value of [retriedStepPayload.previousAISignaledStopForResume]
    and [initialLoopTurn]. *)
Inductive Flow :=
| Fresh (cognitoSignal : bool)
| Continued (resumePrior : bool) (initialLoopTurn : nat).

(** How a handler ended: the final answer was given, the user stopped it,
    a step used up its retries (or the manual retry failed), the API key
    was refused, the handler returned at once, or the image of the query
    could not be read. *)
Inductive Outcome :=
  Completed | Cancelled | Failed | AuthAborted | Rejected | ImageFailed.

(** Where a handler is suspended. *)
Inductive Control :=
| AwaitCall (f : Flow) (step : StepIdentifier) (attempt : nat) (l : Locals)
| AwaitDelay (f : Flow) (step : StepIdentifier) (attempt : nat) (l : Locals)
| AwaitManualRetry (stepToRetry : FailedStepPayload)
| Finished (o : Outcome)
| AwaitImage (input : jsstring) (imageFile : ImageFile).

Record Machine := { app : AppState; control : Control }.

(** What resumes a suspended handler; [cancelled] says whether
    [cancelRequestRef.current] was set while it was suspended.
    [ImageRead cancelled result]: the [FileReader] of [fileToBase64] is
    done, with [result] its data URL, [None] when it reported an error. *)
Inductive Event :=
| CallReturned (cancelled : bool) (r : ApiResult)
| DelayElapsed (cancelled : bool)
| ImageRead (cancelled : bool) (result : option jsstring).

(** *** State updates *)

Definition addMessage (t : MessageText) (s : MessageSender)
    (p : MessagePurpose) (st : AppState) : nat * AppState :=
  (nextId st,
   {| messages := messages st ++
        [{| msg_id := nextId st; msg_text := t; msg_sender := s;
            msg_purpose := p |}];
      nextId := S (nextId st);
      notepadContent := notepadContent st;
      lastNotepadUpdateBy := lastNotepadUpdateBy st;
      discussionLog := discussionLog st;
      failedStepInfo := failedStepInfo st;
      isApiKeyMissing := isApiKeyMissing st;
      isLoading := isLoading st;
      cancelRequest := cancelRequest st |}).

Definition notify (t : MessageText) (st : AppState) : AppState :=
  snd (addMessage t System SystemNotification st).

Definition removeMessage (i : nat) (st : AppState) : AppState :=
  {| messages := filter (fun m => negb (msg_id m =? i)) (messages st);
     nextId := nextId st;
     notepadContent := notepadContent st;
     lastNotepadUpdateBy := lastNotepadUpdateBy st;
     discussionLog := discussionLog st;
     failedStepInfo := failedStepInfo st;
     isApiKeyMissing := isApiKeyMissing st;
     isLoading := isLoading st;
     cancelRequest := cancelRequest st |}.

(** [if (r.newNotepadContent !== null) { setNotepadContent(...);
    setLastNotepadUpdateBy(who); }] *)
Definition applyNotepad (r : ParsedAIResponse) (who : MessageSender)
    (st : AppState) : AppState :=
  match newNotepadContent r with
  | None => st
  | Some c =>
      {| messages := messages st;
         nextId := nextId st;
         notepadContent := c;
         lastNotepadUpdateBy := Some who;
         discussionLog := discussionLog st;
         failedStepInfo := failedStepInfo st;
         isApiKeyMissing := isApiKeyMissing st;
         isLoading := isLoading st;
         cancelRequest := cancelRequest st |}
  end.

Definition setDiscussionLog (l : list LogEntry) (st : AppState) : AppState :=
  {| messages := messages st;
     nextId := nextId st;
     notepadContent := notepadContent st;
     lastNotepadUpdateBy := lastNotepadUpdateBy st;
     discussionLog := l;
     failedStepInfo := failedStepInfo st;
     isApiKeyMissing := isApiKeyMissing st;
     isLoading := isLoading st;
     cancelRequest := cancelRequest st |}.

Definition setFailedStepInfo (f : option FailedStepPayload) (st : AppState)
  : AppState :=
  {| messages := messages st;
     nextId := nextId st;
     notepadContent := notepadContent st;
     lastNotepadUpdateBy := lastNotepadUpdateBy st;
     discussionLog := discussionLog st;
     failedStepInfo := f;
     isApiKeyMissing := isApiKeyMissing st;
     isLoading := isLoading st;
     cancelRequest := cancelRequest st |}.

Definition setIsApiKeyMissing (b : bool) (st : AppState) : AppState :=
  {| messages := messages st;
     nextId := nextId st;
     notepadContent := notepadContent st;
     lastNotepadUpdateBy := lastNotepadUpdateBy st;
     discussionLog := discussionLog st;
     failedStepInfo := failedStepInfo st;
     isApiKeyMissing := b;
     isLoading := isLoading st;
     cancelRequest := cancelRequest st |}.

Definition setIsLoading (b : bool) (st : AppState) : AppState :=
  {| messages := messages st;
     nextId := nextId st;
     notepadContent := notepadContent st;
     lastNotepadUpdateBy := lastNotepadUpdateBy st;
     discussionLog := discussionLog st;
     failedStepInfo := failedStepInfo st;
     isApiKeyMissing := isApiKeyMissing st;
     isLoading := b;
     cancelRequest := cancelRequest st |}.

Definition setCancelRequest (b : bool) (st : AppState) : AppState :=
  {| messages := messages st;
     nextId := nextId st;
     notepadContent := notepadContent st;
     lastNotepadUpdateBy := lastNotepadUpdateBy st;
     discussionLog := discussionLog st;
     failedStepInfo := failedStepInfo st;
     isApiKeyMissing := isApiKeyMissing st;
     isLoading := isLoading st;
     cancelRequest := b |}.

(** *** The values a step works with *)

Definition API_KEY_NOT_VALID : jsstring := lit "API key not valid".
Definition UNKNOWN_ERROR : jsstring := [26410; 30693; 38169; 35823]%N.

Definition isAiDriven (env : Env) : bool :=
  match discussionMode env with AiDriven => true | FixedTurns => false end.

Definition isFixedTurns (env : Env) : bool :=
  match discussionMode env with FixedTurns => true | AiDriven => false end.

Definition isContinued (f : Flow) : bool :=
  match f with Fresh _ => false | Continued _ _ => true end.

Definition stepSender (step : StepIdentifier) : MessageSender :=
  match step with MuseReplyToCognitoTurn _ => Muse | _ => Cognito end.

Definition stepPurpose (step : StepIdentifier) : MessagePurpose :=
  match step with
  | MuseReplyToCognitoTurn _ => MuseToCognito
  | CognitoFinalAnswer => FinalResponse
  | _ => CognitoToMuse
  end.

Definition stepSystemInstruction (step : StepIdentifier)
  : SystemInstruction :=
  match step with
  | MuseReplyToCognitoTurn _ => MUSE_SYSTEM_PROMPT_HEADER
  | _ => COGNITO_SYSTEM_PROMPT_HEADER
  end.

Definition hasImage (l : Locals) : bool :=
  match l_imageApiPart l with Some _ => true | None => false end.

(** [NOTEPAD_INSTRUCTION_PROMPT_PART] of constants.ts, a template literal
    given here by its lines. *)
Definition NOTEPAD_INSTRUCTION_PROMPT_PART : jsstring :=
  join [10%N]
    [[];
     lit "You also have access to a shared notepad.";
     lit "Current Notepad Content:";
     lit "---";
     lit "{notepadContent}";
     lit "---";
     lit "Instructions for Notepad:";
     lit "1. To update the notepad, include a section at the very end of your response, formatted exactly as:";
     lit "   <notepad_update>";
     lit "   [YOUR NEW FULL NOTEPAD CONTENT HERE. THIS WILL REPLACE THE ENTIRE CURRENT NOTEPAD CONTENT.]";
     lit "   </notepad_update>";
     lit "2. If you do not want to change the notepad, do NOT include the <notepad_update> section at all.";
     lit "3. Your primary spoken response to the ongoing discussion should come BEFORE any <notepad_update> section. Ensure you still provide a spoken response.";
     []].

(** [NOTEPAD_INSTRUCTION_PROMPT_PART.replace('{notepadContent}',
    notepadContent)], the first part of [commonPromptInstructions()]
    (lines 546 and 313). *)
Definition notepadInstruction (notepadContent : jsstring) : jsstring :=
  replaceString NOTEPAD_INSTRUCTION_PROMPT_PART (lit "{notepadContent}")
    notepadContent.

(** [cognitoPrompt], [musePrompt], [cognitoReplyPrompt] and
    [finalAnswerPrompt]; [commonPromptInstructions()] reads [notepadContent]
    from the closure. *)
Definition promptFor (env : Env) (step : StepIdentifier) (l : Locals)
  : Prompt :=
  match step with
  | CognitoInitialToMuse =>
      {| p_kind := InitialPrompt; p_userInput := userInput l;
         p_imageInstruction := hasImage l; p_discussion := [];
         p_lastTurnText := [];
         p_notepadInstruction := notepadInstruction (env_notepadContent env);
         p_aiDrivenInstruction := isAiDriven env;
         p_partnerSuggestedEnd := false |}
  | MuseReplyToCognitoTurn _ =>
      {| p_kind := MusePrompt; p_userInput := userInput l;
         p_imageInstruction := hasImage l;
         p_discussion := currentDiscussionLog l;
         p_lastTurnText := lastTurnTextForLog l;
         p_notepadInstruction := notepadInstruction (env_notepadContent env);
         p_aiDrivenInstruction := isAiDriven env;
         p_partnerSuggestedEnd :=
           isAiDriven env && previousAISignaledStop l |}
  | CognitoReplyToMuseTurn _ =>
      {| p_kind := CognitoReplyPrompt; p_userInput := userInput l;
         p_imageInstruction := hasImage l;
         p_discussion := currentDiscussionLog l;
         p_lastTurnText := lastTurnTextForLog l;
         p_notepadInstruction := notepadInstruction (env_notepadContent env);
         p_aiDrivenInstruction := isAiDriven env;
         p_partnerSuggestedEnd :=
           isAiDriven env && previousAISignaledStop l |}
  | CognitoFinalAnswer =>
      {| p_kind := FinalAnswerPrompt; p_userInput := userInput l;
         p_imageInstruction := hasImage l;
         p_discussion := currentDiscussionLog l;
         p_lastTurnText := [];
         p_notepadInstruction := notepadInstruction (env_notepadContent env);
         p_aiDrivenInstruction := isAiDriven env;
         p_partnerSuggestedEnd := false |}
  end.

(** The argument of [setFailedStepInfo] when the retries of [step] are
    used up (lines 575, 620, 659, 701 and 379, 425, 466). *)
Definition failedStepPayload (env : Env) (step : StepIdentifier)
    (l : Locals) (errorMsgId : nat) : FailedStepPayload :=
  {| stepIdentifier := step;
     prompt := promptFor env step l;
     modelName := selectedModelApiName env;
     systemInstruction := stepSystemInstruction step;
     imageApiPart := l_imageApiPart l;
     fs_sender := stepSender step;
     fs_purpose := stepPurpose step;
     originalSystemErrorMsgId := errorMsgId;
     thinkingConfig := activeThinkingConfig env;
     userInputForFlow := userInput l;
     imageApiPartForFlow := l_imageApiPart l;
     discussionLogBeforeFailure :=
       match step with
       | CognitoInitialToMuse => []
       | _ => currentDiscussionLog l
       end;
     currentTurnIndexForResume :=
       match step with
       | MuseReplyToCognitoTurn turn | CognitoReplyToMuseTurn turn =>
           Some turn
       | _ => None
       end;
     previousAISignaledStopForResume :=
       match step with
       | CognitoInitialToMuse => Some false
       | CognitoFinalAnswer => None
       | _ => Some (previousAISignaledStop l)
       end |}.

(** [{ ...stepToRetry, originalSystemErrorMsgId: newErrorMsgId }] *)
Definition repoint (p : FailedStepPayload) (newErrorMsgId : nat)
  : FailedStepPayload :=
  {| stepIdentifier := stepIdentifier p;
     prompt := prompt p;
     modelName := modelName p;
     systemInstruction := systemInstruction p;
     imageApiPart := imageApiPart p;
     fs_sender := fs_sender p;
     fs_purpose := fs_purpose p;
     originalSystemErrorMsgId := newErrorMsgId;
     thinkingConfig := thinkingConfig p;
     userInputForFlow := userInputForFlow p;
     imageApiPartForFlow := imageApiPartForFlow p;
     discussionLogBeforeFailure := discussionLogBeforeFailure p;
     currentTurnIndexForResume := currentTurnIndexForResume p;
     previousAISignaledStopForResume := previousAISignaledStopForResume p |}.

(** *** Leaving a handler *)

(** The [finally] of [handleSendMessage] (lines 720-736) and of
    [continueDiscussionAfterSuccessfulRetry] (lines 485-495). *)
Definition flowFinally (env : Env) (st : AppState) : AppState :=
  let st := setIsLoading false st in
  if cancelRequest st && negb (env_failedStepInfo env)
  then notify UserStopped st else st.

(** The [finally] of [handleManualRetry] (lines 806-821). *)
Definition manualRetryFinally (env : Env) (st : AppState) : AppState :=
  if env_failedStepInfo env || cancelRequest st then
    let st := setIsLoading false st in
    if cancelRequest st && negb (env_failedStepInfo env)
    then notify UserStoppedManualRetry st else st
  else st.

(** The flow returns or its [catch] is done: its [finally] runs and, for a
    continuation, the [finally] of the [handleManualRetry] that awaits it. *)
Definition finish (env : Env) (f : Flow) (o : Outcome) (st : AppState)
  : Machine :=
  let st := flowFinally env st in
  {| app := if isContinued f then manualRetryFinally env st else st;
     control := Finished o |}.

(** The returns taken when the cancel flag is set: lines 582-587, 623, 662,
    677-682 and 704 clean up and notify before returning; lines 382, 428,
    447 and 469 only return. *)
Definition stopped (env : Env) (f : Flow) (st : AppState) : Machine :=
  match f with
  | Fresh _ =>
      let st := setIsLoading false st in
      let st :=
        if cancelRequest st && negb (env_failedStepInfo env)
        then notify UserStopped st else st in
      finish env f Cancelled st
  | Continued _ _ => finish env f Cancelled st
  end.

(** *** The retry loop and the discussion loop *)

(** The head of [for (let attempt = ...; attempt <= MAX_AUTO_RETRIES; ...)]:
    break when cancelled, else call [generateResponse] and wait. *)
Definition beginAttempt (env : Env) (f : Flow) (step : StepIdentifier)
    (attempt : nat) (l : Locals) (st : AppState) : Machine :=
  if cancelRequest st then stopped env f st
  else {| app := st; control := AwaitCall f step attempt l |}.

(** Behind the discussion loop: lines 677-690 and 447-455. *)
Definition enterFinal (env : Env) (f : Flow) (l : Locals) (st : AppState)
  : Machine :=
  if cancelRequest st then stopped env f st
  else beginAttempt env f CognitoFinalAnswer 0 l (notify Synthesizing st).

(** Between the two halves of a pair: lines 638-647 and 400-414. *)
Definition beforeCognitoReply (env : Env) (f : Flow) (turn : nat)
    (l : Locals) (st : AppState) : Machine :=
  if cancelRequest st then enterFinal env f l st
  else if match f with
          | Continued prior _ =>
              isAiDriven env && previousAISignaledStop l && prior
          | Fresh _ => false
          end
  then enterFinal env f l st
  else if isFixedTurns env && (manualFixedTurns env - 1 <=? turn)
  then enterFinal env f l st
  else beginAttempt env f (CognitoReplyToMuseTurn turn) 0 l
         (notify CognitoResponding st).

(** The head of an iteration of the discussion loop: lines 597-609 and
    355-368. [skipMuse] is [skipMuseInFirstIteration]. *)
Definition loopHead (env : Env) (f : Flow) (turn : nat) (skipMuse : bool)
    (l : Locals) (st : AppState) : Machine :=
  if cancelRequest st then enterFinal env f l st
  else if isFixedTurns env && (manualFixedTurns env <=? turn)
  then enterFinal env f l st
  else if isAiDriven env && previousAISignaledStop l
          && match f with
             | Fresh cognitoSignal => cognitoSignal && (0 <? turn)
             | Continued prior init => prior && (init <? turn)
             end
  then enterFinal env f l st
  else if match f with
          | Continued _ init => skipMuse && (turn =? init)
          | Fresh _ => false
          end
  then beforeCognitoReply env f turn l st
  else beginAttempt env f (MuseReplyToCognitoTurn turn) 0 l
         (notify MuseResponding st).

(** [lastTurnTextForLog = r.spokenText; currentDiscussionLog.push(...);
    previousAISignaledStop = signal] *)
Definition recordTurn (who : MessageSender) (r : ParsedAIResponse)
    (signal : bool) (l : Locals) : Locals :=
  {| userInput := userInput l;
     l_imageApiPart := l_imageApiPart l;
     currentDiscussionLog := currentDiscussionLog l ++ [(who, spokenText r)];
     lastTurnTextForLog := spokenText r;
     previousAISignaledStop := signal |}.

(** Lines 588-594. *)
Definition onInitialSuccess (env : Env) (l : Locals) (r : ParsedAIResponse)
    (st : AppState) : Machine :=
  let st := applyNotepad r Cognito st in
  let l' := recordTurn Cognito r (isAiDriven env && discussionShouldEnd r) l in
  let st := setDiscussionLog (currentDiscussionLog l') st in
  let st :=
    if previousAISignaledStop l' then notify (SuggestedEnd Cognito Muse) st
    else st in
  loopHead env (Fresh (discussionShouldEnd r)) 0 false l' st.

(** Lines 624-636 and 383-398. *)
Definition onMuseSuccess (env : Env) (f : Flow) (turn : nat) (l : Locals)
    (r : ParsedAIResponse) (st : AppState) : Machine :=
  let st := applyNotepad r Muse st in
  let l' := recordTurn Muse r (discussionShouldEnd r) l in
  let st := setDiscussionLog (currentDiscussionLog l') st in
  if isAiDriven env then
    if discussionShouldEnd r && previousAISignaledStop l then
      enterFinal env f l' (notify (BothAgreed Cognito Muse) st)
    else if discussionShouldEnd r then
      beforeCognitoReply env f turn l' (notify (SuggestedEnd Muse Cognito) st)
    else beforeCognitoReply env f turn l' st
  else beforeCognitoReply env f turn l' st.

(** Lines 663-676 and 429-443; the continuation checks the cancel flag once
    more at the end of the iteration. *)
Definition onCognitoReplySuccess (env : Env) (f : Flow) (turn : nat)
    (l : Locals) (r : ParsedAIResponse) (st : AppState) : Machine :=
  let st := applyNotepad r Cognito st in
  let l' := recordTurn Cognito r (discussionShouldEnd r) l in
  let st := setDiscussionLog (currentDiscussionLog l') st in
  let next st :=
    if isContinued f && cancelRequest st then enterFinal env f l' st
    else loopHead env f (S turn) false l' st in
  if isAiDriven env then
    if discussionShouldEnd r && previousAISignaledStop l then
      enterFinal env f l' (notify (BothAgreed Muse Cognito) st)
    else if discussionShouldEnd r then
      next (notify (SuggestedEnd Cognito Muse) st)
    else next st
  else next st.

(** Lines 705 and 470. *)
Definition onFinalSuccess (env : Env) (f : Flow) (r : ParsedAIResponse)
    (st : AppState) : Machine :=
  finish env f Completed (applyNotepad r Cognito st).

(** The call succeeded: parse, show the spoken text, go on. *)
Definition onSuccess (env : Env) (f : Flow) (step : StepIdentifier)
    (l : Locals) (text : jsstring) (st : AppState) : Machine :=
  let r := parseAIResponse text in
  let st :=
    snd (addMessage (Spoken (spokenText r)) (stepSender step)
           (stepPurpose step) st) in
  match step with
  | CognitoInitialToMuse => onInitialSuccess env l r st
  | MuseReplyToCognitoTurn turn => onMuseSuccess env f turn l r st
  | CognitoReplyToMuseTurn turn => onCognitoReplySuccess env f turn l r st
  | CognitoFinalAnswer => onFinalSuccess env f r st
  end.

(** An error with the API-key marker: the inner [catch] sets the flag,
    shows the error and rethrows; the outer [catch] (lines 707-719 and
    472-484) shows it again unless a captured message includes it. *)
Definition authAbort (env : Env) (f : Flow) (msg : jsstring) (st : AppState)
  : Machine :=
  let st := setIsApiKeyMissing true st in
  let st := notify (ErrorText msg) st in
  let st :=
    if env_messagesInclude env msg then st
    else notify (ErrorCheckApiKey msg) st in
  let st := setIsApiKeyMissing true st in
  finish env f AuthAborted st.

(** The last attempt failed: the notification that offers the manual retry,
    [setFailedStepInfo], return. *)
Definition failStep (env : Env) (f : Flow) (step : StepIdentifier)
    (l : Locals) (msg : jsstring) (st : AppState) : Machine :=
  let '(errorMsgId, st) :=
    addMessage (StepFailedCanRetry (isContinued f) step msg) System
      SystemNotification st in
  let st :=
    setFailedStepInfo (Some (failedStepPayload env step l errorMsgId)) st in
  let st := if isContinued f then st else setIsLoading false st in
  finish env f Failed st.

(** [result.error] is set (a non-empty string). *)
Definition hasError (r : ApiResult) : option jsstring :=
  match r_error r with
  | Some e => if truthy e then Some e else None
  | None => None
  end.

(** [generateResponse] returned in attempt [attempt] of [step]. *)
Definition onCallReturned (env : Env) (f : Flow) (step : StepIdentifier)
    (attempt : nat) (l : Locals) (cancelled : bool) (r : ApiResult)
    (st : AppState) : Machine :=
  let st := if cancelled then setCancelRequest true st else st in
  if cancelRequest st then stopped env f st
  else
    match hasError r with
    | Some e =>
        if includes e API_KEY_NOT_VALID then authAbort env f (r_text r) st
        else if attempt <? MAX_AUTO_RETRIES then
          {| app :=
               notify (CallFailedRetrying (isContinued f) step (S attempt)
                         (r_text r)) st;
             control := AwaitDelay f step attempt l |}
        else failStep env f step l (r_text r) st
    | None => onSuccess env f step l (r_text r) st
    end.

(** The delay [RETRY_DELAY_BASE_MS * (attempt + 1)] elapsed. *)
Definition onDelayElapsed (env : Env) (f : Flow) (step : StepIdentifier)
    (attempt : nat) (l : Locals) (cancelled : bool) (st : AppState)
  : Machine :=
  let st := if cancelled then setCancelRequest true st else st in
  beginAttempt env f step (S attempt) l st.

(** What [fileToBase64] resolves with for the data URL the reader gives:
    [result.split(',')[1]], [None] for [undefined] (lines 102-104). *)
Definition dataUrlPayload (result : jsstring) : option jsstring :=
  nth_error (splitOn 44 result) 1.

(** [handleSendMessage] from line 537 to its first call; [imageApiPart] is
    the variable of line 522. *)
Definition beginQuery (env : Env) (input : jsstring)
    (imageApiPart : option ImagePart) (st : AppState) : Machine :=
  let l := {| userInput := input; l_imageApiPart := imageApiPart;
              currentDiscussionLog := []; lastTurnTextForLog := [];
              previousAISignaledStop := false |} in
  beginAttempt env (Fresh false) CognitoInitialToMuse 0 l
    (notify PreparingInitial st).

(** [handleSendMessage], up to its first suspension: at
    [await fileToBase64(imageFile)] when there is an image, else at the
    first call. *)
Definition handleSendMessage (env : Env) (input : jsstring)
    (imageFile : option ImageFile) (st : AppState) : Machine :=
  if isApiKeyMissing st || isLoading st then
    {| app := st; control := Finished Rejected |}
  else if negb (truthy (trim input))
          && match imageFile with None => true | Some _ => false end then
    {| app := st; control := Finished Rejected |}
  else
    let st := setCancelRequest false st in
    let st := setIsLoading true st in
    let st := setFailedStepInfo None st in
    let st := setDiscussionLog [] st in
    let st := snd (addMessage (Spoken input) User UserInput st) in
    match imageFile with
    | Some file => {| app := st; control := AwaitImage input file |}
    | None => beginQuery env input None st
    end.

(** The promise of [fileToBase64] is settled (lines 524-535): when the
    reader reported an error, the [catch] shows the failure, resets the
    loading flag and returns, before the [try] whose [finally] cleans up;
    else the query goes on with the image part. The cancel flag is not
    looked at here. *)
Definition onImageRead (env : Env) (input : jsstring) (file : ImageFile)
    (cancelled : bool) (result : option jsstring) (st : AppState) : Machine :=
  let st := if cancelled then setCancelRequest true st else st in
  match result with
  | Some url => beginQuery env input (Some (file, dataUrlPayload url)) st
  | None =>
      {| app := setIsLoading false (notify ImageProcessingFailed st);
         control := Finished ImageFailed |}
  end.

(** [continueDiscussionAfterSuccessfulRetry], up to its first call. *)
Definition continueDiscussionAfterSuccessfulRetry (env : Env)
    (retriedStepPayload : FailedStepPayload)
    (retryResponse : ParsedAIResponse) (st : AppState) : Machine :=
  let l :=
    {| userInput := userInputForFlow retriedStepPayload;
       l_imageApiPart := imageApiPartForFlow retriedStepPayload;
       currentDiscussionLog :=
         discussionLogBeforeFailure retriedStepPayload
         ++ [(fs_sender retriedStepPayload, spokenText retryResponse)];
       lastTurnTextForLog := spokenText retryResponse;
       previousAISignaledStop :=
         isAiDriven env && discussionShouldEnd retryResponse |} in
  let st := setDiscussionLog (currentDiscussionLog l) st in
  let prev := previousAISignaledStop l in
  let prior :=
    match previousAISignaledStopForResume retriedStepPayload with
    | Some b => b
    | None => false
    end in
  let turnIndex :=
    match currentTurnIndexForResume retriedStepPayload with
    | Some t => t
    | None => 0
    end in
  let continue initialLoopTurn skipMuse st :=
    let f := Continued prior initialLoopTurn in
    if isAiDriven env && prev && prior then enterFinal env f l st
    else loopHead env f initialLoopTurn skipMuse l st in
  match stepIdentifier retriedStepPayload with
  | CognitoInitialToMuse =>
      continue 0 false
        (if prev then notify (SuggestedEnd Cognito Muse) st else st)
  | MuseReplyToCognitoTurn _ =>
      continue turnIndex true
        (if isAiDriven env && prev && prior
         then notify (BothAgreed Cognito Muse) st
         else if isAiDriven env && prev
         then notify (SuggestedEnd Muse Cognito) st
         else st)
  | CognitoReplyToMuseTurn _ =>
      continue (turnIndex + 1) false
        (if isAiDriven env && prev && prior
         then notify (BothAgreed Muse Cognito) st
         else if isAiDriven env && prev
         then notify (SuggestedEnd Cognito Muse) st
         else st)
  | CognitoFinalAnswer =>
      {| app := manualRetryFinally env (setIsLoading false st);
         control := Finished Completed |}
  end.

(** [handleManualRetry], up to its call. *)
Definition handleManualRetry (env : Env) (stepToRetry : FailedStepPayload)
    (st : AppState) : Machine :=
  if isLoading st then {| app := st; control := Finished Rejected |}
  else
    let st := setIsLoading true st in
    let st := setCancelRequest false st in
    let st := removeMessage (originalSystemErrorMsgId stepToRetry) st in
    let st :=
      notify (ManualRetrying (fs_sender stepToRetry)
                (stepIdentifier stepToRetry)) st in
    {| app := st; control := AwaitManualRetry stepToRetry |}.

(** The call of [handleManualRetry] returned. *)
Definition onManualReturned (env : Env) (stepToRetry : FailedStepPayload)
    (cancelled : bool) (r : ApiResult) (st : AppState) : Machine :=
  let st := if cancelled then setCancelRequest true st else st in
  if cancelRequest st then
    {| app := manualRetryFinally env st; control := Finished Cancelled |}
  else
    match hasError r with
    | Some e =>
        let isApiKeyError := includes e API_KEY_NOT_VALID in
        let st := if isApiKeyError then setIsApiKeyMissing true st else st in
        let errorMsg :=
          if truthy (r_text r) then r_text r else UNKNOWN_ERROR in
        let '(newErrorMsgId, st) :=
          addMessage (ManualRetryFailed (fs_sender stepToRetry)
                        (stepIdentifier stepToRetry) errorMsg)
            System SystemNotification st in
        let st := if isApiKeyError then setIsApiKeyMissing true st else st in
        let st :=
          setFailedStepInfo (Some (repoint stepToRetry newErrorMsgId)) st in
        {| app := manualRetryFinally env st; control := Finished Failed |}
    | None =>
        let parsed := parseAIResponse (r_text r) in
        let st :=
          snd (addMessage (Spoken (spokenText parsed)) (fs_sender stepToRetry)
                 (fs_purpose stepToRetry) st) in
        let st := applyNotepad parsed (fs_sender stepToRetry) st in
        let st :=
          notify (ManualRetrySucceeded (fs_sender stepToRetry)
                    (stepIdentifier stepToRetry)) st in
        let st := setFailedStepInfo None st in
        continueDiscussionAfterSuccessfulRetry env stepToRetry parsed st
    end.

(** *** The machine *)

(** One event resumes the suspended handler, which runs to its next
    suspension or to its end; an event nothing waits for is dropped. *)
Definition step (env : Env) (m : Machine) (e : Event) : Machine :=
  match control m, e with
  | AwaitCall f s attempt l, CallReturned cancelled r =>
      onCallReturned env f s attempt l cancelled r (app m)
  | AwaitDelay f s attempt l, DelayElapsed cancelled =>
      onDelayElapsed env f s attempt l cancelled (app m)
  | AwaitManualRetry p, CallReturned cancelled r =>
      onManualReturned env p cancelled r (app m)
  | AwaitImage input file, ImageRead cancelled result =>
      onImageRead env input file cancelled result (app m)
  | _, _ => m
  end.

Definition run (env : Env) (m : Machine) (es : list Event) : Machine :=
  fold_left (step env) es m.

(** *** Observations on a state *)

(** An uncancelled successful call returning [text]. *)
Definition ok (text : jsstring) : Event :=
  CallReturned false {| r_text := text; r_error := None |}.

(** An uncancelled failed call with error message [msg] and
    [result.error = err]. *)
Definition failed (msg err : jsstring) : Event :=
  CallReturned false {| r_text := msg; r_error := Some err |}.

Definition sender_eqb (a b : MessageSender) : bool :=
  match a, b with
  | User, User | Cognito, Cognito | Muse, Muse | System, System => true
  | _, _ => false
  end.

Definition purpose_eqb (a b : MessagePurpose) : bool :=
  match a, b with
  | UserInput, UserInput | SystemNotification, SystemNotification
  | CognitoToMuse, CognitoToMuse | MuseToCognito, MuseToCognito
  | FinalResponse, FinalResponse => true
  | _, _ => false
  end.

(** The message shows what [who] said, for purpose [p]. *)
Definition isSpokenBy (who : MessageSender) (p : MessagePurpose)
    (m : ChatMessage) : bool :=
  match msg_text m with
  | Spoken _ => sender_eqb (msg_sender m) who && purpose_eqb (msg_purpose m) p
  | _ => false
  end.

Definition isNotice (t : MessageText -> bool) (m : ChatMessage) : bool :=
  t (msg_text m).

Definition countMessages (t : ChatMessage -> bool) (st : AppState) : nat :=
  length (filter t (messages st)).

(** The notifications that offer a manual retry. *)
Definition offersRetry (t : MessageText) : bool :=
  match t with
  | StepFailedCanRetry _ _ _ | ManualRetryFailed _ _ _ => true
  | _ => false
  end.

Definition isMuseResponding (t : MessageText) : bool :=
  match t with MuseResponding => true | _ => false end.

Definition isCognitoResponding (t : MessageText) : bool :=
  match t with CognitoResponding => true | _ => false end.

Definition isSynthesizing (t : MessageText) : bool :=
  match t with Synthesizing => true | _ => false end.

Definition isBothAgreed (t : MessageText) : bool :=
  match t with BothAgreed _ _ => true | _ => false end.

Definition isCallFailedRetrying (t : MessageText) : bool :=
  match t with CallFailedRetrying _ _ _ _ => true | _ => false end.

(** The events of consecutive failed attempts of one step, each given by
    its error message and [result.error]: between two failures the retry
    delay elapses; nothing is cancelled. *)
Fixpoint consecutiveFailures (fs : list (jsstring * jsstring))
  : list Event :=
  match fs with
  | [] => []
  | (msg, err) :: fs' =>
      failed msg err ::
      match fs' with
      | [] => []
      | _ :: _ => DelayElapsed false :: consecutiveFailures fs'
      end
  end.

(** [result.error] is set and does not carry the API-key marker. *)
Definition plainFailure (f : jsstring * jsstring) : bool :=
  truthy (snd f) && negb (includes (snd f) API_KEY_NOT_VALID).

(** The handler is not at the opening turn nor at a turn of a pair before
    pair [k]. *)
Definition notBeforePair (k : nat) (c : Control) : bool :=
  match c with
  | AwaitCall _ s _ _ | AwaitDelay _ s _ _ =>
      match s with
      | CognitoInitialToMuse => false
      | MuseReplyToCognitoTurn turn | CognitoReplyToMuseTurn turn =>
          k <=? turn
      | CognitoFinalAnswer => true
      end
  | AwaitManualRetry _ | AwaitImage _ _ => false
  | Finished _ => true
  end.

(** The senders of the discussion log of a query with [n] fixed turns that
    has reached the final answer: the opening turn, [n - 1] full pairs and
    the first half of the last pair. *)
Definition fixedTurnsSenders (n : nat) : list MessageSender :=
  Cognito :: concat (repeat [Muse; Cognito] (n - 1)) ++ [Muse].

(** [handleSendMessage] does not return at its first two lines. *)
Definition queryAccepted (input : jsstring) (imageFile : option ImageFile)
    (st : AppState) : bool :=
  negb (isApiKeyMissing st || isLoading st)
  && negb (negb (truthy (trim input))
           && match imageFile with None => true | Some _ => false end).

(** The events up to the first call of a query whose image, if it has one,
    is read without error and without a stop, with data URL [url]; and the
    image part the calls of the query are then made with. *)
Definition imageRead (imageFile : option ImageFile) (url : jsstring)
  : list Event :=
  match imageFile with
  | Some _ => [ImageRead false (Some url)]
  | None => []
  end.

Definition imagePartOf (imageFile : option ImageFile) (url : jsstring)
  : option ImagePart :=
  match imageFile with
  | Some file => Some (file, dataUrlPayload url)
  | None => None
  end.

(** An environment with nothing captured from an earlier render. *)
Definition plainEnv (mode : DiscussionMode) (turns : nat) : Env :=
  {| discussionMode := mode; manualFixedTurns := turns;
     selectedModelApiName := lit "gemini-2.5-flash";
     activeThinkingConfig := Some 24576%N;
     env_notepadContent := []; env_failedStepInfo := false;
     env_messagesInclude := fun _ => false |}.

(** The state [initializeChat] sets up, before its welcome message. *)
Definition initialState (notepad : jsstring) : AppState :=
  {| messages := []; nextId := 0; notepadContent := notepad;
     lastNotepadUpdateBy := None; discussionLog := [];
     failedStepInfo := None; isApiKeyMissing := false; isLoading := false;
     cancelRequest := false |}.

(** A discussion after the opening turn and the first turn of Muse, the
    checkpoint of a reply of Cognito in pair 0 that failed there, and the
    state this failure leaves. *)
Definition exampleLocals : Locals :=
  {| userInput := lit "q"; l_imageApiPart := None;
     currentDiscussionLog := [(Cognito, lit "A"); (Muse, lit "B")];
     lastTurnTextForLog := lit "B";
     previousAISignaledStop := false |}.

Definition exampleCheckpoint : FailedStepPayload :=
  failedStepPayload (plainEnv AiDriven 2) (CognitoReplyToMuseTurn 0)
    exampleLocals 0.

Definition exampleFailedState : AppState :=
  setFailedStepInfo (Some exampleCheckpoint)
    (notify (StepFailedCanRetry false (CognitoReplyToMuseTurn 0) (lit "boom"))
       (initialState [])).

End Orchestrator.

(** ** The rest of the component *)

Module Shell.
Import JsString Parser Orchestrator.

(** *** The turn count *)

(** constants.ts *)
Definition DEFAULT_MANUAL_FIXED_TURNS : Z := 2.
Definition MIN_MANUAL_FIXED_TURNS : Z := 1.
Definition MAX_MANUAL_FIXED_TURNS : Z := 5.

(** The value of a decimal digit. *)
Definition digitValue (c : N) : option Z :=
  if ((48 <=? c) && (c <=? 57))%N then Some (Z.of_N c - 48)%Z else None.

(** The digits at the head of [s] read in base 10; [acc] is the value read
    so far, [seen] says whether a digit was read. *)
Fixpoint leadingDigits (s : jsstring) (acc : Z) (seen : bool) : option Z :=
  match s with
  | [] => if seen then Some acc else None
  | c :: s' =>
      match digitValue c with
      | Some d => leadingDigits s' (10 * acc + d)%Z true
      | None => if seen then Some acc else None
      end
  end.

(** [parseInt(s, 10)]: leading white space is skipped, a sign is read, then
    the digits up to the first other character; [None] is [NaN]. The
    result is the integer the digits denote; a JavaScript number rounds it
    beyond 2^53, which the clamping below does not see. *)
Definition parseInt10 (s : jsstring) : option Z :=
  match trimStart s with
  | [] => None
  | c :: s' =>
      if (c =? 45)%N then option_map Z.opp (leadingDigits s' 0 false)
      else if (c =? 43)%N then leadingDigits s' 0 false
      else leadingDigits (c :: s') 0 false
  end.

(** [handleManualFixedTurnsChange], lines 266-273: the value given to
    [setManualFixedTurns] for the text of the input field. *)
Definition handleManualFixedTurnsChange (value : jsstring) : nat :=
  let value :=
    match parseInt10 value with
    | Some v => v
    | None => DEFAULT_MANUAL_FIXED_TURNS
    end in
  Z.to_nat
    (Z.max MIN_MANUAL_FIXED_TURNS (Z.min MAX_MANUAL_FIXED_TURNS value)).

(** *** The models *)

(** [a === b] on strings. *)
Fixpoint str_eqb (a b : jsstring) : bool :=
  match a, b with
  | [], [] => true
  | c :: a', d :: b' => (c =? d)%N && str_eqb a' b'
  | _, _ => false
  end.

(** [AiModel] of constants.ts *)
Record AiModel := {
  m_id : jsstring;
  m_name : jsstring;
  apiName : jsstring;
  supportsThinkingConfig : bool
}.

Definition GEMINI_2_5_FLASH_MODEL_ID : jsstring := lit "gemini-2.5-flash".
Definition GEMINI_PRO_MODEL_ID : jsstring := lit "gemini-2.5-pro".
Definition GEMINI_FLASH_LITE_PREVIEW_MODEL_ID : jsstring :=
  lit "gemini-2.5-flash-lite-preview-06-17".

Definition MODELS : list AiModel :=
  [ {| m_id := lit "gemini-2.5-flash"; m_name := lit "Gemini 2.5 Flash";
       apiName := GEMINI_2_5_FLASH_MODEL_ID;
       supportsThinkingConfig := true |};
    {| m_id := lit "pro-2.5"; m_name := lit "Gemini 2.5 Pro";
       apiName := GEMINI_PRO_MODEL_ID; supportsThinkingConfig := true |};
    {| m_id := lit "flash-lite-preview-06-17";
       m_name := lit "Gemini 2.5 Flash Lite Preview (06-17)";
       apiName := GEMINI_FLASH_LITE_PREVIEW_MODEL_ID;
       supportsThinkingConfig := true |} ].

(** [THINKING_BUDGET_CONFIG_HIGH_QUALITY.thinkingConfig.thinkingBudget] and
    its counterpart for the Pro model. *)
Definition THINKING_BUDGET_HIGH_QUALITY : N := 24576.
Definition THINKING_BUDGET_PRO_HIGH_QUALITY : N := 32768.

(** [MODELS.find(m => m.apiName === selectedModelApiName) || MODELS[0]],
    line 133. *)
Definition currentModelDetails (selectedModelApiName : jsstring) : AiModel :=
  match find (fun m => str_eqb (apiName m) selectedModelApiName) MODELS with
  | Some m => m
  | None =>
      hd {| m_id := []; m_name := []; apiName := [];
            supportsThinkingConfig := false |} MODELS
  end.

(** [activeThinkingConfig], lines 537-542 and 304-309: the budget sent
    with every call, if any. *)
Definition activeThinkingConfigOf (selectedModelApiName : jsstring)
    (isThinkingBudgetActive : bool) : option N :=
  let details := currentModelDetails selectedModelApiName in
  if supportsThinkingConfig details && isThinkingBudgetActive then
    Some (if str_eqb (apiName details) GEMINI_PRO_MODEL_ID
          then THINKING_BUDGET_PRO_HIGH_QUALITY
          else THINKING_BUDGET_HIGH_QUALITY)
  else None.

(** *** Stopping *)

(** [handleStopGenerating], lines 275-279. *)
Definition handleStopGenerating (st : AppState) : AppState :=
  if isLoading st then setCancelRequest true st else st.

(** The user presses stop while the handler is suspended. *)
Definition stopPressed (m : Machine) : Machine :=
  {| app := handleStopGenerating (app m); control := control m |}.

(** *** Observations *)

(** What a discussion has produced, apart from its messages. *)
Definition discussionOf (st : AppState) :=
  (notepadContent st, lastNotepadUpdateBy st, discussionLog st,
   failedStepInfo st, isApiKeyMissing st).

(** A state without its messages and the id counter. *)
Definition dataOf (st : AppState) :=
  (discussionOf st, isLoading st, cancelRequest st).

(** Several notifications in a row. *)
Definition notifyAll (ts : list MessageText) (st : AppState) : AppState :=
  fold_left (fun st t => notify t st) ts st.

(** The state after a turn of [who] has been parsed as [r]: the spoken
    text is shown, the notepad update applied and the discussion log set
    to [lg]. *)
Definition recorded (who : MessageSender) (p : MessagePurpose)
    (r : ParsedAIResponse) (lg : list LogEntry) (st : AppState) : AppState :=
  setDiscussionLog lg
    (applyNotepad r who (snd (addMessage (Spoken (spokenText r)) who p st))).

(** The event is the return of the call, or the end of the delay, that the
    handler suspended at [c] waits for. *)
Definition resumes (c : Control) (e : Event) : bool :=
  match c, e with
  | AwaitCall _ _ _ _, CallReturned _ _
  | AwaitDelay _ _ _ _, DelayElapsed _
  | AwaitManualRetry _, CallReturned _ _ => true
  | _, _ => false
  end.

(** A handler is suspended. *)
Definition isSuspended (c : Control) : bool :=
  match c with Finished _ => false | _ => true end.

(** [s'] is the step behind [s] in the order of a discussion, or the final
    answer. *)
Definition mayFollow (s s' : StepIdentifier) : bool :=
  match s, s' with
  | CognitoFinalAnswer, _ => false
  | _, CognitoFinalAnswer => true
  | CognitoInitialToMuse, MuseReplyToCognitoTurn turn' => turn' =? 0
  | MuseReplyToCognitoTurn turn, CognitoReplyToMuseTurn turn' =>
      turn' =? turn
  | CognitoReplyToMuseTurn turn, MuseReplyToCognitoTurn turn' =>
      turn' =? S turn
  | _, _ => false
  end.

(** The step behind [s] in a discussion that does not end. *)
Definition nextDiscussionStep (s : StepIdentifier) : StepIdentifier :=
  match s with
  | CognitoInitialToMuse => MuseReplyToCognitoTurn 0
  | MuseReplyToCognitoTurn turn => CognitoReplyToMuseTurn turn
  | CognitoReplyToMuseTurn turn => MuseReplyToCognitoTurn (S turn)
  | CognitoFinalAnswer => CognitoFinalAnswer
  end.

(** The handler is past the turn of Muse in pair [k]: not at the opening
    turn, not at a turn of Muse up to pair [k], not at a reply of Cognito
    before pair [k]. *)
Definition pastMuseOf (k : nat) (c : Control) : bool :=
  match c with
  | AwaitCall _ s _ _ | AwaitDelay _ s _ _ =>
      match s with
      | CognitoInitialToMuse => false
      | MuseReplyToCognitoTurn turn => k <? turn
      | CognitoReplyToMuseTurn turn => k <=? turn
      | CognitoFinalAnswer => true
      end
  | AwaitManualRetry _ | AwaitImage _ _ => false
  | Finished _ => true
  end.

(** The message is a notice that the user stopped the response. *)
Definition isUserStopped (m : ChatMessage) : bool :=
  match msg_text m with
  | UserStopped | UserStoppedManualRetry => true
  | _ => false
  end.

(** While a handler of the discussion is suspended, the discussion log of
    the component is the log the handler works with. *)
Definition logInSync (m : Machine) : Prop :=
  match control m with
  | AwaitCall _ _ _ l | AwaitDelay _ _ _ l =>
      discussionLog (app m) = currentDiscussionLog l
  | AwaitImage _ _ => discussionLog (app m) = []
  | _ => True
  end.

(** The checkpoint points at the last message, a notification that offers
    the retry. *)
Definition pointsAtLastMessage (st : AppState) (cp : FailedStepPayload)
  : Prop :=
  exists ms notice,
    messages st = ms ++ [notice]
    /\ msg_id notice = originalSystemErrorMsgId cp
    /\ offersRetry (msg_text notice) = true.

(** Where an accepted query can be: suspended, with the loading flag set
    and no checkpoint; ended by a step that failed, with a checkpoint that
    points at the last message; or ended in another way, without
    checkpoint. *)
Definition queryState (m : Machine) : Prop :=
  match control m with
  | AwaitCall (Fresh _) _ _ _ | AwaitDelay (Fresh _) _ _ _
  | AwaitImage _ _ =>
      isLoading (app m) = true /\ failedStepInfo (app m) = None
  | Finished Failed =>
      isLoading (app m) = false
      /\ exists cp,
           failedStepInfo (app m) = Some cp
           /\ pointsAtLastMessage (app m) cp
  | Finished Rejected => False
  | Finished _ =>
      isLoading (app m) = false /\ failedStepInfo (app m) = None
  | _ => False
  end.

(** *** The calls of a retry loop *)

(** The calls made so far by the retry loop the handler is in, read off
    its transitions and not off the attempt counter of the loop: a call
    that is reached from anywhere but a retry delay is the first call of a
    loop, the call behind a retry delay is one more of the same loop; any
    other event leaves the count. *)
Definition callsOfLoop (env : Env) (m : Machine) (e : Event) (n : nat)
  : nat :=
  match control m, e, control (step env m e) with
  | AwaitDelay _ _ _ _, DelayElapsed _, AwaitCall _ _ _ _ => S n
  | AwaitCall _ _ _ _, CallReturned _ _, AwaitCall _ _ _ _
  | AwaitManualRetry _, CallReturned _ _, AwaitCall _ _ _ _
  | AwaitImage _ _, ImageRead _ _, AwaitCall _ _ _ _ => 1
  | _, _, _ => n
  end.

(** A run with the count of [callsOfLoop] beside it. *)
Definition countedStep (env : Env) (mn : Machine * nat) (e : Event)
  : Machine * nat :=
  (step env (fst mn) e, callsOfLoop env (fst mn) e (snd mn)).

Definition countedRun (env : Env) (m : Machine) (es : list Event)
  : Machine * nat :=
  fold_left (countedStep env) es
    (m, match control m with AwaitCall _ _ _ _ => 1 | _ => 0 end).

(** The count is the attempt counter of the loop plus one, and within the
    budget. *)
Definition countsAttempts (mn : Machine * nat) : Prop :=
  snd mn <= MAX_AUTO_RETRIES + 1
  /\ match control (fst mn) with
     | AwaitCall _ _ attempt _ => snd mn = S attempt
     | AwaitDelay _ _ attempt _ =>
         snd mn = S attempt /\ attempt < MAX_AUTO_RETRIES
     | _ => True
     end.

(** *** The notepad in the prompts *)

(** The text of [NOTEPAD_INSTRUCTION_PROMPT_PART] in front of its
    placeholder and behind it. *)
Definition notepadPartBefore : jsstring :=
  join [10%N]
    [[];
     lit "You also have access to a shared notepad.";
     lit "Current Notepad Content:";
     lit "---";
     []].

Definition notepadPartBehind : jsstring :=
  join [10%N]
    [[];
     lit "---";
     lit "Instructions for Notepad:";
     lit "1. To update the notepad, include a section at the very end of your response, formatted exactly as:";
     lit "   <notepad_update>";
     lit "   [YOUR NEW FULL NOTEPAD CONTENT HERE. THIS WILL REPLACE THE ENTIRE CURRENT NOTEPAD CONTENT.]";
     lit "   </notepad_update>";
     lit "2. If you do not want to change the notepad, do NOT include the <notepad_update> section at all.";
     lit "3. Your primary spoken response to the ongoing discussion should come BEFORE any <notepad_update> section. Ensure you still provide a spoken response.";
     []].

(** No code unit of [s] is a dollar sign. *)
Definition noDollar (s : jsstring) : bool :=
  forallb (fun c => negb (c =? 36)%N) s.

(** *** Examples *)

(** The locals of a query before its opening turn and after it, and the
    state a step that failed with checkpoint [cp] leaves in an empty
    chat. *)
Definition exampleLocalsAtStart : Locals :=
  {| userInput := lit "q"; l_imageApiPart := None;
     currentDiscussionLog := []; lastTurnTextForLog := [];
     previousAISignaledStop := false |}.

Definition exampleLocalsAfterOpening : Locals :=
  {| userInput := lit "q"; l_imageApiPart := None;
     currentDiscussionLog := [(Cognito, lit "A")];
     lastTurnTextForLog := lit "A";
     previousAISignaledStop := false |}.

Definition exampleCheckpointOf (s : StepIdentifier) (l : Locals)
  : FailedStepPayload :=
  failedStepPayload (plainEnv AiDriven 2) s l 0.

Definition exampleFailedStateOf (cp : FailedStepPayload) : AppState :=
  setFailedStepInfo (Some cp)
    (notify (StepFailedCanRetry false (stepIdentifier cp) (lit "boom"))
       (initialState [])).

End Shell.

(** * Properties *)

(** ** Strings *)

Module JsStringFacts.
Import JsString.

Lemma startsWith_iff (s p : jsstring) :
  startsWith s p = true <-> exists r, s = p ++ r.
Proof.
  revert s; induction p as [|c p IH]; intros s.
  - destruct s; simpl; split; eauto.
  - destruct s as [|d s]; simpl.
    + split; [discriminate | intros [r H]; discriminate].
    + rewrite andb_true_iff, N.eqb_eq, IH. split.
      * intros [-> [r ->]]. eauto.
      * intros [r H]. injection H as -> ->. eauto.
Qed.

Lemma startsWith_nil (s : jsstring) : startsWith s [] = true.
Proof. destruct s; reflexivity. Qed.

Lemma startsWith_app (s x p : jsstring) :
  startsWith s p = true -> startsWith (s ++ x) p = true.
Proof.
  rewrite !startsWith_iff. intros [r ->]. exists (r ++ x).
  now rewrite app_assoc.
Qed.

Lemma includes_iff (s p : jsstring) :
  includes s p = true <-> exists l r, s = l ++ p ++ r.
Proof.
  induction s as [|a s IH]; cbn [includes].
  - rewrite orb_false_r, startsWith_iff. split.
    + intros [r H]. exists [], r. exact H.
    + intros [l [r H]]. destruct l; [eauto|discriminate].
  - rewrite orb_true_iff, IH, startsWith_iff. split.
    + intros [[r H] | [l [r H]]].
      * exists [], r. exact H.
      * exists (a :: l), r. now rewrite H.
    + intros [[|b l] [r H]].
      * left. eauto.
      * right. injection H as -> ->. eauto.
Qed.

Lemma includes_nil_l (p : jsstring) : p <> [] -> includes [] p = false.
Proof. destruct p; [congruence | reflexivity]. Qed.

Lemma includes_rev (s p : jsstring) :
  includes (rev s) (rev p) = includes s p.
Proof.
  apply eq_true_iff_eq. rewrite !includes_iff. split.
  - intros [l [r H]]. exists (rev r), (rev l).
    rewrite <- (rev_involutive s), H, !rev_app_distr, rev_involutive.
    now rewrite app_assoc.
  - intros [l [r ->]]. exists (rev r), (rev l).
    now rewrite !rev_app_distr, app_assoc.
Qed.

(** *** Trimming *)

Lemma trimStart_head (s : jsstring) :
  trimStart s = [] \/
  exists c t, trimStart s = c :: t /\ is_ws c = false.
Proof.
  induction s as [|a s IH]; simpl; [now left|].
  destruct (is_ws a) eqn:E; [exact IH|]. right. eauto.
Qed.

Lemma trimStart_fix (c : N) (s : jsstring) :
  is_ws c = false -> trimStart (c :: s) = c :: s.
Proof. intros H. simpl. now rewrite H. Qed.

Lemma trimEnd_cons_keep (c : N) (s : jsstring) :
  is_ws c = false -> exists t, trimEnd (c :: s) = c :: t.
Proof.
  intros H. simpl. destruct (trimEnd s); rewrite ?H; eauto.
Qed.

Lemma trimEnd_idem (s : jsstring) : trimEnd (trimEnd s) = trimEnd s.
Proof.
  induction s as [|a s IH]; simpl; [reflexivity|].
  destruct (trimEnd s) as [|b t] eqn:E.
  - destruct (is_ws a) eqn:W; simpl; [reflexivity|]. now rewrite W.
  - change (trimEnd (a :: b :: t) = a :: b :: t).
    simpl. simpl in IH. destruct (trimEnd t) eqn:E2.
    + destruct (is_ws b); [discriminate|]. now rewrite IH.
    + now rewrite IH.
Qed.

Lemma trim_head (s : jsstring) :
  trim s = [] \/ exists c t, trim s = c :: t /\ is_ws c = false.
Proof.
  unfold trim. destruct (trimStart_head s) as [-> | [c [t [-> W]]]].
  - now left.
  - right. destruct (trimEnd_cons_keep c t W) as [u ->]. eauto.
Qed.

Theorem trim_idem (s : jsstring) : trim (trim s) = trim s.
Proof.
  destruct (trim_head s) as [E | [c [t [E W]]]].
  - rewrite E. reflexivity.
  - unfold trim at 1. rewrite E, (trimStart_fix c t W), <- E.
    apply trimEnd_idem.
Qed.

Lemma trimStart_app_single (s : jsstring) (a : N) :
  trimStart (s ++ [a]) =
  match trimStart s with
  | [] => if is_ws a then [] else [a]
  | t => t ++ [a]
  end.
Proof.
  induction s as [|b s IH]; simpl; [reflexivity|].
  destruct (is_ws b); [exact IH | reflexivity].
Qed.

Lemma trimEnd_rev (s : jsstring) : trimEnd s = rev (trimStart (rev s)).
Proof.
  induction s as [|a s IH]; simpl; [reflexivity|].
  rewrite trimStart_app_single, IH.
  destruct (trimStart (rev s)) as [|b t]; simpl.
  - destruct (is_ws a); reflexivity.
  - rewrite rev_app_distr. simpl.
    destruct (rev t ++ [b]) eqn:E; [|reflexivity].
    destruct (rev t); discriminate.
Qed.

(** A marker that neither starts nor ends with white space survives
    trimming. *)
Section Marker.
Variable p : jsstring.
Variables first last : N.
Hypothesis p_first : exists t, p = first :: t.
Hypothesis p_last : exists t, p = t ++ [last].
Hypothesis first_not_ws : is_ws first = false.
Hypothesis last_not_ws : is_ws last = false.

Lemma includes_trimStart_gen (q : jsstring) (c : N) (t : jsstring) :
  q = c :: t -> is_ws c = false ->
  forall s, includes (trimStart s) q = includes s q.
Proof.
  intros -> W. induction s as [|a s IH]; [reflexivity|].
  simpl trimStart. destruct (is_ws a) eqn:E; [|reflexivity].
  rewrite IH. simpl.
  destruct (N.eqb_spec c a) as [->|]; [congruence | reflexivity].
Qed.

Lemma includes_trimStart (s : jsstring) :
  includes (trimStart s) p = includes s p.
Proof.
  destruct p_first as [t E].
  exact (includes_trimStart_gen p first t E first_not_ws s).
Qed.

Lemma includes_trimEnd (s : jsstring) :
  includes (trimEnd s) p = includes s p.
Proof.
  destruct p_last as [t E].
  rewrite trimEnd_rev, <- includes_rev, rev_involutive.
  rewrite (includes_trimStart_gen (rev p) last (rev t)); auto.
  - apply includes_rev.
  - rewrite E, rev_app_distr. reflexivity.
Qed.

Lemma includes_trim (s : jsstring) : includes (trim s) p = includes s p.
Proof. unfold trim. now rewrite includes_trimEnd, includes_trimStart. Qed.
End Marker.

(** *** Escaped patterns *)

Lemma not_syntax_char (c : N) :
  is_syntax_char c = false -> (c =? 92)%N = false /\ (c =? 46)%N = false.
Proof.
  intros H. split.
  - destruct (N.eqb_spec c 92) as [->|]; [discriminate H | reflexivity].
  - destruct (N.eqb_spec c 46) as [->|]; [discriminate H | reflexivity].
Qed.

(** Escaping turns every string into a pattern for exactly that string. *)
Theorem regexOf_escapeRegExp (t : jsstring) :
  regexOf (escapeRegExp t) = Some (map Lit t).
Proof.
  induction t as [|c t IH]; [reflexivity|].
  unfold escapeRegExp in *. cbn [flat_map map].
  destruct (is_syntax_char c) eqn:E.
  - cbn [app regexOf]. rewrite N.eqb_refl, E, IH. reflexivity.
  - destruct (not_syntax_char c E) as [E1 E2].
    cbn [app regexOf]. rewrite E1, E2, E, IH. reflexivity.
Qed.

Lemma matchesAt_literal (t s : jsstring) :
  matchesAt (map Lit t) s = startsWith s t.
Proof.
  revert s; induction t as [|c t IH]; intros [|d s]; simpl; auto.
  now rewrite IH.
Qed.

(** *** The global replacement *)

Lemma replace_scan_skip (re : list atom) (repl : jsstring) (k : nat)
    (s : jsstring) :
  replace_scan re repl s k = replace_scan re repl (skipn k s) 0.
Proof.
  revert k; induction s as [|a s IH]; intros [|k]; try reflexivity.
  simpl skipn. rewrite <- IH. reflexivity.
Qed.

Lemma replace_scan_match (t rest : jsstring) (c : N) :
  replace_scan (map Lit (c :: t)) [] ((c :: t) ++ rest) 0 =
  replace_scan (map Lit (c :: t)) [] rest 0.
Proof.
  cbn [app replace_scan].
  assert (M : matchesAt (map Lit (c :: t)) (c :: t ++ rest) = true).
  { rewrite matchesAt_literal. apply startsWith_iff. now exists rest. }
  rewrite M. cbn [app]. rewrite replace_scan_skip.
  replace (length (map Lit (c :: t)) - 1) with (length t)
    by (cbn [map length]; rewrite length_map; lia).
  rewrite skipn_app, skipn_all, Nat.sub_diag. reflexivity.
Qed.

Lemma replace_scan_nomatch (re : list atom) (a : N) (s : jsstring) :
  matchesAt re (a :: s) = false ->
  replace_scan re [] (a :: s) 0 = a :: replace_scan re [] s 0.
Proof. intros H. cbn [replace_scan]. now rewrite H. Qed.

Lemma join_cons (sep p q : jsstring) (ps : list jsstring) :
  join sep (p :: q :: ps) = p ++ sep ++ join sep (q :: ps).
Proof. reflexivity. Qed.

Lemma join_head (sep p : jsstring) (ps : list jsstring) :
  exists x, join sep (p :: ps) = p ++ x.
Proof.
  destruct ps as [|q ps].
  - exists []. simpl. now rewrite app_nil_r.
  - eexists. apply join_cons.
Qed.

(** What the global replacement by the empty string does: the string is
    cut at occurrences of the literal, the pieces hold no occurrence, and
    the result is the pieces put together. *)
Theorem replaceAll_literal (t : jsstring) :
  t <> [] ->
  forall s, exists pieces,
    pieces <> [] /\
    s = join t pieces /\
    Forall (fun piece => includes piece t = false) pieces /\
    replaceAll (map Lit t) [] s = concat pieces.
Proof.
  intros Ht. destruct t as [|c t]; [congruence|]. clear Ht.
  cbn [replaceAll map].
  change (Lit c :: map Lit t) with (map Lit (c :: t)).
  intros s. remember (length s) as n eqn:Hn.
  assert (Hle : length s <= n) by lia. clear Hn.
  revert s Hle. induction n as [|n IH]; intros s Hle.
  - destruct s; [|simpl in Hle; lia].
    exists [[]]. repeat split; try discriminate.
    constructor; [reflexivity | constructor].
  - destruct s as [|a s].
    { exists [[]]. repeat split; try discriminate.
      constructor; [reflexivity | constructor]. }
    destruct (startsWith (a :: s) (c :: t)) eqn:M.
    + apply startsWith_iff in M. destruct M as [rest M].
      assert (Hr : length rest <= n).
      { apply (f_equal (@length N)) in M. rewrite length_app in M.
        simpl in M, Hle. lia. }
      destruct (IH rest Hr) as [ps [Hne [Hj [Hf Hc]]]].
      destruct ps as [|q ps]; [congruence|].
      exists ([] :: q :: ps). repeat split; try discriminate.
      * rewrite join_cons, <- Hj. exact M.
      * constructor; [reflexivity | exact Hf].
      * rewrite M, replace_scan_match, Hc. reflexivity.
    + assert (Hs : length s <= n) by (simpl in Hle; lia).
      destruct (IH s Hs) as [ps [Hne [Hj [Hf Hc]]]].
      destruct ps as [|q ps]; [congruence|].
      exists ((a :: q) :: ps). repeat split; try discriminate.
      * destruct ps as [|q' ps]; simpl in Hj |- *; now rewrite Hj.
      * inversion Hf as [|? ? Hq Hps]; subst. constructor; [|exact Hps].
        cbn [includes]. rewrite Hq, orb_false_r.
        destruct (startsWith (a :: q) (c :: t)) eqn:M'; [|reflexivity].
        destruct (join_head (c :: t) q ps) as [x Hx].
        rewrite Hx in M.
        rewrite <- M. symmetry.
        apply (startsWith_app (a :: q) x (c :: t) M').
      * rewrite replace_scan_nomatch, Hc; [reflexivity|].
        now rewrite matchesAt_literal.
Qed.

End JsStringFacts.

(** ** The response parser *)

Module ParserFacts.
Import JsString Parser JsStringFacts.

Lemma discussion_complete_regex :
  regexOf (escapeRegExp DISCUSSION_COMPLETE_TAG)
  = Some DISCUSSION_COMPLETE_REGEX
  /\ DISCUSSION_COMPLETE_REGEX = map Lit DISCUSSION_COMPLETE_TAG.
Proof. split; reflexivity. Qed.

Lemma includes_trim_tag (s : jsstring) :
  includes (trim s) DISCUSSION_COMPLETE_TAG
  = includes s DISCUSSION_COMPLETE_TAG.
Proof.
  apply (includes_trim DISCUSSION_COMPLETE_TAG 60%N 62%N).
  - eexists. reflexivity.
  - exists (removelast DISCUSSION_COMPLETE_TAG). reflexivity.
  - reflexivity.
  - reflexivity.
Qed.

Lemma truthy_false (s : jsstring) : truthy s = false -> s = [].
Proof. destruct s; [reflexivity | discriminate]. Qed.

Lemma truthy_true (s : jsstring) : s <> [] -> truthy s = true.
Proof. destruct s; [congruence | reflexivity]. Qed.

(** The condition of line 66 in the words of the claims: the trimmed text
    ends with the end marker and the last start marker lies before the last
    end marker. *)
Lemma hasNotepadBlock_intro (cur : jsstring) :
  endsWith cur NOTEPAD_UPDATE_TAG_END = true ->
  (0 <= lastIndexOf cur NOTEPAD_UPDATE_TAG_START
   < lastIndexOf cur NOTEPAD_UPDATE_TAG_END)%Z ->
  hasNotepadBlock cur = true.
Proof.
  intros He [H0 Hlt]. unfold hasNotepadBlock. rewrite He.
  rewrite !andb_true_iff, !negb_true_iff, !Z.eqb_neq, Z.ltb_lt.
  repeat split; lia.
Qed.

(** With a notepad block, the end signal and the notepad content come from
    the two sides of the start marker. *)
Lemma parse_with_block (raw : jsstring) :
  hasNotepadBlock (trim raw) = true ->
  newNotepadContent (parseAIResponse raw) = Some (notepadInner (trim raw))
  /\ discussionShouldEnd (parseAIResponse raw)
     = includes (textBeforeBlock (trim raw)) DISCUSSION_COMPLETE_TAG
  /\ extractedSpoken raw = textBeforeBlock (trim raw).
Proof.
  intros H. unfold parseAIResponse, extractedSpoken, extractNotepad.
  rewrite H. cbn [fst]. unfold extractDiscussionTag.
  destruct (includes (textBeforeBlock (trim raw)) DISCUSSION_COMPLETE_TAG);
    repeat split; reflexivity.
Qed.

(** The end signal is the occurrence of the marker in the extracted spoken
    text. *)
Lemma discussionShouldEnd_spec (raw : jsstring) :
  discussionShouldEnd (parseAIResponse raw)
  = includes (extractedSpoken raw) DISCUSSION_COMPLETE_TAG.
Proof.
  unfold parseAIResponse, extractedSpoken.
  destruct (extractNotepad (trim raw)) as [[sp np] na]. cbn [fst].
  unfold extractDiscussionTag.
  destruct (includes sp DISCUSSION_COMPLETE_TAG); reflexivity.
Qed.

(** A spoken text that is not blank and holds no completion marker is
    returned as it is, trimmed. *)
Lemma spokenText_plain (raw : jsstring) :
  includes (extractedSpoken raw) DISCUSSION_COMPLETE_TAG = false ->
  trim (extractedSpoken raw) <> [] ->
  spokenText (parseAIResponse raw) = trim (extractedSpoken raw).
Proof.
  unfold parseAIResponse, extractedSpoken.
  destruct (extractNotepad (trim raw)) as [[sp np] na]. cbn [fst].
  intros Hi Hne. unfold extractDiscussionTag. rewrite Hi.
  cbn [spokenText]. unfold synthesizePlaceholder.
  rewrite (truthy_true _ Hne). reflexivity.
Qed.

Lemma placeholders_not_blank :
  trim (lit "(AI " ++ NOTEPAD_ACTION_TEXT ++ AND_TEXT
        ++ DISCUSSION_ACTION_TEXT ++ lit ")") <> []
  /\ trim (lit "(AI " ++ NOTEPAD_ACTION_TEXT ++ lit ")") <> []
  /\ trim (lit "(AI " ++ DISCUSSION_ACTION_TEXT ++ lit ")") <> []
  /\ trim NO_TEXT_PLACEHOLDER <> [].
Proof. repeat split; vm_compute; discriminate. Qed.

(** The action texts are empty or the constant. *)
Lemma synthesizePlaceholder_blank (sp na da : jsstring)
    (np : option jsstring) (de : bool) :
  na = [] \/ na = NOTEPAD_ACTION_TEXT ->
  da = [] \/ da = DISCUSSION_ACTION_TEXT ->
  trim (synthesizePlaceholder sp na da np de) = [] ->
  na = [] /\ da = [] /\ (np <> None \/ de = true).
Proof.
  destruct placeholders_not_blank as [P1 [P2 [P3 P4]]].
  intros Hna Hda. unfold synthesizePlaceholder.
  destruct (truthy (trim sp)) eqn:Ts; cbn [negb andb].
  - intros H. rewrite H in Ts. discriminate.
  - destruct Hna as [-> | ->], Hda as [-> | ->];
      cbn [truthy orb andb NOTEPAD_ACTION_TEXT DISCUSSION_ACTION_TEXT];
      intros H; try contradiction.
    destruct np as [c|]; [split; [|split]; auto; left; discriminate|].
    destruct de; [split; [|split]; auto|].
    cbn [negb] in H. contradiction.
Qed.

(** Only an empty notepad block with nothing in front of it gives an empty
    spoken text. *)
Lemma spokenText_empty_only_for_empty_block (raw : jsstring) :
  spokenText (parseAIResponse raw) = [] ->
  newNotepadContent (parseAIResponse raw) = Some []
  /\ discussionShouldEnd (parseAIResponse raw) = false.
Proof.
  unfold parseAIResponse.
  assert (Hn : exists sp np na,
             extractNotepad (trim raw) = (sp, np, na)
             /\ (na = [] \/ na = NOTEPAD_ACTION_TEXT)
             /\ (na = [] -> np = None \/ np = Some [])).
  { unfold extractNotepad. destruct (hasNotepadBlock (trim raw)).
    - destruct (truthy (notepadInner (trim raw))) eqn:T;
        do 3 eexists; (split; [reflexivity|]); split; auto.
      + intros H; discriminate H.
      + intros _. right. now rewrite (truthy_false _ T).
    - do 3 eexists; (split; [reflexivity|]); split; auto. }
  destruct Hn as [sp [np [na [-> [Hna Hnp]]]]].
  assert (Hd : exists sp' de da,
             extractDiscussionTag sp = (sp', de, da)
             /\ (da = [] \/ da = DISCUSSION_ACTION_TEXT)
             /\ (da = [] -> de = false)).
  { unfold extractDiscussionTag.
    destruct (includes sp DISCUSSION_COMPLETE_TAG);
      do 3 eexists; (split; [reflexivity|]); split; auto.
    intros H; discriminate H. }
  destruct Hd as [sp' [de [da [-> [Hda Hde]]]]].
  cbn [spokenText newNotepadContent discussionShouldEnd].
  intros H.
  destruct (synthesizePlaceholder_blank sp' na da np de Hna Hda H)
    as [E1 [E2 E3]].
  specialize (Hnp E1). specialize (Hde E2). split; [|exact Hde].
  destruct E3 as [E3|E3]; [|congruence].
  destruct Hnp; congruence.
Qed.

(** *** The notepad block *)

(** C3, as stated, fails: the text in front of a well-formed notepad block
    is [Hello <discussion_complete />], the spoken text returned is
    [Hello]. *)
Lemma parse_block_spoken_counterexample :
  let raw :=
    lit "Hello <discussion_complete /><notepad_update>X</notepad_update>" in
  let cur := trim raw in
  let startIdx := lastIndexOf cur NOTEPAD_UPDATE_TAG_START in
  let endIdx := lastIndexOf cur NOTEPAD_UPDATE_TAG_END in
  endsWith cur NOTEPAD_UPDATE_TAG_END = true
  /\ (0 <= startIdx < endIdx)%Z
  /\ spokenText (parseAIResponse raw) <> trim (substring cur 0 startIdx)
  /\ spokenText (parseAIResponse raw) = lit "Hello".
Proof.
  vm_compute. repeat split; try discriminate; reflexivity.
Qed.

(** C3, amended: when the trimmed text ends with the end marker and its
    last start marker lies before its last end marker, a non-empty trimmed
    text between the markers is the notepad update, and a trimmed text
    before the start marker that is not empty and holds no completion
    marker is the spoken text. *)
Theorem parse_notepad_block (raw : jsstring) :
  let cur := trim raw in
  let startIdx := lastIndexOf cur NOTEPAD_UPDATE_TAG_START in
  let endIdx := lastIndexOf cur NOTEPAD_UPDATE_TAG_END in
  let before := trim (substring cur 0 startIdx) in
  let inner :=
    trim (substring cur (startIdx + jslength NOTEPAD_UPDATE_TAG_START)
            endIdx) in
  endsWith cur NOTEPAD_UPDATE_TAG_END = true ->
  (0 <= startIdx < endIdx)%Z ->
  (inner <> [] -> newNotepadContent (parseAIResponse raw) = Some inner)
  /\ (before <> [] ->
      includes before DISCUSSION_COMPLETE_TAG = false ->
      spokenText (parseAIResponse raw) = before).
Proof.
  intros cur startIdx endIdx before inner He Hi.
  pose proof (hasNotepadBlock_intro cur He Hi) as Hb.
  destruct (parse_with_block raw Hb) as [Hn [_ Hs]].
  assert (Hbef : before = textBeforeBlock cur) by reflexivity.
  assert (Hinn : inner = notepadInner cur) by reflexivity.
  clearbody before inner. subst before inner cur.
  split.
  - intros _. exact Hn.
  - intros Hne Hinc. rewrite <- Hs in Hinc.
    rewrite (spokenText_plain raw Hinc); rewrite Hs.
    + apply trim_idem.
    + unfold textBeforeBlock in *. rewrite trim_idem. exact Hne.
Qed.

(** The example of the specification: [Hello], then a block holding [X]
    between line breaks. *)
Lemma parse_notepad_block_witness :
  let raw := lit "Hello<notepad_update>
X
</notepad_update>" in
  newNotepadContent (parseAIResponse raw) = Some (lit "X")
  /\ spokenText (parseAIResponse raw) = lit "Hello".
Proof.
  intros raw.
  destruct (parse_notepad_block raw) as [H1 H2].
  - reflexivity.
  - vm_compute. split; [discriminate | reflexivity].
  - split.
    + apply H1. vm_compute. discriminate.
    + apply H2; [vm_compute; discriminate | reflexivity].
Defined.

(** C4, the inputs on which the code breaks the claim: a well-formed
    notepad block with nothing but white space inside and nothing but white
    space in front of it yields the empty spoken text, and the empty
    string, not [null], as notepad content. *)
Theorem blank_turn_for_empty_block (raw : jsstring) :
  let cur := trim raw in
  let startIdx := lastIndexOf cur NOTEPAD_UPDATE_TAG_START in
  let endIdx := lastIndexOf cur NOTEPAD_UPDATE_TAG_END in
  endsWith cur NOTEPAD_UPDATE_TAG_END = true ->
  (0 <= startIdx < endIdx)%Z ->
  trim (substring cur 0 startIdx) = [] ->
  trim (substring cur (startIdx + jslength NOTEPAD_UPDATE_TAG_START) endIdx)
  = [] ->
  parseAIResponse raw
  = {| spokenText := []; newNotepadContent := Some [];
       discussionShouldEnd := false |}.
Proof.
  intros cur startIdx endIdx He Hi Hbefore Hinner.
  pose proof (hasNotepadBlock_intro cur He Hi) as Hb.
  unfold parseAIResponse, extractNotepad. fold cur. rewrite Hb.
  unfold notepadInner, textBeforeBlock. fold startIdx. fold endIdx.
  rewrite Hbefore, Hinner. reflexivity.
Qed.

Lemma blank_turn_for_empty_block_witness :
  spokenText (parseAIResponse (lit "<notepad_update>  </notepad_update>"))
  = [].
Proof.
  rewrite (blank_turn_for_empty_block
             (lit "<notepad_update>  </notepad_update>")).
  - reflexivity.
  - reflexivity.
  - vm_compute. split; [discriminate | reflexivity].
  - reflexivity.
  - reflexivity.
Defined.

(** *** The completion marker *)

(** C8, as stated, fails: the removal is one pass from left to right.
    Here the spoken text holds one occurrence of the marker, between the
    two halves of another one; it is removed, the end signal is set, and
    the spoken text returned is the marker. *)
Lemma completion_marker_kept_counterexample :
  let raw := lit "<discussion_<discussion_complete />complete />" in
  includes (extractedSpoken raw) DISCUSSION_COMPLETE_TAG = true
  /\ extractedSpoken raw
     = join DISCUSSION_COMPLETE_TAG [lit "<discussion_"; lit "complete />"]
  /\ discussionShouldEnd (parseAIResponse raw) = true
  /\ spokenText (parseAIResponse raw) = DISCUSSION_COMPLETE_TAG
  /\ includes (spokenText (parseAIResponse raw)) DISCUSSION_COMPLETE_TAG
     = true.
Proof. vm_compute. repeat split; reflexivity. Qed.

(** C8, amended: when the completion marker occurs anywhere in the
    extracted spoken text, the end signal is set and the occurrences found
    in one pass from left to right are removed: the text is the pieces
    between these occurrences, none of which holds the marker, put
    together with the marker in between, and the spoken text returned is
    these pieces put together without it, trimmed (or, if only white space
    is left, a placeholder that names the end of the discussion). The
    spoken text returned holds the marker exactly when the pieces put
    together do. The pattern built from the escaped marker stands for the
    marker itself. When the marker does not occur, the end signal is
    false. *)
Theorem completion_marker_removed (raw : jsstring) :
  includes (extractedSpoken raw) DISCUSSION_COMPLETE_TAG = true ->
  discussionShouldEnd (parseAIResponse raw) = true
  /\ regexOf (escapeRegExp DISCUSSION_COMPLETE_TAG)
     = Some (map Lit DISCUSSION_COMPLETE_TAG)
  /\ (forall other : jsstring,
        includes (extractedSpoken other) DISCUSSION_COMPLETE_TAG = false ->
        discussionShouldEnd (parseAIResponse other) = false)
  /\ exists pieces,
       extractedSpoken raw = join DISCUSSION_COMPLETE_TAG pieces
       /\ Forall (fun piece =>
                    includes piece DISCUSSION_COMPLETE_TAG = false) pieces
       /\ (trim (concat pieces) <> [] ->
           spokenText (parseAIResponse raw) = trim (concat pieces))
       /\ (trim (concat pieces) = [] ->
           spokenText (parseAIResponse raw)
           = lit "(AI " ++ DISCUSSION_ACTION_TEXT ++ lit ")"
           \/ spokenText (parseAIResponse raw)
              = lit "(AI " ++ NOTEPAD_ACTION_TEXT ++ AND_TEXT
                ++ DISCUSSION_ACTION_TEXT ++ lit ")")
       /\ includes (spokenText (parseAIResponse raw))
            DISCUSSION_COMPLETE_TAG
          = includes (concat pieces) DISCUSSION_COMPLETE_TAG.
Proof.
  intros Hinc. split; [|split; [|split]].
  - now rewrite discussionShouldEnd_spec.
  - apply regexOf_escapeRegExp.
  - intros other Ho. now rewrite discussionShouldEnd_spec.
  - assert (Ht : DISCUSSION_COMPLETE_TAG <> []) by discriminate.
    destruct (replaceAll_literal DISCUSSION_COMPLETE_TAG Ht
                (extractedSpoken raw)) as [pieces [_ [Hj [Hf Hr]]]].
    exists pieces. split; [exact Hj|]. split; [exact Hf|].
    revert Hinc Hr. unfold parseAIResponse, extractedSpoken.
    assert (Hn : exists sp np na,
               extractNotepad (trim raw) = (sp, np, na)
               /\ (na = [] \/ na = NOTEPAD_ACTION_TEXT)).
    { unfold extractNotepad. destruct (hasNotepadBlock (trim raw)).
      - destruct (truthy (notepadInner (trim raw)));
          do 3 eexists; (split; [reflexivity|]); auto.
      - do 3 eexists; (split; [reflexivity|]); auto. }
    destruct Hn as [sp [np [na [-> Hna]]]]. cbn [fst].
    intros Hinc Hr. unfold extractDiscussionTag. rewrite Hinc.
    destruct discussion_complete_regex as [_ ->]. rewrite Hr.
    cbn [spokenText]. unfold synthesizePlaceholder.
    rewrite trim_idem. split; [|split].
    + intros Hne. rewrite (truthy_true _ Hne). cbn [negb andb].
      apply trim_idem.
    + intros He. rewrite He.
      cbn [truthy negb andb orb DISCUSSION_ACTION_TEXT].
      rewrite orb_true_r.
      destruct Hna as [-> | ->]; [left | right]; reflexivity.
    + rewrite <- (includes_trim_tag (concat pieces)).
      destruct (trim (concat pieces)) as [|c t] eqn:Et.
      * cbn [truthy negb andb orb DISCUSSION_ACTION_TEXT].
        rewrite orb_true_r.
        destruct Hna as [-> | ->]; reflexivity.
      * cbn [truthy negb andb]. rewrite <- Et, trim_idem. reflexivity.
Qed.

Lemma completion_marker_removed_witness :
  let raw := lit "Agreed. <discussion_complete /> Nothing to add." in
  discussionShouldEnd (parseAIResponse raw) = true
  /\ spokenText (parseAIResponse raw) = lit "Agreed.  Nothing to add.".
Proof.
  intros raw.
  destruct (completion_marker_removed raw) as [H1 _]; [reflexivity|].
  split; [exact H1 | reflexivity].
Defined.

(** C10: with a well-formed notepad block at the end, the end signal says
    whether the completion marker occurs in front of the block, and the
    notepad update is the trimmed text between the markers; a marker that
    occurs inside the block only leaves the end signal false and is still
    in the notepad update. *)
Theorem end_signal_ignores_notepad_block (raw : jsstring) :
  let cur := trim raw in
  let startIdx := lastIndexOf cur NOTEPAD_UPDATE_TAG_START in
  let endIdx := lastIndexOf cur NOTEPAD_UPDATE_TAG_END in
  let before := substring cur 0 startIdx in
  let inner :=
    substring cur (startIdx + jslength NOTEPAD_UPDATE_TAG_START) endIdx in
  endsWith cur NOTEPAD_UPDATE_TAG_END = true ->
  (0 <= startIdx < endIdx)%Z ->
  discussionShouldEnd (parseAIResponse raw)
  = includes before DISCUSSION_COMPLETE_TAG
  /\ newNotepadContent (parseAIResponse raw) = Some (trim inner)
  /\ (includes before DISCUSSION_COMPLETE_TAG = false ->
      includes inner DISCUSSION_COMPLETE_TAG = true ->
      discussionShouldEnd (parseAIResponse raw) = false
      /\ exists update,
           newNotepadContent (parseAIResponse raw) = Some update
           /\ includes update DISCUSSION_COMPLETE_TAG = true).
Proof.
  intros cur startIdx endIdx before inner He Hi.
  pose proof (hasNotepadBlock_intro cur He Hi) as Hb.
  destruct (parse_with_block raw Hb) as [Hn [Hd _]].
  unfold textBeforeBlock in Hd. rewrite includes_trim_tag in Hd.
  split; [exact Hd|]. split; [exact Hn|].
  intros Hbefore Hinner. split; [now rewrite Hd|].
  exists (trim inner). split; [exact Hn|].
  now rewrite includes_trim_tag.
Qed.

Lemma end_signal_ignores_notepad_block_witness :
  let raw :=
    lit "Hi<notepad_update> a <discussion_complete /> b </notepad_update>" in
  discussionShouldEnd (parseAIResponse raw) = false
  /\ newNotepadContent (parseAIResponse raw)
     = Some (lit "a <discussion_complete /> b").
Proof.
  intros raw.
  destruct (end_signal_ignores_notepad_block raw) as [H1 [H2 _]].
  - reflexivity.
  - vm_compute. split; [discriminate | reflexivity].
  - split; [rewrite H1 | rewrite H2]; reflexivity.
Defined.

End ParserFacts.

(** ** The orchestrator *)

Module OrchestratorFacts.
Import JsString Parser Orchestrator JsStringFacts.

(** *** A finished handler stays finished *)

Lemma step_finished (env : Env) (m : Machine) (o : Outcome) (e : Event) :
  control m = Finished o -> step env m e = m.
Proof. intros H. unfold step. rewrite H. destruct e; reflexivity. Qed.

Lemma run_finished (env : Env) (es : list Event) (m : Machine) (o : Outcome) :
  control m = Finished o -> run env m es = m.
Proof.
  intros H. induction es as [|e es IH]; [reflexivity|].
  unfold run in *. simpl. now rewrite (step_finished env m o e H).
Qed.

Lemma run_app (env : Env) (m : Machine) (es es' : list Event) :
  run env m (es ++ es') = run env (run env m es) es'.
Proof. apply fold_left_app. Qed.

Lemma run_cons (env : Env) (m : Machine) (e : Event) (es : list Event) :
  run env m (e :: es) = run env (step env m e) es.
Proof. reflexivity. Qed.

(** *** What the ways out of a handler leave untouched *)

Ltac break_ifs :=
  repeat match goal with
         | |- context [if ?b then _ else _] => destruct b
         end.

Lemma control_finish (env : Env) (f : Flow) (o : Outcome) (st : AppState) :
  control (finish env f o st) = Finished o.
Proof. reflexivity. Qed.

Lemma control_stopped (env : Env) (f : Flow) (st : AppState) :
  control (stopped env f st) = Finished Cancelled.
Proof. destruct f; reflexivity. Qed.

Lemma finish_live (env : Env) (f : Flow) (o : Outcome) (st : AppState) :
  cancelRequest st = false ->
  messages (app (finish env f o st)) = messages st
  /\ failedStepInfo (app (finish env f o st)) = failedStepInfo st
  /\ isApiKeyMissing (app (finish env f o st)) = isApiKeyMissing st
  /\ discussionLog (app (finish env f o st)) = discussionLog st
  /\ (isContinued f = false -> isLoading (app (finish env f o st)) = false).
Proof.
  intros H. unfold finish, flowFinally, manualRetryFinally.
  cbn [cancelRequest setIsLoading]. rewrite H. cbn [andb orb].
  destruct f; cbn [isContinued app]; cbn [cancelRequest setIsLoading];
    rewrite ?H; cbn [andb orb]; break_ifs; repeat split; auto;
    discriminate.
Qed.

Lemma isLoading_finish (env : Env) (f : Flow) (o : Outcome) (st : AppState) :
  isLoading (app (finish env f o st)) = false.
Proof.
  unfold finish, flowFinally, manualRetryFinally.
  destruct f; cbn [isContinued app]; break_ifs; reflexivity.
Qed.

Lemma includes_marker_truthy (e p : jsstring) :
  p <> [] -> includes e p = true -> truthy e = true.
Proof.
  intros Hp H. destruct e; [|reflexivity].
  now rewrite (includes_nil_l p Hp) in H.
Qed.

(** *** Authentication failures *)

(** C6: in any attempt of any step of a query or of a continuation, a call
    that is not cancelled and fails with the API-key marker in its error
    ends the handler at once: the credentials flag is set, no retry is
    announced or made, the stored checkpoint is the one from before, and
    no later event changes anything. *)
Theorem auth_failure_aborts (env : Env) (f : Flow) (s : StepIdentifier)
    (attempt : nat) (l : Locals) (st : AppState) (msg err : jsstring) :
  cancelRequest st = false ->
  includes err API_KEY_NOT_VALID = true ->
  let m :=
    step env {| app := st; control := AwaitCall f s attempt l |}
      (failed msg err) in
  control m = Finished AuthAborted
  /\ isApiKeyMissing (app m) = true
  /\ failedStepInfo (app m) = failedStepInfo st
  /\ isLoading (app m) = false
  /\ countMessages (isNotice isCallFailedRetrying) (app m)
     = countMessages (isNotice isCallFailedRetrying) st
  /\ countMessages (isNotice offersRetry) (app m)
     = countMessages (isNotice offersRetry) st
  /\ forall es, run env m es = m.
Proof.
  intros Hc He m.
  assert (Ht : truthy err = true).
  { apply (includes_marker_truthy err API_KEY_NOT_VALID); [discriminate|].
    exact He. }
  assert (Hm : m = authAbort env f msg st).
  { subst m. unfold step, failed. cbn [control app].
    unfold onCallReturned, hasError. cbn [r_error r_text].
    rewrite Hc, Ht, He. reflexivity. }
  rewrite Hm. unfold authAbort.
  match goal with
  | |- context [finish env f AuthAborted ?x] => set (st' := x)
  end.
  assert (Hc' : cancelRequest st' = false).
  { subst st'. destruct (env_messagesInclude env msg); exact Hc. }
  destruct (finish_live env f AuthAborted st' Hc') as [Hmsg [Hf [Hk _]]].
  split; [reflexivity|]. split; [rewrite Hk; reflexivity|].
  split; [rewrite Hf; subst st'; destruct (env_messagesInclude env msg);
          reflexivity|].
  split; [apply isLoading_finish|].
  unfold countMessages. rewrite Hmsg.
  split; [|split].
  - subst st'. destruct (env_messagesInclude env msg);
      cbn [messages notify addMessage snd setIsApiKeyMissing];
      rewrite ?filter_app; cbn; rewrite ?app_nil_r; reflexivity.
  - subst st'. destruct (env_messagesInclude env msg);
      cbn [messages notify addMessage snd setIsApiKeyMissing];
      rewrite ?filter_app; cbn; rewrite ?app_nil_r; reflexivity.
  - intros es. apply (run_finished env es _ AuthAborted). reflexivity.
Qed.

Lemma auth_failure_aborts_witness :
  let l := {| userInput := lit "q"; l_imageApiPart := None;
              currentDiscussionLog := [(Cognito, lit "A")];
              lastTurnTextForLog := lit "A";
              previousAISignaledStop := false |} in
  let m :=
    step (plainEnv AiDriven 2)
      {| app := initialState [];
         control := AwaitCall (Fresh false) (MuseReplyToCognitoTurn 0) 1 l |}
      (failed (lit "denied") (lit "API key not valid. Pass a valid key.")) in
  control m = Finished AuthAborted /\ isApiKeyMissing (app m) = true
  /\ failedStepInfo (app m) = None.
Proof.
  intros l m.
  destruct (auth_failure_aborts (plainEnv AiDriven 2) (Fresh false)
              (MuseReplyToCognitoTurn 0) 1 l (initialState [])
              (lit "denied") (lit "API key not valid. Pass a valid key.")
              eq_refl eq_refl) as [H1 [H2 [H3 _]]].
  split; [exact H1|]. split; [exact H2 | exact H3].
Defined.

(** *** The retry loop *)

Lemma plainFailure_iff (msg err : jsstring) :
  plainFailure (msg, err) = true ->
  truthy err = true /\ includes err API_KEY_NOT_VALID = false.
Proof.
  unfold plainFailure. cbn [snd].
  rewrite andb_true_iff, negb_true_iff. auto.
Qed.

Lemma step_failed_retry (env : Env) (f : Flow) (s : StepIdentifier)
    (attempt : nat) (l : Locals) (st : AppState) (msg err : jsstring) :
  cancelRequest st = false ->
  plainFailure (msg, err) = true ->
  attempt < MAX_AUTO_RETRIES ->
  step env {| app := st; control := AwaitCall f s attempt l |}
    (failed msg err)
  = {| app := notify (CallFailedRetrying (isContinued f) s (S attempt) msg) st;
       control := AwaitDelay f s attempt l |}.
Proof.
  intros Hc Hp Ha. destruct (plainFailure_iff msg err Hp) as [Ht Hi].
  unfold step, failed. cbn [control app].
  unfold onCallReturned, hasError. cbn [r_error r_text].
  rewrite Hc, Ht, Hi.
  apply Nat.ltb_lt in Ha. rewrite Ha. reflexivity.
Qed.

Lemma step_failed_last (env : Env) (f : Flow) (s : StepIdentifier)
    (l : Locals) (st : AppState) (msg err : jsstring) :
  cancelRequest st = false ->
  plainFailure (msg, err) = true ->
  step env {| app := st; control := AwaitCall f s MAX_AUTO_RETRIES l |}
    (failed msg err)
  = failStep env f s l msg st.
Proof.
  intros Hc Hp. destruct (plainFailure_iff msg err Hp) as [Ht Hi].
  unfold step, failed. cbn [control app].
  unfold onCallReturned, hasError. cbn [r_error r_text].
  rewrite Hc, Ht, Hi, Nat.ltb_irrefl. reflexivity.
Qed.

Lemma step_delay (env : Env) (f : Flow) (s : StepIdentifier)
    (attempt : nat) (l : Locals) (st : AppState) :
  cancelRequest st = false ->
  step env {| app := st; control := AwaitDelay f s attempt l |}
    (DelayElapsed false)
  = {| app := st; control := AwaitCall f s (S attempt) l |}.
Proof.
  intros Hc. unfold step. cbn [control app].
  unfold onDelayElapsed, beginAttempt. now rewrite Hc.
Qed.

(** The state a step fails in: the notification with the retry offer is the
    last message, the checkpoint points at it. *)
Lemma failStep_spec (env : Env) (f : Flow) (s : StepIdentifier) (l : Locals)
    (msg : jsstring) (st : AppState) :
  cancelRequest st = false ->
  control (failStep env f s l msg st) = Finished Failed
  /\ messages (app (failStep env f s l msg st))
     = messages st ++
       [{| msg_id := nextId st;
           msg_text := StepFailedCanRetry (isContinued f) s msg;
           msg_sender := System; msg_purpose := SystemNotification |}]
  /\ failedStepInfo (app (failStep env f s l msg st))
     = Some (failedStepPayload env s l (nextId st)).
Proof.
  intros Hc. unfold failStep. cbn [addMessage].
  match goal with
  | |- context [finish env f Failed ?x] => set (st' := x)
  end.
  assert (Hc' : cancelRequest st' = false).
  { subst st'. destruct (isContinued f); exact Hc. }
  destruct (finish_live env f Failed st' Hc') as [Hm [Hf _]].
  split; [reflexivity|]. rewrite Hm, Hf.
  subst st'. destruct (isContinued f); split; reflexivity.
Qed.

Lemma countMessages_app (t : ChatMessage -> bool) (st st' : AppState)
    (ms : list ChatMessage) :
  messages st' = messages st ++ ms ->
  countMessages t st' = countMessages t st + length (filter t ms).
Proof.
  intros H. unfold countMessages. now rewrite H, filter_app, length_app.
Qed.

(** C5, as stated, fails for the steps outside the discussion loop: in a
    query with one fixed turn whose final answer fails three times, the
    checkpoint holds neither a turn index nor a prior signal. *)
Lemma final_step_checkpoint_counterexample :
  let env := plainEnv FixedTurns 1 in
  let boom := (lit "boom", lit "503 overloaded") in
  let m :=
    run env (handleSendMessage env (lit "q") None (initialState []))
      ([ok (lit "A"); ok (lit "B")]
       ++ consecutiveFailures [boom; boom; boom]) in
  control m = Finished Failed
  /\ exists cp,
       failedStepInfo (app m) = Some cp
       /\ stepIdentifier cp = CognitoFinalAnswer
       /\ currentTurnIndexForResume cp = None
       /\ previousAISignaledStopForResume cp = None.
Proof.
  vm_compute. split; [reflexivity|]. eexists. repeat split.
Qed.

(** C5, amended: when the calls of a step fail [MAX_AUTO_RETRIES + 1] times
    in a row, none with the API-key marker and none cancelled, the handler
    ends as failed and no later event changes anything; exactly one
    notification that offers the manual retry is added; the checkpoint
    points at it and holds the step, its prompt, persona and purpose, the
    user's input and the image; for every step but the opening one the
    discussion log before the step; for a turn of the discussion loop its
    turn index and the prior signal. The opening turn stores the empty log,
    the prior signal [false] and no turn index, the final answer neither a
    turn index nor a prior signal. *)
Theorem retries_exhausted (env : Env) (f : Flow) (s : StepIdentifier)
    (l : Locals) (st : AppState) (fs : list (jsstring * jsstring)) :
  cancelRequest st = false ->
  length fs = S MAX_AUTO_RETRIES ->
  forallb plainFailure fs = true ->
  let m :=
    run env {| app := st; control := AwaitCall f s 0 l |}
      (consecutiveFailures fs) in
  control m = Finished Failed
  /\ (forall es, run env m es = m)
  /\ countMessages (isNotice offersRetry) (app m)
     = S (countMessages (isNotice offersRetry) st)
  /\ countMessages (isNotice isCallFailedRetrying) (app m)
     = MAX_AUTO_RETRIES + countMessages (isNotice isCallFailedRetrying) st
  /\ exists cp,
       failedStepInfo (app m) = Some cp
       /\ (exists earlier note,
             messages (app m) = earlier ++ [note]
             /\ msg_id note = originalSystemErrorMsgId cp
             /\ offersRetry (msg_text note) = true)
       /\ stepIdentifier cp = s
       /\ prompt cp = promptFor env s l
       /\ fs_sender cp = stepSender s
       /\ fs_purpose cp = stepPurpose s
       /\ userInputForFlow cp = userInput l
       /\ imageApiPart cp = l_imageApiPart l
       /\ imageApiPartForFlow cp = l_imageApiPart l
       /\ (s <> CognitoInitialToMuse ->
           discussionLogBeforeFailure cp = currentDiscussionLog l)
       /\ (forall turn,
             s = MuseReplyToCognitoTurn turn
             \/ s = CognitoReplyToMuseTurn turn ->
             currentTurnIndexForResume cp = Some turn
             /\ previousAISignaledStopForResume cp
                = Some (previousAISignaledStop l))
       /\ (s = CognitoInitialToMuse ->
           discussionLogBeforeFailure cp = []
           /\ currentTurnIndexForResume cp = None
           /\ previousAISignaledStopForResume cp = Some false)
       /\ (s = CognitoFinalAnswer ->
           currentTurnIndexForResume cp = None
           /\ previousAISignaledStopForResume cp = None).
Proof.
  intros Hc Hlen Hall m.
  destruct fs as [|[m1 e1] [|[m2 e2] [|[m3 e3] [|? ?]]]]; try discriminate.
  cbn [forallb] in Hall. rewrite !andb_true_iff in Hall.
  destruct Hall as [P1 [P2 [P3 _]]].
  set (st1 := notify (CallFailedRetrying (isContinued f) s 1 m1) st).
  set (st2 := notify (CallFailedRetrying (isContinued f) s 2 m2) st1).
  assert (Hm : m = failStep env f s l m3 st2).
  { subst m. cbn [consecutiveFailures].
    rewrite run_cons, (step_failed_retry env f s 0 l st m1 e1 Hc P1)
      by (unfold MAX_AUTO_RETRIES; lia).
    fold st1. rewrite run_cons, step_delay by exact Hc.
    rewrite run_cons, (step_failed_retry env f s 1 l st1 m2 e2 Hc P2)
      by (unfold MAX_AUTO_RETRIES; lia).
    fold st2. rewrite run_cons, step_delay by exact Hc.
    rewrite run_cons.
    change 2 with MAX_AUTO_RETRIES.
    rewrite (step_failed_last env f s l st2 m3 e3 Hc P3). reflexivity. }
  destruct (failStep_spec env f s l m3 st2 Hc) as [Hctl [Hmsg Hfs]].
  rewrite <- Hm in Hctl, Hmsg, Hfs.
  assert (Hmsgs : messages (app m) = messages st ++
            [{| msg_id := nextId st;
                msg_text := CallFailedRetrying (isContinued f) s 1 m1;
                msg_sender := System; msg_purpose := SystemNotification |};
             {| msg_id := S (nextId st);
                msg_text := CallFailedRetrying (isContinued f) s 2 m2;
                msg_sender := System; msg_purpose := SystemNotification |};
             {| msg_id := S (S (nextId st));
                msg_text := StepFailedCanRetry (isContinued f) s m3;
                msg_sender := System; msg_purpose := SystemNotification |}]).
  { rewrite Hmsg. subst st2 st1. cbn [messages notify addMessage snd nextId].
    rewrite <- !app_assoc. reflexivity. }
  split; [exact Hctl|].
  split; [intros es; apply (run_finished env es m Failed Hctl)|].
  split; [rewrite (countMessages_app _ st (app m) _ Hmsgs); cbn; lia|].
  split; [rewrite (countMessages_app _ st (app m) _ Hmsgs); cbn; lia|].
  eexists. split; [exact Hfs|].
  split.
  { do 2 eexists. rewrite Hmsg. split; [reflexivity|].
    split; reflexivity. }
  cbn [failedStepPayload stepIdentifier prompt fs_sender fs_purpose
       userInputForFlow imageApiPart imageApiPartForFlow
       discussionLogBeforeFailure currentTurnIndexForResume
       previousAISignaledStopForResume].
  repeat split; try reflexivity.
  - intros Hs. destruct s; congruence.
  - destruct H as [-> | ->]; reflexivity.
  - destruct H as [-> | ->]; reflexivity.
  - subst s. reflexivity.
  - subst s. reflexivity.
  - subst s. reflexivity.
  - subst s. reflexivity.
  - subst s. reflexivity.
Qed.

Lemma retries_exhausted_witness :
  let l := {| userInput := lit "q"; l_imageApiPart := None;
              currentDiscussionLog := [(Cognito, lit "A")];
              lastTurnTextForLog := lit "A";
              previousAISignaledStop := true |} in
  let boom := (lit "boom", lit "503 overloaded") in
  let m :=
    run (plainEnv AiDriven 2)
      {| app := initialState [];
         control := AwaitCall (Fresh true) (MuseReplyToCognitoTurn 0) 0 l |}
      (consecutiveFailures [boom; boom; boom]) in
  control m = Finished Failed
  /\ countMessages (isNotice offersRetry) (app m) = 1
  /\ exists cp,
       failedStepInfo (app m) = Some cp
       /\ currentTurnIndexForResume cp = Some 0
       /\ previousAISignaledStopForResume cp = Some true.
Proof.
  intros l boom m.
  destruct (retries_exhausted (plainEnv AiDriven 2) (Fresh true)
              (MuseReplyToCognitoTurn 0) l (initialState [])
              [boom; boom; boom] eq_refl eq_refl eq_refl)
    as [H1 [_ [H3 [_ [cp [H5 [_ [_ [_ [_ [_ [_ [_ [_ [_ [H6 _]]]]]]]]]]]]]]]].
  split; [exact H1|]. split; [exact H3|].
  exists cp. split; [exact H5|]. apply (H6 0). left. reflexivity.
Defined.

(** *** Successful calls *)

Lemma step_ok (env : Env) (f : Flow) (s : StepIdentifier) (attempt : nat)
    (l : Locals) (st : AppState) (text : jsstring) :
  cancelRequest st = false ->
  step env {| app := st; control := AwaitCall f s attempt l |} (ok text)
  = onSuccess env f s l text st.
Proof.
  intros Hc. unfold step, ok. cbn [control app].
  unfold onCallReturned, hasError. cbn [r_error r_text].
  now rewrite Hc.
Qed.

Lemma applyNotepad_frame (r : ParsedAIResponse) (who : MessageSender)
    (st : AppState) :
  cancelRequest (applyNotepad r who st) = cancelRequest st
  /\ messages (applyNotepad r who st) = messages st
  /\ nextId (applyNotepad r who st) = nextId st
  /\ failedStepInfo (applyNotepad r who st) = failedStepInfo st
  /\ discussionLog (applyNotepad r who st) = discussionLog st.
Proof.
  unfold applyNotepad. destruct (newNotepadContent r); repeat split.
Qed.

Lemma beginAttempt_live (env : Env) (f : Flow) (s : StepIdentifier)
    (attempt : nat) (l : Locals) (st : AppState) :
  cancelRequest st = false ->
  beginAttempt env f s attempt l st
  = {| app := st; control := AwaitCall f s attempt l |}.
Proof. intros Hc. unfold beginAttempt. now rewrite Hc. Qed.

Lemma enterFinal_live (env : Env) (f : Flow) (l : Locals) (st : AppState) :
  cancelRequest st = false ->
  enterFinal env f l st
  = {| app := notify Synthesizing st;
       control := AwaitCall f CognitoFinalAnswer 0 l |}.
Proof.
  intros Hc. unfold enterFinal. rewrite Hc.
  apply beginAttempt_live. exact Hc.
Qed.

(** The state after a successful turn has been recorded. *)
Lemma recorded_frame (lg : list LogEntry) (r : ParsedAIResponse)
    (who : MessageSender) (p : MessagePurpose) (st : AppState) :
  let st' :=
    setDiscussionLog lg
      (applyNotepad r who
         (snd (addMessage (Spoken (spokenText r)) who p st))) in
  cancelRequest st' = cancelRequest st
  /\ messages st' = messages st ++
       [{| msg_id := nextId st; msg_text := Spoken (spokenText r);
           msg_sender := who; msg_purpose := p |}]
  /\ nextId st' = S (nextId st)
  /\ failedStepInfo st' = failedStepInfo st
  /\ discussionLog st' = lg.
Proof.
  intros st'. subst st'.
  destruct (applyNotepad_frame r who
              (snd (addMessage (Spoken (spokenText r)) who p st)))
    as [N1 [N2 [N3 [N4 N5]]]].
  cbn [setDiscussionLog cancelRequest messages nextId failedStepInfo
       discussionLog].
  rewrite N1, N2, N3, N4. repeat split.
Qed.

Lemma notify_frame (t : MessageText) (st : AppState) :
  cancelRequest (notify t st) = cancelRequest st
  /\ messages (notify t st) = messages st ++
       [{| msg_id := nextId st; msg_text := t; msg_sender := System;
           msg_purpose := SystemNotification |}]
  /\ nextId (notify t st) = S (nextId st)
  /\ failedStepInfo (notify t st) = failedStepInfo st
  /\ discussionLog (notify t st) = discussionLog st.
Proof. repeat split. Qed.

(** *** Fixed turns *)

Section FixedTurns.
Variable env : Env.
Hypothesis mode : discussionMode env = FixedTurns.
Variable cognitoSignal : bool.

Lemma fixed_flags : isAiDriven env = false /\ isFixedTurns env = true.
Proof. unfold isAiDriven, isFixedTurns. now rewrite mode. Qed.

Lemma beforeCognitoReply_fixed (turn : nat) (l : Locals) (st : AppState) :
  cancelRequest st = false ->
  beforeCognitoReply env (Fresh cognitoSignal) turn l st
  = if manualFixedTurns env - 1 <=? turn
    then {| app := notify Synthesizing st;
            control := AwaitCall (Fresh cognitoSignal) CognitoFinalAnswer 0 l |}
    else {| app := notify CognitoResponding st;
            control :=
              AwaitCall (Fresh cognitoSignal)
                (CognitoReplyToMuseTurn turn) 0 l |}.
Proof.
  intros Hc. destruct fixed_flags as [Ha Hf].
  unfold beforeCognitoReply. rewrite Hc, Hf. cbn [andb].
  destruct (manualFixedTurns env - 1 <=? turn).
  - now apply enterFinal_live.
  - now apply beginAttempt_live.
Qed.

Lemma loopHead_fixed (turn : nat) (l : Locals) (st : AppState) :
  cancelRequest st = false ->
  loopHead env (Fresh cognitoSignal) turn false l st
  = if manualFixedTurns env <=? turn
    then {| app := notify Synthesizing st;
            control := AwaitCall (Fresh cognitoSignal) CognitoFinalAnswer 0 l |}
    else {| app := notify MuseResponding st;
            control :=
              AwaitCall (Fresh cognitoSignal)
                (MuseReplyToCognitoTurn turn) 0 l |}.
Proof.
  intros Hc. destruct fixed_flags as [Ha Hf].
  unfold loopHead. rewrite Hc, Hf, Ha. cbn [andb].
  destruct (manualFixedTurns env <=? turn).
  - now apply enterFinal_live.
  - now apply beginAttempt_live.
Qed.

Lemma muse_ok_fixed (turn : nat) (l : Locals) (st : AppState)
    (text : jsstring) :
  cancelRequest st = false ->
  let r := parseAIResponse text in
  let l' := recordTurn Muse r (discussionShouldEnd r) l in
  step env {| app := st;
              control :=
                AwaitCall (Fresh cognitoSignal)
                  (MuseReplyToCognitoTurn turn) 0 l |}
    (ok text)
  = beforeCognitoReply env (Fresh cognitoSignal) turn l'
      (setDiscussionLog (currentDiscussionLog l')
         (applyNotepad r Muse
            (snd (addMessage (Spoken (spokenText r)) Muse MuseToCognito
                    st)))).
Proof.
  intros Hc r l'. destruct fixed_flags as [Ha Hf].
  rewrite (step_ok env (Fresh cognitoSignal) _ 0 l st text Hc).
  cbn [onSuccess stepSender stepPurpose]. unfold onMuseSuccess.
  rewrite Ha. reflexivity.
Qed.

Lemma cognito_ok_fixed (turn : nat) (l : Locals) (st : AppState)
    (text : jsstring) :
  cancelRequest st = false ->
  let r := parseAIResponse text in
  let l' := recordTurn Cognito r (discussionShouldEnd r) l in
  step env {| app := st;
              control :=
                AwaitCall (Fresh cognitoSignal)
                  (CognitoReplyToMuseTurn turn) 0 l |}
    (ok text)
  = loopHead env (Fresh cognitoSignal) (S turn) false l'
      (setDiscussionLog (currentDiscussionLog l')
         (applyNotepad r Cognito
            (snd (addMessage (Spoken (spokenText r)) Cognito CognitoToMuse
                    st)))).
Proof.
  intros Hc r l'. destruct fixed_flags as [Ha Hf].
  rewrite (step_ok env (Fresh cognitoSignal) _ 0 l st text Hc).
  cbn [onSuccess stepSender stepPurpose]. unfold onCognitoReplySuccess.
  rewrite Ha. reflexivity.
Qed.

(** The first half of the last pair: the reply is skipped. *)
Lemma fixed_last_muse (turn : nat) (l : Locals) (st : AppState)
    (text : jsstring) :
  cancelRequest st = false ->
  manualFixedTurns env = S turn ->
  let r := parseAIResponse text in
  exists st',
    step env {| app := st;
                control :=
                  AwaitCall (Fresh cognitoSignal)
                    (MuseReplyToCognitoTurn turn) 0 l |}
      (ok text)
    = {| app := st';
         control :=
           AwaitCall (Fresh cognitoSignal) CognitoFinalAnswer 0
             (recordTurn Muse r (discussionShouldEnd r) l) |}
    /\ cancelRequest st' = false
    /\ failedStepInfo st' = failedStepInfo st
    /\ discussionLog st' = currentDiscussionLog l ++ [(Muse, spokenText r)]
    /\ messages st' = messages st ++
         [{| msg_id := nextId st; msg_text := Spoken (spokenText r);
             msg_sender := Muse; msg_purpose := MuseToCognito |};
          {| msg_id := S (nextId st); msg_text := Synthesizing;
             msg_sender := System; msg_purpose := SystemNotification |}].
Proof.
  intros Hc Hn r.
  rewrite (muse_ok_fixed turn l st text Hc). fold r.
  set (l' := recordTurn Muse r (discussionShouldEnd r) l).
  destruct (recorded_frame (currentDiscussionLog l') r Muse MuseToCognito st)
    as [R1 [R2 [R3 [R4 R5]]]].
  remember (setDiscussionLog (currentDiscussionLog l')
              (applyNotepad r Muse
                 (snd (addMessage (Spoken (spokenText r)) Muse
                         MuseToCognito st)))) as st1 eqn:E1.
  rewrite Hc in R1.
  rewrite (beforeCognitoReply_fixed turn l' st1 R1), Hn.
  replace (S turn - 1 <=? turn) with true
    by (symmetry; apply Nat.leb_le; lia).
  eexists. split; [reflexivity|].
  destruct (notify_frame Synthesizing st1) as [F1 [F2 [F3 [F4 F5]]]].
  rewrite F1, F2, F4, F5, R2, R3, R4, R5, <- app_assoc.
  repeat split; auto.
Qed.

(** A full pair before the last one. *)
Lemma fixed_pair (turn : nat) (l : Locals) (st : AppState)
    (t1 t2 : jsstring) :
  cancelRequest st = false ->
  S turn < manualFixedTurns env ->
  let r1 := parseAIResponse t1 in
  let r2 := parseAIResponse t2 in
  exists st',
    run env {| app := st;
               control :=
                 AwaitCall (Fresh cognitoSignal)
                   (MuseReplyToCognitoTurn turn) 0 l |}
      [ok t1; ok t2]
    = {| app := st';
         control :=
           AwaitCall (Fresh cognitoSignal) (MuseReplyToCognitoTurn (S turn)) 0
             (recordTurn Cognito r2 (discussionShouldEnd r2)
                (recordTurn Muse r1 (discussionShouldEnd r1) l)) |}
    /\ cancelRequest st' = false
    /\ failedStepInfo st' = failedStepInfo st
    /\ messages st' = messages st ++
         [{| msg_id := nextId st; msg_text := Spoken (spokenText r1);
             msg_sender := Muse; msg_purpose := MuseToCognito |};
          {| msg_id := S (nextId st); msg_text := CognitoResponding;
             msg_sender := System; msg_purpose := SystemNotification |};
          {| msg_id := S (S (nextId st)); msg_text := Spoken (spokenText r2);
             msg_sender := Cognito; msg_purpose := CognitoToMuse |};
          {| msg_id := S (S (S (nextId st))); msg_text := MuseResponding;
             msg_sender := System; msg_purpose := SystemNotification |}].
Proof.
  intros Hc Hn r1 r2.
  rewrite run_cons, (muse_ok_fixed turn l st t1 Hc). fold r1.
  set (l1 := recordTurn Muse r1 (discussionShouldEnd r1) l).
  destruct (recorded_frame (currentDiscussionLog l1) r1 Muse MuseToCognito
              st) as [R1 [R2 [R3 [R4 R5]]]].
  remember (setDiscussionLog (currentDiscussionLog l1)
              (applyNotepad r1 Muse
                 (snd (addMessage (Spoken (spokenText r1)) Muse
                         MuseToCognito st)))) as st1 eqn:E1.
  rewrite Hc in R1.
  rewrite (beforeCognitoReply_fixed turn l1 st1 R1).
  replace (manualFixedTurns env - 1 <=? turn) with false
    by (symmetry; apply Nat.leb_gt; lia).
  destruct (notify_frame CognitoResponding st1) as [F1 [F2 [F3 [F4 F5]]]].
  remember (notify CognitoResponding st1) as st2 eqn:E2.
  rewrite R1 in F1.
  rewrite run_cons, (cognito_ok_fixed turn l1 st2 t2 F1). fold r2.
  set (l2 := recordTurn Cognito r2 (discussionShouldEnd r2) l1).
  destruct (recorded_frame (currentDiscussionLog l2) r2 Cognito
              CognitoToMuse st2) as [S1 [S2 [S3 [S4 S5]]]].
  remember (setDiscussionLog (currentDiscussionLog l2)
              (applyNotepad r2 Cognito
                 (snd (addMessage (Spoken (spokenText r2)) Cognito
                         CognitoToMuse st2)))) as st3 eqn:E3.
  rewrite F1 in S1.
  rewrite (loopHead_fixed (S turn) l2 st3 S1).
  replace (manualFixedTurns env <=? S turn) with false
    by (symmetry; apply Nat.leb_gt; lia).
  eexists. split; [reflexivity|].
  destruct (notify_frame MuseResponding st3) as [G1 [G2 [G3 [G4 G5]]]].
  rewrite G1, G2, G4, S2, S3, S4, F2, F3, F4, R2, R3, R4.
  rewrite <- !app_assoc. repeat split; auto.
Qed.

End FixedTurns.

Lemma fixed_loop (env : Env) (c : bool) :
  discussionMode env = FixedTurns ->
  forall (k turn : nat) (l : Locals) (st : AppState) (texts : list jsstring),
    cancelRequest st = false ->
    manualFixedTurns env = turn + S k ->
    length texts = 2 * k + 1 ->
    exists st' l' ms,
      run env
        {| app := st;
           control := AwaitCall (Fresh c) (MuseReplyToCognitoTurn turn) 0 l |}
        (map ok texts)
      = {| app := st';
           control := AwaitCall (Fresh c) CognitoFinalAnswer 0 l' |}
      /\ cancelRequest st' = false
      /\ failedStepInfo st' = failedStepInfo st
      /\ map fst (currentDiscussionLog l')
         = map fst (currentDiscussionLog l)
           ++ concat (repeat [Muse; Cognito] k) ++ [Muse]
      /\ discussionLog st' = currentDiscussionLog l'
      /\ messages st' = messages st ++ ms
      /\ length (filter (isSpokenBy Muse MuseToCognito) ms) = S k
      /\ length (filter (isSpokenBy Cognito CognitoToMuse) ms) = k
      /\ length (filter (isNotice isCognitoResponding) ms) = k
      /\ length (filter (isNotice isMuseResponding) ms) = k
      /\ length (filter (isNotice isSynthesizing) ms) = 1
      /\ length (filter (isSpokenBy Cognito FinalResponse) ms) = 0.
Proof.
  intros mode. induction k as [|k IH]; intros turn l st texts Hc Hn Hlen.
  - destruct texts as [|t [|? ?]]; try (simpl in Hlen; lia).
    assert (Hn' : manualFixedTurns env = S turn) by lia.
    destruct (fixed_last_muse env mode c turn l st t Hc Hn')
      as [st' [Hs [Hc' [Hf [Hd Hm]]]]].
    do 3 eexists. split; [exact Hs|].
    split; [exact Hc'|]. split; [exact Hf|].
    split; [cbn [recordTurn currentDiscussionLog concat repeat app];
            rewrite map_app; reflexivity|].
    split; [exact Hd|]. split; [exact Hm|].
    repeat split; reflexivity.
  - destruct texts as [|t1 [|t2 texts]]; try (simpl in Hlen; lia).
    assert (Hlt : S turn < manualFixedTurns env) by lia.
    destruct (fixed_pair env mode c turn l st t1 t2 Hc Hlt)
      as [st1 [Hs [Hc1 [Hf1 Hm1]]]].
    assert (Hn' : manualFixedTurns env = S turn + S k) by lia.
    assert (Hlen' : length texts = 2 * k + 1) by (simpl in Hlen; lia).
    set (l2 := recordTurn Cognito (parseAIResponse t2)
                 (discussionShouldEnd (parseAIResponse t2))
                 (recordTurn Muse (parseAIResponse t1)
                    (discussionShouldEnd (parseAIResponse t1)) l)) in *.
    destruct (IH (S turn) l2 st1 texts Hc1 Hn' Hlen')
      as [st' [l' [ms [Hr [Hc' [Hf [Hl [Hd [Hm Hcnt]]]]]]]]].
    exists st', l'. eexists.
    split.
    { change (map ok (t1 :: t2 :: texts))
        with ([ok t1; ok t2] ++ map ok texts).
      rewrite run_app, Hs. exact Hr. }
    split; [exact Hc'|]. split; [congruence|].
    split.
    { rewrite Hl. subst l2.
      cbn [recordTurn currentDiscussionLog concat repeat].
      rewrite !map_app, <- !app_assoc. reflexivity. }
    split; [exact Hd|].
    split; [rewrite Hm, Hm1, <- app_assoc; reflexivity|].
    destruct Hcnt as [K1 [K2 [K3 [K4 [K5 K6]]]]].
    rewrite !filter_app, !length_app, K1, K2, K3, K4, K5, K6.
    repeat split; reflexivity.
Qed.

Lemma handleSendMessage_accepted (env : Env) (input : jsstring)
    (imageFile : option ImageFile) (url : jsstring) (st : AppState) :
  queryAccepted input imageFile st = true ->
  exists st0,
    run env (handleSendMessage env input imageFile st)
      (imageRead imageFile url)
    = {| app := st0;
         control :=
           AwaitCall (Fresh false) CognitoInitialToMuse 0
             {| userInput := input;
                l_imageApiPart := imagePartOf imageFile url;
                currentDiscussionLog := []; lastTurnTextForLog := [];
                previousAISignaledStop := false |} |}
    /\ cancelRequest st0 = false
    /\ failedStepInfo st0 = None
    /\ messages st0 = messages st ++
         [{| msg_id := nextId st; msg_text := Spoken input;
             msg_sender := User; msg_purpose := UserInput |};
          {| msg_id := S (nextId st); msg_text := PreparingInitial;
             msg_sender := System; msg_purpose := SystemNotification |}].
Proof.
  unfold queryAccepted. rewrite andb_true_iff, !negb_true_iff.
  intros [H1 H2]. unfold handleSendMessage. rewrite H1, H2.
  destruct imageFile as [file|];
    cbn [imageRead imagePartOf run fold_left step control app onImageRead];
    unfold beginQuery; rewrite beginAttempt_live by reflexivity;
    (eexists; split; [reflexivity|]);
    cbn [notify addMessage snd cancelRequest failedStepInfo messages
         setDiscussionLog setFailedStepInfo setIsLoading setCancelRequest
         nextId];
    rewrite <- app_assoc; repeat split.
Qed.

(** C2: in a query with [n >= 1] fixed turns in which no call fails and
    nothing is cancelled, after the opening turn and [2 n - 1] further
    calls the final answer is being requested; by then Muse has spoken [n]
    times, a reply of Cognito to Muse has been started [n - 1] times, and
    the discussion log holds the opening turn, [n - 1] full pairs and the
    first half of the last pair; the final answer ends the query. *)
Theorem fixed_turns_schedule (env : Env) (n : nat) (input : jsstring)
    (imageFile : option ImageFile) (url : jsstring) (st : AppState)
    (texts : list jsstring) (final : jsstring) :
  discussionMode env = FixedTurns ->
  manualFixedTurns env = n ->
  1 <= n ->
  queryAccepted input imageFile st = true ->
  length texts = 2 * n ->
  let m := run env (handleSendMessage env input imageFile st)
             (imageRead imageFile url ++ map ok texts) in
  (exists c l,
     control m = AwaitCall (Fresh c) CognitoFinalAnswer 0 l
     /\ map fst (currentDiscussionLog l) = fixedTurnsSenders n
     /\ discussionLog (app m) = currentDiscussionLog l)
  /\ countMessages (isSpokenBy Muse MuseToCognito) (app m)
     = countMessages (isSpokenBy Muse MuseToCognito) st + n
  /\ countMessages (isNotice isMuseResponding) (app m)
     = countMessages (isNotice isMuseResponding) st + n
  /\ countMessages (isNotice isCognitoResponding) (app m)
     = countMessages (isNotice isCognitoResponding) st + (n - 1)
  /\ countMessages (isSpokenBy Cognito CognitoToMuse) (app m)
     = countMessages (isSpokenBy Cognito CognitoToMuse) st + 1 + (n - 1)
  /\ countMessages (isNotice isSynthesizing) (app m)
     = countMessages (isNotice isSynthesizing) st + 1
  /\ countMessages (isSpokenBy Cognito FinalResponse) (app m)
     = countMessages (isSpokenBy Cognito FinalResponse) st
  /\ control (step env m (ok final)) = Finished Completed.
Proof.
  intros mode Hn Hpos Hacc Hlen m.
  destruct (handleSendMessage_accepted env input imageFile url st Hacc)
    as [st0 [Hstart [Hc0 [_ Hm0]]]].
  destruct texts as [|t0 texts]; [simpl in Hlen; lia|].
  destruct (fixed_flags env mode) as [Ha Hf].
  set (r0 := parseAIResponse t0).
  set (l0 := {| userInput := input;
                l_imageApiPart := imagePartOf imageFile url;
                currentDiscussionLog := []; lastTurnTextForLog := [];
                previousAISignaledStop := false |}).
  set (l1 := recordTurn Cognito r0 false l0).
  destruct (recorded_frame (currentDiscussionLog l1) r0 Cognito CognitoToMuse
              st0) as [R1 [R2 [R3 [R4 R5]]]].
  remember (setDiscussionLog (currentDiscussionLog l1)
              (applyNotepad r0 Cognito
                 (snd (addMessage (Spoken (spokenText r0)) Cognito
                         CognitoToMuse st0)))) as st1 eqn:E1.
  rewrite Hc0 in R1.
  destruct (notify_frame MuseResponding st1) as [F1 [F2 [F3 [F4 F5]]]].
  remember (notify MuseResponding st1) as st2 eqn:E2.
  rewrite R1 in F1.
  assert (Hopen :
            step env
              (run env (handleSendMessage env input imageFile st)
                 (imageRead imageFile url)) (ok t0)
            = {| app := st2;
                 control :=
                   AwaitCall (Fresh (discussionShouldEnd r0))
                     (MuseReplyToCognitoTurn 0) 0 l1 |}).
  { rewrite Hstart, (step_ok env _ _ 0 _ st0 t0 Hc0).
    cbn [onSuccess stepSender stepPurpose]. unfold onInitialSuccess.
    fold r0. rewrite Ha. cbn [andb]. fold l0. fold l1.
    cbn [previousAISignaledStop l1 recordTurn]. rewrite <- E1.
    rewrite (loopHead_fixed env mode _ 0 l1 st1 R1).
    replace (manualFixedTurns env <=? 0) with false
      by (symmetry; apply Nat.leb_gt; lia).
    now rewrite E2. }
  assert (Hn' : manualFixedTurns env = 0 + S (n - 1)) by lia.
  assert (Hlen' : length texts = 2 * (n - 1) + 1) by (simpl in Hlen; lia).
  destruct (fixed_loop env (discussionShouldEnd r0) mode (n - 1) 0 l1 st2
              texts F1 Hn' Hlen')
    as [st' [l' [ms [Hr [Hc' [Hf' [Hl [Hd [Hm Hcnt]]]]]]]]].
  destruct Hcnt as [K1 [K2 [K3 [K4 [K5 K6]]]]].
  assert (Hrun : m = {| app := st';
                        control :=
                          AwaitCall (Fresh (discussionShouldEnd r0))
                            CognitoFinalAnswer 0 l' |}).
  { subst m. cbn [map]. rewrite run_app, run_cons, Hopen. exact Hr. }
  assert (Hall : messages st' = messages st ++
            ([{| msg_id := nextId st; msg_text := Spoken input;
                 msg_sender := User; msg_purpose := UserInput |};
              {| msg_id := S (nextId st); msg_text := PreparingInitial;
                 msg_sender := System; msg_purpose := SystemNotification |};
              {| msg_id := nextId st0; msg_text := Spoken (spokenText r0);
                 msg_sender := Cognito; msg_purpose := CognitoToMuse |};
              {| msg_id := nextId st1; msg_text := MuseResponding;
                 msg_sender := System; msg_purpose := SystemNotification |}]
             ++ ms)).
  { rewrite Hm, F2, R2, Hm0, <- !app_assoc. reflexivity. }
  rewrite Hrun. cbn [app control].
  split.
  { exists (discussionShouldEnd r0), l'. split; [reflexivity|].
    split; [|exact Hd].
    rewrite Hl. unfold fixedTurnsSenders. reflexivity. }
  rewrite !(countMessages_app _ st st' _ Hall).
  rewrite !filter_app, !length_app, K1, K2, K3, K4, K5, K6.
  cbn [filter isSpokenBy isNotice msg_text msg_sender msg_purpose sender_eqb
       purpose_eqb isMuseResponding isCognitoResponding isSynthesizing
       andb length].
  repeat split; try lia.
  rewrite (step_ok env _ _ 0 l' st' final Hc'). reflexivity.
Qed.

Lemma fixed_turns_schedule_witness :
  let env := plainEnv FixedTurns 2 in
  let m :=
    run env (handleSendMessage env (lit "q") None (initialState []))
      (map ok [lit "A"; lit "B"; lit "C"; lit "D"]) in
  countMessages (isSpokenBy Muse MuseToCognito) (app m) = 2
  /\ countMessages (isNotice isCognitoResponding) (app m) = 1
  /\ control (step env m (ok (lit "E"))) = Finished Completed.
Proof.
  intros env m.
  destruct (fixed_turns_schedule env 2 (lit "q") None [] (initialState [])
              [lit "A"; lit "B"; lit "C"; lit "D"] (lit "E")
              eq_refl eq_refl (le_S 1 1 (le_n 1)) eq_refl eq_refl)
    as [_ [H1 [_ [H2 [_ [_ [_ H3]]]]]]].
  split; [exact H1|]. split; [exact H2 | exact H3].
Defined.

(** *** The AI-driven loop *)

Section AiDriven.
Variable env : Env.
Hypothesis mode : discussionMode env = AiDriven.

Lemma ai_flags : isAiDriven env = true /\ isFixedTurns env = false.
Proof. unfold isAiDriven, isFixedTurns. now rewrite mode. Qed.

(** Closes a goal on the state reached by notifications after a recorded
    turn: the machine, the cancel flag, the messages added and how many of
    them are of the kinds asked for. *)
Ltac reached R1 R2 :=
  do 2 eexists; split; [reflexivity|];
  split; [cbn [notify addMessage snd cancelRequest]; exact R1|];
  split; [cbn [notify addMessage snd messages]; rewrite R2, <- ?app_assoc;
          reflexivity|];
  split; reflexivity.

(** The opening turn seeds the comparison: Muse is asked next, with the
    signal of the opening turn as the signal of the turn before. *)
Lemma opening_turn_ai_driven (attempt : nat) (l : Locals) (st : AppState)
    (text : jsstring) :
  cancelRequest st = false ->
  let r := parseAIResponse text in
  exists st' ms,
    step env
      {| app := st;
         control := AwaitCall (Fresh false) CognitoInitialToMuse attempt l |}
      (ok text)
    = {| app := st';
         control :=
           AwaitCall (Fresh (discussionShouldEnd r))
             (MuseReplyToCognitoTurn 0) 0
             (recordTurn Cognito r (discussionShouldEnd r) l) |}
    /\ cancelRequest st' = false
    /\ messages st' = messages st ++ ms
    /\ length (filter (isNotice isBothAgreed) ms) = 0
    /\ length (filter (isNotice isSynthesizing) ms) = 0.
Proof.
  intros Hc r. destruct ai_flags as [Ha Hf].
  rewrite (step_ok env _ _ attempt l st text Hc).
  cbn [onSuccess stepSender stepPurpose]. unfold onInitialSuccess.
  fold r. rewrite Ha. cbn [andb].
  set (l' := recordTurn Cognito r (discussionShouldEnd r) l).
  destruct (recorded_frame (currentDiscussionLog l') r Cognito CognitoToMuse
              st) as [R1 [R2 _]].
  remember (setDiscussionLog (currentDiscussionLog l')
              (applyNotepad r Cognito
                 (snd (addMessage (Spoken (spokenText r)) Cognito
                         CognitoToMuse st)))) as st1 eqn:E1.
  rewrite Hc in R1.
  assert (Hhead : forall st2,
            cancelRequest st2 = false ->
            loopHead env (Fresh (discussionShouldEnd r)) 0 false l' st2
            = {| app := notify MuseResponding st2;
                 control :=
                   AwaitCall (Fresh (discussionShouldEnd r))
                     (MuseReplyToCognitoTurn 0) 0 l' |}).
  { intros st2 Hc2. unfold loopHead. rewrite Hc2, Hf.
    cbn [andb Nat.ltb Nat.leb]. rewrite !andb_false_r.
    now rewrite beginAttempt_live. }
  destruct (previousAISignaledStop l');
    rewrite Hhead by exact R1; reached R1 R2.
Qed.

(** After a turn of Muse in a query the loop is left exactly when Muse and
    the turn before both signal the end; only then the agreement is
    announced. *)
Lemma muse_turn_ai_driven (cognitoSignal : bool) (turn attempt : nat)
    (l : Locals) (st : AppState) (text : jsstring) :
  cancelRequest st = false ->
  let r := parseAIResponse text in
  let agreed := discussionShouldEnd r && previousAISignaledStop l in
  exists st' ms,
    step env
      {| app := st;
         control :=
           AwaitCall (Fresh cognitoSignal) (MuseReplyToCognitoTurn turn)
             attempt l |}
      (ok text)
    = {| app := st';
         control :=
           AwaitCall (Fresh cognitoSignal)
             (if agreed then CognitoFinalAnswer
              else CognitoReplyToMuseTurn turn)
             0 (recordTurn Muse r (discussionShouldEnd r) l) |}
    /\ cancelRequest st' = false
    /\ messages st' = messages st ++ ms
    /\ length (filter (isNotice isBothAgreed) ms) = (if agreed then 1 else 0)
    /\ length (filter (isNotice isSynthesizing) ms)
       = (if agreed then 1 else 0).
Proof.
  intros Hc r agreed. subst agreed. destruct ai_flags as [Ha Hf].
  rewrite (step_ok env _ _ attempt l st text Hc).
  cbn [onSuccess stepSender stepPurpose]. unfold onMuseSuccess.
  fold r. rewrite Ha.
  set (l' := recordTurn Muse r (discussionShouldEnd r) l).
  destruct (recorded_frame (currentDiscussionLog l') r Muse MuseToCognito st)
    as [R1 [R2 _]].
  remember (setDiscussionLog (currentDiscussionLog l')
              (applyNotepad r Muse
                 (snd (addMessage (Spoken (spokenText r)) Muse MuseToCognito
                         st)))) as st1 eqn:E1.
  rewrite Hc in R1.
  assert (Hreply : forall st2,
            cancelRequest st2 = false ->
            beforeCognitoReply env (Fresh cognitoSignal) turn l' st2
            = {| app := notify CognitoResponding st2;
                 control :=
                   AwaitCall (Fresh cognitoSignal)
                     (CognitoReplyToMuseTurn turn) 0 l' |}).
  { intros st2 Hc2. unfold beforeCognitoReply. rewrite Hc2, Hf.
    cbn [andb]. now rewrite beginAttempt_live. }
  destruct (discussionShouldEnd r); cbn [andb].
  - destruct (previousAISignaledStop l).
    + rewrite enterFinal_live by exact R1. reached R1 R2.
    + rewrite Hreply by exact R1. reached R1 R2.
  - rewrite Hreply by exact R1. reached R1 R2.
Qed.

(** After a reply of Cognito in a query the loop is left when Cognito and
    Muse before it both signal the end, which is announced, and also, at
    the head of the next iteration (line 600) and without announcement,
    when Cognito signals the end and its opening turn did. *)
Lemma cognito_reply_ai_driven (cognitoSignal : bool) (turn attempt : nat)
    (l : Locals) (st : AppState) (text : jsstring) :
  cancelRequest st = false ->
  let r := parseAIResponse text in
  let agreed := discussionShouldEnd r && previousAISignaledStop l in
  let left :=
    discussionShouldEnd r && (previousAISignaledStop l || cognitoSignal) in
  exists st' ms,
    step env
      {| app := st;
         control :=
           AwaitCall (Fresh cognitoSignal) (CognitoReplyToMuseTurn turn)
             attempt l |}
      (ok text)
    = {| app := st';
         control :=
           AwaitCall (Fresh cognitoSignal)
             (if left then CognitoFinalAnswer
              else MuseReplyToCognitoTurn (S turn))
             0 (recordTurn Cognito r (discussionShouldEnd r) l) |}
    /\ cancelRequest st' = false
    /\ messages st' = messages st ++ ms
    /\ length (filter (isNotice isBothAgreed) ms) = (if agreed then 1 else 0)
    /\ length (filter (isNotice isSynthesizing) ms) = (if left then 1 else 0).
Proof.
  intros Hc r agreed left. subst agreed left. destruct ai_flags as [Ha Hf].
  rewrite (step_ok env _ _ attempt l st text Hc).
  cbn [onSuccess stepSender stepPurpose]. unfold onCognitoReplySuccess.
  fold r. rewrite Ha. cbn [isContinued andb].
  set (l' := recordTurn Cognito r (discussionShouldEnd r) l).
  destruct (recorded_frame (currentDiscussionLog l') r Cognito CognitoToMuse
              st) as [R1 [R2 _]].
  remember (setDiscussionLog (currentDiscussionLog l')
              (applyNotepad r Cognito
                 (snd (addMessage (Spoken (spokenText r)) Cognito
                         CognitoToMuse st)))) as st1 eqn:E1.
  rewrite Hc in R1.
  assert (Hhead : forall st2,
            cancelRequest st2 = false ->
            loopHead env (Fresh cognitoSignal) (S turn) false l' st2
            = {| app := notify (if discussionShouldEnd r && cognitoSignal
                                then Synthesizing else MuseResponding) st2;
                 control :=
                   AwaitCall (Fresh cognitoSignal)
                     (if discussionShouldEnd r && cognitoSignal
                      then CognitoFinalAnswer
                      else MuseReplyToCognitoTurn (S turn))
                     0 l' |}).
  { intros st2 Hc2. unfold loopHead. rewrite Hc2, Hf, Ha.
    cbn [andb l' recordTurn previousAISignaledStop Nat.ltb Nat.leb].
    rewrite andb_true_r.
    destruct (discussionShouldEnd r && cognitoSignal).
    - now rewrite enterFinal_live.
    - now rewrite beginAttempt_live. }
  destruct (discussionShouldEnd r) eqn:Er; cbn [andb].
  - destruct (previousAISignaledStop l); cbn [orb].
    + rewrite enterFinal_live by exact R1. reached R1 R2.
    + rewrite Hhead by exact R1. destruct cognitoSignal; reached R1 R2.
  - rewrite Hhead by exact R1. reached R1 R2.
Qed.

End AiDriven.

(** C1, the runs on which the code breaks the claim: in AI-driven mode,
    whenever the opening turn signals the end, Muse does not, and Cognito
    signals it again in its reply, no two consecutive turns signal the end
    and no agreement is announced, yet the loop is left at the head of its
    next iteration (line 600) and the final answer is requested. *)
Theorem lone_signal_ends_discussion (env : Env) (input : jsstring)
    (imageFile : option ImageFile) (url : jsstring) (st : AppState)
    (opening muse reply : jsstring) :
  discussionMode env = AiDriven ->
  queryAccepted input imageFile st = true ->
  discussionShouldEnd (parseAIResponse opening) = true ->
  discussionShouldEnd (parseAIResponse muse) = false ->
  discussionShouldEnd (parseAIResponse reply) = true ->
  let m :=
    run env (handleSendMessage env input imageFile st)
      (imageRead imageFile url ++ [ok opening; ok muse; ok reply]) in
  (exists l, control m = AwaitCall (Fresh true) CognitoFinalAnswer 0 l)
  /\ countMessages (isNotice isBothAgreed) (app m)
     = countMessages (isNotice isBothAgreed) st
  /\ countMessages (isNotice isSynthesizing) (app m)
     = S (countMessages (isNotice isSynthesizing) st).
Proof.
  intros mode Hacc H0 H1 H2 m.
  destruct (handleSendMessage_accepted env input imageFile url st Hacc)
    as [st0 [Hstart [Hc0 [_ Hm0]]]].
  set (l0 := {| userInput := input;
                l_imageApiPart := imagePartOf imageFile url;
                currentDiscussionLog := []; lastTurnTextForLog := [];
                previousAISignaledStop := false |}) in *.
  destruct (opening_turn_ai_driven env mode 0 l0 st0 opening Hc0)
    as [st1 [ms1 [S1 [Hc1 [Hm1 [A1 F1]]]]]].
  rewrite H0 in S1.
  match type of S1 with
  | _ = {| app := _; control := AwaitCall _ _ _ ?x |} => set (l1 := x) in *
  end.
  destruct (muse_turn_ai_driven env mode true 0 0 l1 st1 muse Hc1)
    as [st2 [ms2 [S2 [Hc2 [Hm2 [A2 F2]]]]]].
  rewrite H1 in S2, A2, F2. cbn [andb] in S2, A2, F2.
  match type of S2 with
  | _ = {| app := _; control := AwaitCall _ _ _ ?x |} => set (l2 := x) in *
  end.
  destruct (cognito_reply_ai_driven env mode true 0 0 l2 st2 reply Hc2)
    as [st3 [ms3 [S3 [Hc3 [Hm3 [A3 F3]]]]]].
  assert (Hp2 : previousAISignaledStop l2 = false) by reflexivity.
  rewrite H2, Hp2 in S3, A3, F3. cbn [andb orb] in S3, A3, F3.
  assert (Hm : m = {| app := st3;
                      control :=
                        AwaitCall (Fresh true) CognitoFinalAnswer 0
                          (recordTurn Cognito (parseAIResponse reply) true
                             l2) |}).
  { subst m.
    rewrite run_app, Hstart, run_cons, S1, run_cons, S2, run_cons, S3.
    reflexivity. }
  assert (Hall : messages st3 = messages st ++
            ([{| msg_id := nextId st; msg_text := Spoken input;
                 msg_sender := User; msg_purpose := UserInput |};
              {| msg_id := S (nextId st); msg_text := PreparingInitial;
                 msg_sender := System; msg_purpose := SystemNotification |}]
             ++ ms1 ++ ms2 ++ ms3)).
  { rewrite Hm3, Hm2, Hm1, Hm0, <- !app_assoc. reflexivity. }
  rewrite Hm. cbn [app control].
  split; [eexists; reflexivity|].
  rewrite !(countMessages_app _ st st3 _ Hall).
  rewrite !filter_app, !length_app, A1, A2, A3, F1, F2, F3.
  cbn [filter isNotice msg_text isBothAgreed isSynthesizing length].
  split; lia.
Qed.

Lemma lone_signal_ends_discussion_witness :
  let env := plainEnv AiDriven 2 in
  let m :=
    run env (handleSendMessage env (lit "q") None (initialState []))
      [ok (lit "Plan. <discussion_complete />"); ok (lit "Not yet.");
       ok (lit "Done. <discussion_complete />")] in
  (exists l, control m = AwaitCall (Fresh true) CognitoFinalAnswer 0 l)
  /\ countMessages (isNotice isBothAgreed) (app m) = 0.
Proof.
  intros env m.
  destruct (lone_signal_ends_discussion env (lit "q") None []
              (initialState [])
              (lit "Plan. <discussion_complete />") (lit "Not yet.")
              (lit "Done. <discussion_complete />")
              eq_refl eq_refl eq_refl eq_refl eq_refl) as [H1 [H2 _]].
  split; [exact H1 | exact H2].
Defined.

(** *** Manual retry *)

Lemma handleManualRetry_idle (env : Env) (cp : FailedStepPayload)
    (st : AppState) :
  isLoading st = false ->
  exists st1,
    handleManualRetry env cp st
    = {| app := st1; control := AwaitManualRetry cp |}
    /\ cancelRequest st1 = false
    /\ nextId st1 = S (nextId st)
    /\ isApiKeyMissing st1 = isApiKeyMissing st
    /\ messages st1
       = filter (fun m => negb (msg_id m =? originalSystemErrorMsgId cp))
           (messages st)
         ++ [{| msg_id := nextId st;
                msg_text := ManualRetrying (fs_sender cp) (stepIdentifier cp);
                msg_sender := System; msg_purpose := SystemNotification |}].
Proof.
  intros H. unfold handleManualRetry. rewrite H.
  eexists. split; [reflexivity|]. repeat split.
Qed.

Lemma manualRetryFinally_frame (env : Env) (st : AppState) :
  cancelRequest st = false ->
  messages (manualRetryFinally env st) = messages st
  /\ failedStepInfo (manualRetryFinally env st) = failedStepInfo st
  /\ isApiKeyMissing (manualRetryFinally env st) = isApiKeyMissing st
  /\ (env_failedStepInfo env = true ->
      isLoading (manualRetryFinally env st) = false).
Proof.
  intros Hc. unfold manualRetryFinally.
  cbn [cancelRequest setIsLoading]. rewrite Hc, orb_false_r.
  destruct (env_failedStepInfo env); cbn [andb negb orb];
    repeat split; try reflexivity; intros H; discriminate H.
Qed.

(** Removing the message a checkpoint points at removes one notification
    with a retry offer, if that is what the message is and ids are
    unique. *)
Lemma count_without (t : ChatMessage -> bool) (old : ChatMessage)
    (ms : list ChatMessage) :
  NoDup (map msg_id ms) ->
  In old ms ->
  t old = true ->
  S (length (filter t
               (filter (fun m => negb (msg_id m =? msg_id old)) ms)))
  = length (filter t ms).
Proof.
  induction ms as [|a ms IH]; intros Hnd Hin Ht; [contradiction|].
  cbn [map] in Hnd. inversion Hnd as [|? ? Hnotin Hnd']; subst.
  destruct Hin as [-> | Hin].
  - cbn [filter]. rewrite Nat.eqb_refl. cbn [negb]. rewrite Ht.
    cbn [length]. f_equal. f_equal. f_equal.
    apply forallb_filter_id. apply forallb_forall. intros x Hx.
    apply negb_true_iff, Nat.eqb_neq. intros E. apply Hnotin.
    rewrite <- E. now apply in_map.
  - assert (Hne : msg_id a <> msg_id old).
    { intros E. apply Hnotin. rewrite E. now apply in_map. }
    cbn [filter]. apply Nat.eqb_neq in Hne. rewrite Hne. cbn [negb filter].
    destruct (t a); cbn [length]; now rewrite <- (IH Hnd' Hin Ht).
Qed.

(** C9: when the call of a manual retry fails without the API-key marker
    and without cancellation, the checkpoint stays, with every field but
    the id of its notification as before; the new id is that of the
    notification of this failure, the last message; the message the
    checkpoint pointed at before is gone, so the notifications with a retry
    offer are those of before without the old one plus the new one: their
    number does not grow when the old one was among them. *)
Theorem manual_retry_failure_repoints (env : Env) (cp : FailedStepPayload)
    (st : AppState) (msg err : jsstring) :
  isLoading st = false ->
  originalSystemErrorMsgId cp < nextId st ->
  plainFailure (msg, err) = true ->
  let m := run env (handleManualRetry env cp st) [failed msg err] in
  control m = Finished Failed
  /\ (env_failedStepInfo env = true -> isLoading (app m) = false)
  /\ (forall message,
        In message (messages (app m)) ->
        msg_id message <> originalSystemErrorMsgId cp)
  /\ countMessages (isNotice offersRetry) (app m)
     = S (countMessages (isNotice offersRetry)
            (removeMessage (originalSystemErrorMsgId cp) st))
  /\ (forall old,
        NoDup (map msg_id (messages st)) ->
        In old (messages st) ->
        msg_id old = originalSystemErrorMsgId cp ->
        offersRetry (msg_text old) = true ->
        countMessages (isNotice offersRetry) (app m)
        = countMessages (isNotice offersRetry) st)
  /\ exists cp' earlier note,
       failedStepInfo (app m) = Some cp'
       /\ messages (app m) = earlier ++ [note]
       /\ msg_id note = originalSystemErrorMsgId cp'
       /\ offersRetry (msg_text note) = true
       /\ stepIdentifier cp' = stepIdentifier cp
       /\ prompt cp' = prompt cp
       /\ modelName cp' = modelName cp
       /\ systemInstruction cp' = systemInstruction cp
       /\ imageApiPart cp' = imageApiPart cp
       /\ fs_sender cp' = fs_sender cp
       /\ fs_purpose cp' = fs_purpose cp
       /\ thinkingConfig cp' = thinkingConfig cp
       /\ userInputForFlow cp' = userInputForFlow cp
       /\ imageApiPartForFlow cp' = imageApiPartForFlow cp
       /\ discussionLogBeforeFailure cp' = discussionLogBeforeFailure cp
       /\ currentTurnIndexForResume cp' = currentTurnIndexForResume cp
       /\ previousAISignaledStopForResume cp'
          = previousAISignaledStopForResume cp.
Proof.
  intros Hl Hid Hp m.
  destruct (plainFailure_iff msg err Hp) as [Ht Hi].
  destruct (handleManualRetry_idle env cp st Hl)
    as [st1 [Hstart [Hc1 [Hn1 [_ Hm1]]]]].
  set (errorMsg := if truthy msg then msg else UNKNOWN_ERROR).
  set (note := {| msg_id := nextId st1;
                  msg_text := ManualRetryFailed (fs_sender cp)
                                (stepIdentifier cp) errorMsg;
                  msg_sender := System;
                  msg_purpose := SystemNotification |}).
  set (st2 := setFailedStepInfo (Some (repoint cp (nextId st1)))
                (snd (addMessage (msg_text note) System SystemNotification
                        st1))).
  assert (Hm : m = {| app := manualRetryFinally env st2;
                      control := Finished Failed |}).
  { subst m. rewrite run_cons, Hstart. unfold step, failed.
    cbn [control app run fold_left]. unfold onManualReturned, hasError.
    cbn [r_error r_text]. rewrite Hc1, Ht, Hi. reflexivity. }
  assert (Hc2 : cancelRequest st2 = false) by exact Hc1.
  destruct (manualRetryFinally_frame env st2 Hc2) as [F1 [F2 [_ F4]]].
  assert (Hmsgs : messages (app m)
                  = messages (removeMessage (originalSystemErrorMsgId cp) st)
                    ++ [{| msg_id := nextId st;
                           msg_text := ManualRetrying (fs_sender cp)
                                         (stepIdentifier cp);
                           msg_sender := System;
                           msg_purpose := SystemNotification |}; note]).
  { rewrite Hm. cbn [app]. rewrite F1. subst st2.
    cbn [setFailedStepInfo messages addMessage snd]. rewrite Hm1.
    rewrite <- app_assoc. reflexivity. }
  assert (Hcount : countMessages (isNotice offersRetry) (app m)
                   = S (countMessages (isNotice offersRetry)
                          (removeMessage (originalSystemErrorMsgId cp) st))).
  { rewrite (countMessages_app _ _ (app m) _ Hmsgs). cbn. lia. }
  split; [rewrite Hm; reflexivity|].
  split; [rewrite Hm; exact F4|].
  split.
  { intros message. rewrite Hmsgs. cbn [removeMessage messages].
    rewrite in_app_iff, filter_In. intros [[_ H] | [<- | [<- | []]]].
    - apply negb_true_iff, Nat.eqb_neq in H. exact H.
    - cbn [msg_id]. lia.
    - cbn [msg_id note]. lia. }
  split; [exact Hcount|].
  split.
  { intros old Hnd Hin Hold Hoffer. rewrite Hcount.
    unfold countMessages. cbn [removeMessage messages]. rewrite <- Hold.
    apply (count_without (isNotice offersRetry) old (messages st) Hnd Hin).
    exact Hoffer. }
  exists (repoint cp (nextId st1)).
  exists (messages (removeMessage (originalSystemErrorMsgId cp) st)
          ++ [{| msg_id := nextId st;
                 msg_text := ManualRetrying (fs_sender cp) (stepIdentifier cp);
                 msg_sender := System; msg_purpose := SystemNotification |}]).
  exists note.
  split; [rewrite Hm; cbn [app]; rewrite F2; reflexivity|].
  split; [rewrite Hmsgs, <- app_assoc; reflexivity|].
  repeat split.
Qed.

Lemma manual_retry_failure_repoints_witness :
  let m :=
    run (plainEnv AiDriven 2)
      (handleManualRetry (plainEnv AiDriven 2) exampleCheckpoint
         exampleFailedState)
      [failed (lit "boom") (lit "503 overloaded")] in
  control m = Finished Failed
  /\ countMessages (isNotice offersRetry) (app m)
     = countMessages (isNotice offersRetry) exampleFailedState.
Proof.
  intros m.
  destruct (manual_retry_failure_repoints (plainEnv AiDriven 2)
              exampleCheckpoint exampleFailedState (lit "boom")
              (lit "503 overloaded") eq_refl (le_n 1) eq_refl)
    as [H1 [_ [_ [_ [H5 _]]]]].
  split; [exact H1|].
  apply (H5 {| msg_id := 0;
               msg_text := StepFailedCanRetry false (CognitoReplyToMuseTurn 0)
                             (lit "boom");
               msg_sender := System;
               msg_purpose := SystemNotification |}).
  - repeat constructor. intros [].
  - left. reflexivity.
  - reflexivity.
  - reflexivity.
Defined.

(** A failure with the API-key marker in the call of [handleManualRetry]
    itself sets the credentials flag and keeps the checkpoint, pointed at
    the new notification. *)
Remark manual_retry_with_invalid_key :
  let m :=
    run (plainEnv AiDriven 2)
      (handleManualRetry (plainEnv AiDriven 2) exampleCheckpoint
         exampleFailedState)
      [failed (lit "denied") (lit "API key not valid.")] in
  control m = Finished Failed
  /\ isApiKeyMissing (app m) = true
  /\ failedStepInfo (app m) = Some (repoint exampleCheckpoint 2).
Proof. vm_compute. repeat split; reflexivity. Qed.

(** *** Resuming after a failed reply of Cognito *)

Section NotBeforePair.
Variable env : Env.
Variable k : nat.

Lemma nb_stopped (f : Flow) (st : AppState) :
  notBeforePair k (control (stopped env f st)) = true.
Proof. now rewrite control_stopped. Qed.

Lemma nb_beginAttempt (f : Flow) (s : StepIdentifier) (attempt : nat)
    (l : Locals) (st : AppState) :
  notBeforePair k (AwaitCall f s attempt l) = true ->
  notBeforePair k (control (beginAttempt env f s attempt l st)) = true.
Proof.
  intros H. unfold beginAttempt. destruct (cancelRequest st).
  - apply nb_stopped.
  - exact H.
Qed.

Lemma nb_enterFinal (f : Flow) (l : Locals) (st : AppState) :
  notBeforePair k (control (enterFinal env f l st)) = true.
Proof.
  unfold enterFinal. destruct (cancelRequest st).
  - apply nb_stopped.
  - now apply nb_beginAttempt.
Qed.

Lemma nb_beforeCognitoReply (f : Flow) (turn : nat) (l : Locals)
    (st : AppState) :
  k <= turn ->
  notBeforePair k (control (beforeCognitoReply env f turn l st)) = true.
Proof.
  intros H. unfold beforeCognitoReply.
  repeat match goal with
         | |- context [if ?b then _ else _] => destruct b
         end; try apply nb_enterFinal.
  apply nb_beginAttempt. now apply Nat.leb_le.
Qed.

Lemma nb_loopHead (f : Flow) (turn : nat) (skip : bool) (l : Locals)
    (st : AppState) :
  k <= turn ->
  notBeforePair k (control (loopHead env f turn skip l st)) = true.
Proof.
  intros H. unfold loopHead.
  repeat match goal with
         | |- context [if ?b then _ else _] => destruct b
         end; try apply nb_enterFinal;
    try (now apply nb_beforeCognitoReply).
  apply nb_beginAttempt. now apply Nat.leb_le.
Qed.

Lemma nb_onSuccess (f : Flow) (s : StepIdentifier) (l : Locals)
    (text : jsstring) (st : AppState) :
  notBeforePair k (AwaitCall f s 0 l) = true ->
  notBeforePair k (control (onSuccess env f s l text st)) = true.
Proof.
  intros H. destruct s as [|turn|turn|]; cbn [notBeforePair] in H;
    try discriminate H; cbn [onSuccess].
  - apply Nat.leb_le in H. unfold onMuseSuccess.
    repeat match goal with
           | |- context [if ?b then _ else _] => destruct b
           end; try apply nb_enterFinal;
      now apply nb_beforeCognitoReply.
  - apply Nat.leb_le in H. unfold onCognitoReplySuccess.
    repeat match goal with
           | |- context [if ?b then _ else _] => destruct b
           end; try apply nb_enterFinal; apply nb_loopHead; lia.
  - reflexivity.
Qed.

(** No event takes a handler back before pair [k]. *)
Lemma nb_step (m : Machine) (e : Event) :
  notBeforePair k (control m) = true ->
  notBeforePair k (control (step env m e)) = true.
Proof.
  intros H. unfold step.
  destruct (control m) as [f s attempt l|f s attempt l|p|o|input file] eqn:E;
    destruct e as [cancelled r|cancelled|cancelled result];
    rewrite ?E; try exact H; try discriminate H.
  - unfold onCallReturned.
    destruct (cancelRequest _); [apply nb_stopped|].
    destruct (hasError r) as [err|].
    + destruct (includes err API_KEY_NOT_VALID); [reflexivity|].
      destruct (attempt <? MAX_AUTO_RETRIES); [exact H|].
      unfold failStep. cbn [addMessage]. reflexivity.
    + apply nb_onSuccess. exact H.
  - unfold onDelayElapsed. apply nb_beginAttempt. exact H.
Qed.

Lemma nb_run (es : list Event) (m : Machine) :
  notBeforePair k (control m) = true ->
  notBeforePair k (control (run env m es)) = true.
Proof.
  revert m. induction es as [|e es IH]; intros m H; [exact H|].
  rewrite run_cons. apply IH, nb_step, H.
Qed.
End NotBeforePair.

(** C7: a manual retry of the reply of Cognito in pair [k] that succeeds
    shows the reply, appends it to the discussion log of the checkpoint and
    clears the checkpoint; the handler then waits for the call of Muse in
    pair [k + 1], or for the final answer when the discussion is over (in
    AI-driven mode the retried reply and the signal stored in the checkpoint
    both say so, or all fixed turns are used up); whatever happens later,
    no half of pair [k] or of an earlier pair is run again. *)
Theorem resume_after_cognito_reply (env : Env) (cp : FailedStepPayload)
    (k : nat) (text : jsstring) (st : AppState) :
  stepIdentifier cp = CognitoReplyToMuseTurn k ->
  currentTurnIndexForResume cp = Some k ->
  isLoading st = false ->
  let r := parseAIResponse text in
  let m := run env (handleManualRetry env cp st) [ok text] in
  let prior :=
    match previousAISignaledStopForResume cp with
    | Some b => b
    | None => false
    end in
  let over :=
    isAiDriven env && discussionShouldEnd r && prior
    || isFixedTurns env && (manualFixedTurns env <=? S k) in
  (exists l,
     control m
     = AwaitCall (Continued prior (S k))
         (if over then CognitoFinalAnswer else MuseReplyToCognitoTurn (S k))
         0 l
     /\ currentDiscussionLog l
        = discussionLogBeforeFailure cp ++ [(fs_sender cp, spokenText r)]
     /\ discussionLog (app m) = currentDiscussionLog l)
  /\ failedStepInfo (app m) = None
  /\ (exists shown,
        In shown (messages (app m))
        /\ msg_text shown = Spoken (spokenText r)
        /\ msg_sender shown = fs_sender cp
        /\ msg_purpose shown = fs_purpose cp)
  /\ forall es, notBeforePair (S k) (control (run env m es)) = true.
Proof.
  intros Hid Hk Hl r m prior over.
  destruct (handleManualRetry_idle env cp st Hl)
    as [st1 [Hstart [Hc1 [Hn1 [_ Hm1]]]]].
  set (shown := {| msg_id := nextId st1; msg_text := Spoken (spokenText r);
                   msg_sender := fs_sender cp;
                   msg_purpose := fs_purpose cp |}).
  set (st2 := setFailedStepInfo None
                (notify (ManualRetrySucceeded (fs_sender cp)
                           (stepIdentifier cp))
                   (applyNotepad r (fs_sender cp)
                      (snd (addMessage (Spoken (spokenText r)) (fs_sender cp)
                              (fs_purpose cp) st1))))).
  assert (Hm : m = continueDiscussionAfterSuccessfulRetry env cp r st2).
  { subst m. rewrite run_cons, Hstart. unfold step, ok.
    cbn [control app run fold_left]. unfold onManualReturned, hasError.
    cbn [r_error r_text]. rewrite Hc1. reflexivity. }
  destruct (applyNotepad_frame r (fs_sender cp)
              (snd (addMessage (Spoken (spokenText r)) (fs_sender cp)
                      (fs_purpose cp) st1))) as [N1 [N2 [N3 [N4 N5]]]].
  remember (applyNotepad r (fs_sender cp)
              (snd (addMessage (Spoken (spokenText r)) (fs_sender cp)
                      (fs_purpose cp) st1))) as sa eqn:Esa.
  assert (Hst2 : st2 = setFailedStepInfo None
                         (notify (ManualRetrySucceeded (fs_sender cp)
                                    (stepIdentifier cp)) sa)).
  { subst st2 sa. reflexivity. }
  clearbody st2. subst st2.
  match goal with
  | H : m = continueDiscussionAfterSuccessfulRetry env cp r ?x |- _ =>
      set (st2 := x) in *
  end.
  assert (Hc2 : cancelRequest st2 = false).
  { subst st2. cbn [setFailedStepInfo notify addMessage snd cancelRequest].
    rewrite N1. exact Hc1. }
  assert (Hin2 : In shown (messages st2)).
  { subst st2. cbn [setFailedStepInfo notify addMessage snd messages].
    rewrite N2. cbn [addMessage snd messages].
    rewrite !in_app_iff. left. right. left. reflexivity. }
  set (l := {| userInput := userInputForFlow cp;
               l_imageApiPart := imageApiPartForFlow cp;
               currentDiscussionLog :=
                 discussionLogBeforeFailure cp
                 ++ [(fs_sender cp, spokenText r)];
               lastTurnTextForLog := spokenText r;
               previousAISignaledStop :=
                 isAiDriven env && discussionShouldEnd r |}).
  set (f := Continued prior (S k)).
  (* the state in which the loop is entered or skipped *)
  assert (Hshape : exists st3,
            cancelRequest st3 = false
            /\ failedStepInfo st3 = None
            /\ discussionLog st3 = currentDiscussionLog l
            /\ In shown (messages st3)
            /\ m = if isAiDriven env && previousAISignaledStop l && prior
                   then enterFinal env f l st3
                   else loopHead env f (S k) false l st3).
  { rewrite Hm. unfold continueDiscussionAfterSuccessfulRetry.
    rewrite Hid, Hk. fold r. fold l. fold prior.
    replace (k + 1) with (S k) by lia. fold f.
    eexists. split; [|split; [|split; [|split; [|reflexivity]]]].
    - destruct (isAiDriven env && previousAISignaledStop l && prior);
        [|destruct (isAiDriven env && previousAISignaledStop l)];
        exact Hc2.
    - destruct (isAiDriven env && previousAISignaledStop l && prior);
        [|destruct (isAiDriven env && previousAISignaledStop l)];
        reflexivity.
    - destruct (isAiDriven env && previousAISignaledStop l && prior);
        [|destruct (isAiDriven env && previousAISignaledStop l)];
        reflexivity.
    - destruct (isAiDriven env && previousAISignaledStop l && prior);
        [|destruct (isAiDriven env && previousAISignaledStop l)];
        cbn [notify addMessage snd messages setDiscussionLog];
        rewrite ?in_app_iff; auto. }
  destruct Hshape as [st3 [Hc3 [Hf3 [Hd3 [Hin3 Hm3]]]]].
  assert (Hprev : isAiDriven env && previousAISignaledStop l
                  = isAiDriven env && discussionShouldEnd r).
  { cbn [l previousAISignaledStop]. now destruct (isAiDriven env). }
  rewrite Hprev in Hm3.
  assert (Hres : m = {| app := notify (if over then Synthesizing
                                       else MuseResponding) st3;
                        control :=
                          AwaitCall f (if over then CognitoFinalAnswer
                                       else MuseReplyToCognitoTurn (S k))
                            0 l |}).
  { rewrite Hm3. subst over.
    destruct (isAiDriven env && discussionShouldEnd r && prior) eqn:Eagree;
      cbn [orb].
    - now apply enterFinal_live.
    - unfold loopHead. rewrite Hc3.
      destruct (isFixedTurns env && (manualFixedTurns env <=? S k)).
      + now apply enterFinal_live.
      + cbn [f]. rewrite Nat.ltb_irrefl, !andb_false_r.
        now apply beginAttempt_live. }
  split.
  { exists l. rewrite Hres. cbn [control app].
    split; [reflexivity|]. split; [reflexivity|].
    cbn [notify addMessage snd discussionLog]. exact Hd3. }
  split.
  { rewrite Hres. cbn [app notify addMessage snd failedStepInfo]. exact Hf3. }
  split.
  { exists shown. rewrite Hres.
    cbn [app notify addMessage snd messages]. rewrite in_app_iff.
    repeat split; auto. }
  intros es. apply nb_run. rewrite Hres. cbn [control notBeforePair].
  destruct over; [reflexivity|]. apply Nat.leb_refl.
Qed.

Lemma resume_after_cognito_reply_witness :
  exists l,
    control (run (plainEnv AiDriven 2)
               (handleManualRetry (plainEnv AiDriven 2) exampleCheckpoint
                  exampleFailedState)
               [ok (lit "C")])
    = AwaitCall (Continued false 1) (MuseReplyToCognitoTurn 1) 0 l.
Proof.
  destruct (resume_after_cognito_reply (plainEnv AiDriven 2)
              exampleCheckpoint 0 (lit "C") exampleFailedState
              eq_refl eq_refl eq_refl) as [[l [H _]] _].
  exists l. exact H.
Defined.

End OrchestratorFacts.

(** ** More on the response parser *)

Module ParserMore.
Import JsString Parser JsStringFacts ParserFacts.

(** *** White space around a response *)

Lemma trimStart_ws_app (a s : jsstring) :
  forallb is_ws a = true -> trimStart (a ++ s) = trimStart s.
Proof.
  induction a as [|c a IH]; intros H; [reflexivity|].
  cbn [forallb] in H. apply andb_true_iff in H as [H1 H2].
  cbn [app trimStart]. rewrite H1. auto.
Qed.

Lemma trimStart_nil_ws (s : jsstring) :
  trimStart s = [] -> forallb is_ws s = true.
Proof.
  induction s as [|c s IH]; [reflexivity|].
  cbn [trimStart forallb]. destruct (is_ws c); [exact IH | discriminate].
Qed.

Lemma trimStart_app_keep (s b : jsstring) :
  trimStart s <> [] -> trimStart (s ++ b) = trimStart s ++ b.
Proof.
  induction s as [|c s IH]; cbn [trimStart app]; [congruence|].
  destruct (is_ws c); auto.
Qed.

Lemma forallb_rev (f : N -> bool) (s : jsstring) :
  forallb f (rev s) = forallb f s.
Proof.
  apply eq_true_iff_eq. rewrite !forallb_forall.
  split; intros H x Hx; apply H; [apply in_rev in Hx|apply in_rev]; auto.
Qed.

Lemma trimEnd_app_ws (s b : jsstring) :
  forallb is_ws b = true -> trimEnd (s ++ b) = trimEnd s.
Proof.
  intros H. rewrite !trimEnd_rev, rev_app_distr, trimStart_ws_app; auto.
  now rewrite forallb_rev.
Qed.

Lemma trimEnd_keep_last (s : jsstring) (c : N) :
  is_ws c = false -> trimEnd (s ++ [c]) = s ++ [c].
Proof.
  intros H. rewrite trimEnd_rev, rev_app_distr. cbn [rev app].
  rewrite (trimStart_fix c (rev s) H). cbn [rev].
  now rewrite rev_involutive.
Qed.

(** White space at both ends of a string does not survive [trim]. *)
Lemma trim_outer_ws (a s b : jsstring) :
  forallb is_ws a = true -> forallb is_ws b = true ->
  trim (a ++ s ++ b) = trim s.
Proof.
  intros Ha Hb. unfold trim. rewrite (trimStart_ws_app a _ Ha).
  destruct (trimStart s) as [|c t] eqn:E.
  - assert (Hs : forallb is_ws (s ++ b) = true).
    { rewrite forallb_app, (trimStart_nil_ws s E), Hb. reflexivity. }
    rewrite <- (app_nil_r (s ++ b)), (trimStart_ws_app _ [] Hs).
    reflexivity.
  - rewrite trimStart_app_keep by (rewrite E; discriminate).
    rewrite E. now apply trimEnd_app_ws.
Qed.

(** X1: [parseAIResponse] does not see white space before and behind the
    response (line 55). *)
Theorem parse_ignores_outer_white_space (a raw b : jsstring) :
  forallb is_ws a = true -> forallb is_ws b = true ->
  parseAIResponse (a ++ raw ++ b) = parseAIResponse raw.
Proof.
  intros Ha Hb. unfold parseAIResponse.
  now rewrite (trim_outer_ws a raw b Ha Hb).
Qed.

Lemma parse_ignores_outer_white_space_witness :
  parseAIResponse (lit "  " ++ lit "Hello" ++ [10%N])
  = parseAIResponse (lit "Hello").
Proof.
  apply (parse_ignores_outer_white_space (lit "  ") (lit "Hello") [10%N]);
    reflexivity.
Defined.

(** *** The completion tag behind a notepad block *)

Lemma trim_before_tag (x : jsstring) :
  trim (x ++ DISCUSSION_COMPLETE_TAG)
  = trimStart x ++ DISCUSSION_COMPLETE_TAG.
Proof.
  unfold trim.
  assert (E : trimStart (x ++ DISCUSSION_COMPLETE_TAG)
              = trimStart x ++ DISCUSSION_COMPLETE_TAG).
  { destruct (trimStart x) as [|c t] eqn:Ex.
    - rewrite (trimStart_ws_app x _ (trimStart_nil_ws x Ex)). reflexivity.
    - rewrite trimStart_app_keep by (rewrite Ex; discriminate).
      now rewrite Ex. }
  rewrite E.
  change DISCUSSION_COMPLETE_TAG
    with (removelast DISCUSSION_COMPLETE_TAG ++ [62%N]).
  rewrite app_assoc. now apply trimEnd_keep_last.
Qed.

Lemma endsWith_tag_not_block (y : jsstring) :
  endsWith (y ++ DISCUSSION_COMPLETE_TAG) NOTEPAD_UPDATE_TAG_END = false.
Proof.
  unfold endsWith. rewrite rev_app_distr.
  change (rev DISCUSSION_COMPLETE_TAG)
    with (62%N :: 47%N :: skipn 2 (rev DISCUSSION_COMPLETE_TAG)).
  change (rev NOTEPAD_UPDATE_TAG_END)
    with (62%N :: 101%N :: skipn 2 (rev NOTEPAD_UPDATE_TAG_END)).
  reflexivity.
Qed.

(** X2: the prompt of AI-driven mode (constants.ts, line 79) asks for the
    completion tag at the very end of the response, after any notepad
    update. A response that ends with the tag never updates the notepad:
    the block is only looked for at the very end of the trimmed text
    (line 66). The end signal is raised. *)
Theorem tag_behind_block_drops_update (x : jsstring) :
  newNotepadContent (parseAIResponse (x ++ DISCUSSION_COMPLETE_TAG)) = None
  /\ discussionShouldEnd (parseAIResponse (x ++ DISCUSSION_COMPLETE_TAG))
     = true.
Proof.
  assert (Hb : hasNotepadBlock (trim (x ++ DISCUSSION_COMPLETE_TAG)) = false).
  { rewrite trim_before_tag. unfold hasNotepadBlock.
    rewrite endsWith_tag_not_block. apply andb_false_r. }
  assert (Hi : includes (trim (x ++ DISCUSSION_COMPLETE_TAG))
                 DISCUSSION_COMPLETE_TAG = true).
  { rewrite trim_before_tag. apply includes_iff.
    exists (trimStart x), []. now rewrite app_nil_r. }
  unfold parseAIResponse, extractNotepad. rewrite Hb.
  unfold extractDiscussionTag. rewrite Hi. split; reflexivity.
Qed.

(** *** The last start marker *)

Lemma lastIndexOf_from_range (p s : jsstring) (i acc : Z) :
  lastIndexOf_from s p i acc = acc
  \/ (i <= lastIndexOf_from s p i acc <= i + Z.of_nat (length s))%Z.
Proof.
  revert i acc. induction s as [|c s IH]; intros i acc.
  - cbn [lastIndexOf_from length]. destruct (startsWith [] p); [right|left];
      [lia | reflexivity].
  - cbn [lastIndexOf_from]. cbn [length].
    destruct (IH (i + 1)%Z (if startsWith (c :: s) p then i else acc))
      as [E | E].
    + rewrite E. destruct (startsWith (c :: s) p); [right; lia | now left].
    + right. lia.
Qed.

Lemma lastIndexOf_from_occurrence (p l r : jsstring) (i acc : Z) :
  (i + Z.of_nat (length l) <= lastIndexOf_from (l ++ p ++ r) p i acc)%Z.
Proof.
  revert i acc. induction l as [|a l IH]; intros i acc.
  - cbn [app length].
    assert (M : startsWith (p ++ r) p = true)
      by (apply startsWith_iff; eauto).
    destruct (p ++ r) as [|c s] eqn:E.
    + cbn [lastIndexOf_from]. rewrite M. lia.
    + cbn [lastIndexOf_from]. rewrite M.
      destruct (lastIndexOf_from_range p s (i + 1)%Z i) as [H | H]; lia.
  - cbn [app lastIndexOf_from length].
    specialize (IH (i + 1)%Z
                  (if startsWith (a :: l ++ p ++ r) p then i else acc)).
    lia.
Qed.

Lemma includes_trim_start_marker (s : jsstring) :
  includes (trim s) NOTEPAD_UPDATE_TAG_START
  = includes s NOTEPAD_UPDATE_TAG_START.
Proof.
  apply (includes_trim NOTEPAD_UPDATE_TAG_START 60%N 62%N).
  - eexists. reflexivity.
  - exists (removelast NOTEPAD_UPDATE_TAG_START). reflexivity.
  - reflexivity.
  - reflexivity.
Qed.

(** A substring is a part of the string that begins at the smaller of its
    two clamped indices. *)
Lemma substring_part (s : jsstring) (a b : Z) :
  exists lo rest,
    s = firstn lo s ++ substring s a b ++ rest
    /\ length (firstn lo s) = lo
    /\ Z.of_nat lo
       = Z.min (Z.max 0 (Z.min a (jslength s)))
           (Z.max 0 (Z.min b (jslength s))).
Proof.
  unfold substring.
  set (lo := Z.min (Z.max 0 (Z.min a (jslength s)))
               (Z.max 0 (Z.min b (jslength s)))).
  set (hi := Z.max (Z.max 0 (Z.min a (jslength s)))
               (Z.max 0 (Z.min b (jslength s)))).
  assert (Hlo : (0 <= lo <= jslength s)%Z) by (unfold jslength in *; lia).
  exists (Z.to_nat lo),
         (skipn (Z.to_nat (hi - lo)) (skipn (Z.to_nat lo) s)).
  split; [|split].
  - now rewrite firstn_skipn, firstn_skipn.
  - apply firstn_length_le. unfold jslength in Hlo. lia.
  - lia.
Qed.

(** X3: the notepad content is cut at the last start marker (line 63), so it
    never holds a start marker itself. *)
Theorem notepad_update_without_start_marker (raw c : jsstring) :
  newNotepadContent (parseAIResponse raw) = Some c ->
  includes c NOTEPAD_UPDATE_TAG_START = false.
Proof.
  intros H.
  destruct (hasNotepadBlock (trim raw)) eqn:Hb.
  2:{ unfold parseAIResponse, extractNotepad in H. rewrite Hb in H.
      destruct (extractDiscussionTag (trim raw)) as [[? ?] ?].
      discriminate H. }
  destruct (parse_with_block raw Hb) as [Hn _].
  rewrite Hn in H. injection H as <-.
  unfold notepadInner. rewrite includes_trim_start_marker.
  set (cur := trim raw) in *.
  set (si := lastIndexOf cur NOTEPAD_UPDATE_TAG_START).
  set (ei := lastIndexOf cur NOTEPAD_UPDATE_TAG_END).
  unfold hasNotepadBlock in Hb. fold si ei in Hb.
  rewrite !andb_true_iff, !negb_true_iff, !Z.eqb_neq, Z.ltb_lt in Hb.
  destruct Hb as [[[Hs He] Hlt] _].
  assert (Rs : (0 <= si <= jslength cur)%Z).
  { destruct (lastIndexOf_from_range NOTEPAD_UPDATE_TAG_START cur 0 (-1))
      as [E | E]; fold (lastIndexOf cur NOTEPAD_UPDATE_TAG_START) in E;
      fold si in E; unfold jslength; lia. }
  assert (Re : (0 <= ei <= jslength cur)%Z).
  { destruct (lastIndexOf_from_range NOTEPAD_UPDATE_TAG_END cur 0 (-1))
      as [E | E]; fold (lastIndexOf cur NOTEPAD_UPDATE_TAG_END) in E;
      fold ei in E; unfold jslength; lia. }
  change (jslength NOTEPAD_UPDATE_TAG_START) with 16%Z.
  destruct (includes (substring cur (si + 16) ei) NOTEPAD_UPDATE_TAG_START)
    eqn:Hi; [exfalso | reflexivity].
  apply includes_iff in Hi. destruct Hi as [l [r Hi]].
  destruct (substring_part cur (si + 16) ei) as [lo [rest [Hc [Hl Hlo]]]].
  rewrite Hi in Hc.
  assert (Hocc : cur = (firstn lo cur ++ l) ++ NOTEPAD_UPDATE_TAG_START
                       ++ (r ++ rest)).
  { rewrite Hc at 1. now rewrite <- !app_assoc. }
  pose proof (lastIndexOf_from_occurrence NOTEPAD_UPDATE_TAG_START
                (firstn lo cur ++ l) (r ++ rest) 0 (-1)) as Hge.
  rewrite <- Hocc in Hge.
  fold (lastIndexOf cur NOTEPAD_UPDATE_TAG_START) in Hge. fold si in Hge.
  rewrite length_app, Hl in Hge. lia.
Qed.

Lemma notepad_update_without_start_marker_witness :
  includes (lit "b") NOTEPAD_UPDATE_TAG_START = false.
Proof.
  apply (notepad_update_without_start_marker
           (lit "<notepad_update>a<notepad_update>b</notepad_update>")
           (lit "b")).
  reflexivity.
Defined.

(** *** Empty spoken text *)

(** X4: the spoken text of a response is empty exactly when the response is a
    notepad block with nothing but white space inside and nothing in front
    of it. *)
Theorem spoken_text_empty_iff (raw : jsstring) :
  spokenText (parseAIResponse raw) = []
  <-> hasNotepadBlock (trim raw) = true
      /\ notepadInner (trim raw) = []
      /\ textBeforeBlock (trim raw) = [].
Proof.
  split.
  - intros H.
    destruct (spokenText_empty_only_for_empty_block raw H) as [Hn Hd].
    destruct (hasNotepadBlock (trim raw)) eqn:Hb.
    2:{ unfold parseAIResponse, extractNotepad in Hn. rewrite Hb in Hn.
        destruct (extractDiscussionTag (trim raw)) as [[? ?] ?].
        discriminate Hn. }
    destruct (parse_with_block raw Hb) as [Hn' [Hd' Hs']].
    rewrite Hn' in Hn. injection Hn as Hn.
    rewrite Hd' in Hd.
    split; [reflexivity|]. split; [exact Hn|].
    assert (Ht : trim (textBeforeBlock (trim raw)) = textBeforeBlock (trim raw))
      by (unfold textBeforeBlock; apply trim_idem).
    destruct (textBeforeBlock (trim raw)) as [|a t] eqn:Eb; [reflexivity|].
    exfalso.
    assert (Hp : spokenText (parseAIResponse raw) = trim (extractedSpoken raw)).
    { apply spokenText_plain; rewrite Hs'.
      - exact Hd.
      - rewrite Ht. discriminate. }
    rewrite Hs', Ht in Hp. rewrite Hp in H. discriminate H.
  - intros [Hb [Hn Ht]].
    unfold parseAIResponse, extractNotepad. rewrite Hb, Hn, Ht. reflexivity.
Qed.

(** *** The pattern of the completion tag *)

(** X5: the idiom of line 79, [new RegExp(t.replace(/[.*+?^${}()|[\]\\]/g,
    '\\$&'), 'g')], gives for every [t] a pattern that lies in the
    supported fragment, is as long as [t] and matches exactly where [t]
    begins. *)
Theorem escaped_pattern_matches_literally (t : jsstring) :
  exists re,
    regexOf (escapeRegExp t) = Some re
    /\ length re = length t
    /\ forall s, matchesAt re s = startsWith s t.
Proof.
  exists (map Lit t). split; [apply regexOf_escapeRegExp|].
  split; [apply length_map|]. intros s. apply matchesAt_literal.
Qed.

End ParserMore.

(** ** The turn count, the models and the image *)

Module ShellFacts.
Import JsString Parser Orchestrator Shell JsStringFacts ParserMore.

(** *** The turn count *)

(** X6: whatever is typed into the field, the number of turns that is stored
    lies between the minimum and the maximum (line 271). *)
Theorem manual_fixed_turns_in_range (value : jsstring) :
  Z.to_nat MIN_MANUAL_FIXED_TURNS <= handleManualFixedTurnsChange value
  <= Z.to_nat MAX_MANUAL_FIXED_TURNS.
Proof.
  unfold handleManualFixedTurnsChange, MIN_MANUAL_FIXED_TURNS,
    MAX_MANUAL_FIXED_TURNS.
  destruct (parseInt10 value); lia.
Qed.

Lemma digit_bounds (c : N) (v : Z) :
  digitValue c = Some v -> (48 <= c <= 57)%N /\ v = (Z.of_N c - 48)%Z.
Proof.
  unfold digitValue.
  destruct (N.leb_spec 48 c), (N.leb_spec c 57); cbn [andb];
    intros E; try discriminate E.
  injection E as <-. split; [lia | reflexivity].
Qed.

Lemma digit_not_ws (c : N) : (48 <= c <= 57)%N -> is_ws c = false.
Proof.
  intros H. unfold is_ws.
  replace (8192 <=? c)%N with false by (symmetry; apply N.leb_gt; lia).
  repeat match goal with
         | |- context [(c <=? ?b)%N] =>
             replace (c <=? b)%N with false
               by (symmetry; apply N.leb_gt; lia)
         | |- context [(c =? ?b)%N] =>
             replace (c =? b)%N with false
               by (symmetry; apply N.eqb_neq; lia)
         end.
  destruct (9 <=? c)%N; reflexivity.
Qed.

(** X7: [parseInt] skips white space in front and stops at the first character
    that is not a digit: a digit followed by anything but a digit is read
    as its value, which is then clamped. *)
Theorem manual_fixed_turns_reads_digit (w rest : jsstring) (c : N) (v : Z) :
  forallb is_ws w = true ->
  digitValue c = Some v ->
  (forall d t, rest = d :: t -> digitValue d = None) ->
  handleManualFixedTurnsChange (w ++ c :: rest)
  = Z.to_nat (Z.max MIN_MANUAL_FIXED_TURNS (Z.min MAX_MANUAL_FIXED_TURNS v)).
Proof.
  intros Hw Hc Hr. destruct (digit_bounds c v Hc) as [Hb _].
  assert (Hp : parseInt10 (w ++ c :: rest) = Some v).
  { unfold parseInt10. rewrite (trimStart_ws_app w _ Hw).
    rewrite (trimStart_fix c rest (digit_not_ws c Hb)).
    replace (c =? 45)%N with false by (symmetry; apply N.eqb_neq; lia).
    replace (c =? 43)%N with false by (symmetry; apply N.eqb_neq; lia).
    cbn [leadingDigits]. rewrite Hc.
    replace (10 * 0 + v)%Z with v by lia.
    destruct rest as [|d t]; [reflexivity|].
    cbn [leadingDigits]. now rewrite (Hr d t eq_refl). }
  unfold handleManualFixedTurnsChange. now rewrite Hp.
Qed.

Lemma manual_fixed_turns_reads_digit_witness :
  handleManualFixedTurnsChange (lit " " ++ 51%N :: lit " turns") = 3.
Proof.
  apply (manual_fixed_turns_reads_digit (lit " ") (lit " turns") 51%N 3%Z).
  - reflexivity.
  - reflexivity.
  - intros d t H. injection H as <- _. reflexivity.
Defined.

(** X8: a field that is empty or blank gives [NaN], for which the default is
    stored (lines 268-270). *)
Theorem manual_fixed_turns_of_blank (value : jsstring) :
  forallb is_ws value = true ->
  handleManualFixedTurnsChange value = Z.to_nat DEFAULT_MANUAL_FIXED_TURNS.
Proof.
  intros H. unfold handleManualFixedTurnsChange, parseInt10.
  rewrite <- (app_nil_r value), (trimStart_ws_app value [] H).
  reflexivity.
Qed.

Lemma manual_fixed_turns_of_blank_witness :
  handleManualFixedTurnsChange (lit "  ") = 2.
Proof. apply (manual_fixed_turns_of_blank (lit "  ")). reflexivity. Defined.

(** *** The models *)

Lemma str_eqb_eq (a b : jsstring) : str_eqb a b = true <-> a = b.
Proof.
  revert b; induction a as [|c a IH]; intros [|d b]; cbn [str_eqb];
    try (split; [discriminate | discriminate]); [tauto|].
  rewrite andb_true_iff, N.eqb_eq, IH. split.
  - intros [-> ->]. reflexivity.
  - intros H. injection H as -> ->. auto.
Qed.

Lemma found_model (name : jsstring) (m : AiModel) :
  find (fun m => str_eqb (apiName m) name) MODELS = Some m ->
  In m MODELS /\ apiName m = name.
Proof.
  intros H. apply find_some in H. destruct H as [H1 H2].
  split; [exact H1 | now apply str_eqb_eq].
Qed.

(** X9: the details of the selected model (line 133): every model of the list
    is found by its API name, any other name gives the first model of the
    list. *)
Theorem current_model_details (name : jsstring) :
  In (currentModelDetails name) MODELS
  /\ (forall m, In m MODELS -> apiName m = name ->
      currentModelDetails name = m)
  /\ ((forall m, In m MODELS -> apiName m <> name) ->
      Some (currentModelDetails name) = hd_error MODELS).
Proof.
  unfold currentModelDetails.
  destruct (find (fun m => str_eqb (apiName m) name) MODELS) as [m|] eqn:E.
  - destruct (found_model name m E) as [Hin Hn].
    split; [exact Hin|]. split.
    + intros m' Hin' Hn'. subst name.
      destruct Hin as [<- | [<- | [<- | []]]];
        destruct Hin' as [<- | [<- | [<- | []]]];
        try reflexivity; discriminate Hn'.
    + intros H. exfalso. exact (H m Hin Hn).
  - split; [left; reflexivity|]. split; [|reflexivity].
    intros m Hin Hn. exfalso.
    pose proof (find_none _ _ E m Hin) as Hf. cbn beta in Hf.
    apply (proj2 (str_eqb_eq (apiName m) name)) in Hn. congruence.
Qed.

(** X10: the thinking budget that goes with every call (lines 537-542 and
    304-309): every model of the list supports it, so it is sent exactly
    when the switch is on; it is the budget of the Pro model for the API
    name of the Pro model and the other budget for every other name, also
    for a name that is not in the list. *)
Theorem thinking_budget_by_model (name : jsstring) (active : bool) :
  activeThinkingConfigOf name active
  = if active
    then Some (if str_eqb name GEMINI_PRO_MODEL_ID
               then THINKING_BUDGET_PRO_HIGH_QUALITY
               else THINKING_BUDGET_HIGH_QUALITY)
    else None.
Proof.
  unfold activeThinkingConfigOf, currentModelDetails.
  destruct (find (fun m => str_eqb (apiName m) name) MODELS) as [m|] eqn:E.
  - destruct (found_model name m E) as [Hin Hn]. subst name.
    destruct Hin as [<- | [<- | [<- | []]]]; destruct active; reflexivity.
  - assert (Hp : str_eqb name GEMINI_PRO_MODEL_ID = false).
    { destruct (str_eqb name GEMINI_PRO_MODEL_ID) eqn:Ep; [|reflexivity].
      apply str_eqb_eq in Ep. subst name. discriminate E. }
    rewrite Hp. destruct active; reflexivity.
Qed.

(** *** The image *)

Lemma splitOn_plain (s : jsstring) :
  forallb (fun c => negb (c =? 44)%N) s = true -> splitOn 44 s = [s].
Proof.
  induction s as [|c s IH]; intros H; [reflexivity|].
  cbn [forallb] in H. apply andb_true_iff in H as [H1 H2].
  apply negb_true_iff in H1. cbn [splitOn]. rewrite H1, (IH H2).
  reflexivity.
Qed.

Lemma splitOn_header (header rest : jsstring) :
  forallb (fun c => negb (c =? 44)%N) header = true ->
  splitOn 44 (header ++ 44%N :: rest) = header :: splitOn 44 rest.
Proof.
  induction header as [|c s IH]; intros H; [reflexivity|].
  cbn [forallb] in H. apply andb_true_iff in H as [H1 H2].
  apply negb_true_iff in H1. cbn [List.app splitOn]. rewrite H1, (IH H2).
  reflexivity.
Qed.

(** X11: what [fileToBase64] resolves with (line 104): for a data URL made of a
    header, a comma and a payload, neither holding a comma, the payload;
    for a result without a comma, [undefined]. *)
Theorem data_url_payload (header payload : jsstring) :
  forallb (fun c => negb (c =? 44)%N) header = true ->
  forallb (fun c => negb (c =? 44)%N) payload = true ->
  dataUrlPayload (header ++ 44%N :: payload) = Some payload
  /\ dataUrlPayload header = None.
Proof.
  intros Hh Hp. unfold dataUrlPayload.
  rewrite (splitOn_header header payload Hh), (splitOn_plain payload Hp),
    (splitOn_plain header Hh).
  split; reflexivity.
Qed.

Lemma data_url_payload_witness :
  dataUrlPayload (lit "data:image/png;base64" ++ 44%N :: lit "iVBORw0KGgo=")
  = Some (lit "iVBORw0KGgo=").
Proof.
  apply (data_url_payload (lit "data:image/png;base64") (lit "iVBORw0KGgo="));
    reflexivity.
Defined.

End ShellFacts.

(** ** More on the orchestrator *)

Module OrchestratorMore.
Import JsString Parser Orchestrator Shell JsStringFacts ParserFacts
  OrchestratorFacts.

(** *** What the state updates keep *)

Lemma dataOf_inv (st st' : AppState) :
  dataOf st = dataOf st' ->
  discussionOf st = discussionOf st'
  /\ isLoading st = isLoading st'
  /\ cancelRequest st = cancelRequest st'.
Proof.
  unfold dataOf. intros H.
  pose proof (f_equal (fun x => fst (fst x)) H) as H1.
  pose proof (f_equal (fun x => snd (fst x)) H) as H2.
  pose proof (f_equal snd H) as H3.
  auto.
Qed.

Lemma discussionOf_inv (st st' : AppState) :
  discussionOf st = discussionOf st' ->
  notepadContent st = notepadContent st'
  /\ lastNotepadUpdateBy st = lastNotepadUpdateBy st'
  /\ discussionLog st = discussionLog st'
  /\ failedStepInfo st = failedStepInfo st'
  /\ isApiKeyMissing st = isApiKeyMissing st'.
Proof.
  unfold discussionOf. intros H.
  pose proof (f_equal (fun x => fst (fst (fst (fst x)))) H) as H1.
  pose proof (f_equal (fun x => snd (fst (fst (fst x)))) H) as H2.
  pose proof (f_equal (fun x => snd (fst (fst x))) H) as H3.
  pose proof (f_equal (fun x => snd (fst x)) H) as H4.
  pose proof (f_equal snd H) as H5.
  auto.
Qed.

Lemma dataOf_notify (t : MessageText) (st : AppState) :
  dataOf (notify t st) = dataOf st.
Proof. reflexivity. Qed.

Lemma dataOf_notifyAll (ts : list MessageText) (st : AppState) :
  dataOf (notifyAll ts st) = dataOf st.
Proof.
  revert st. induction ts as [|t ts IH]; intros st; [reflexivity|].
  unfold notifyAll in *. cbn [fold_left]. rewrite IH. apply dataOf_notify.
Qed.

Lemma notifyAll_app (ts ts' : list MessageText) (st : AppState) :
  notifyAll (ts ++ ts') st = notifyAll ts' (notifyAll ts st).
Proof. apply fold_left_app. Qed.

Lemma messages_notifyAll (ts : list MessageText) (st : AppState) :
  exists ms,
    messages (notifyAll ts st) = messages st ++ ms
    /\ map msg_text ms = ts
    /\ Forall (fun m => msg_sender m = System) ms.
Proof.
  revert st. induction ts as [|t ts IH]; intros st.
  - exists []. cbn [notifyAll fold_left map]. rewrite app_nil_r. auto.
  - destruct (IH (notify t st)) as [ms [H1 [H2 H3]]].
    unfold notifyAll in *. cbn [fold_left]. rewrite H1.
    cbn [notify addMessage snd messages]. rewrite <- app_assoc.
    eexists. split; [reflexivity|]. cbn [List.app map msg_text].
    rewrite H2. split; [reflexivity|]. constructor; [reflexivity | exact H3].
Qed.

Lemma dataOf_recorded (who : MessageSender) (p : MessagePurpose)
    (r : ParsedAIResponse) (lg : list LogEntry) (st st' : AppState) :
  dataOf st = dataOf st' ->
  dataOf (recorded who p r lg st) = dataOf (recorded who p r lg st').
Proof.
  intros H. destruct (dataOf_inv _ _ H) as [H1 [H2 H3]].
  destruct (discussionOf_inv _ _ H1) as [D1 [D2 [D3 [D4 D5]]]].
  unfold recorded, applyNotepad, dataOf, discussionOf.
  destruct (newNotepadContent r);
    cbn [setDiscussionLog addMessage snd notepadContent lastNotepadUpdateBy
         discussionLog failedStepInfo isApiKeyMissing isLoading
         cancelRequest];
    congruence.
Qed.

Lemma recorded_spec (who : MessageSender) (p : MessagePurpose)
    (r : ParsedAIResponse) (lg : list LogEntry) (st : AppState) :
  notepadContent (recorded who p r lg st)
  = match newNotepadContent r with
    | Some c => c
    | None => notepadContent st
    end
  /\ lastNotepadUpdateBy (recorded who p r lg st)
     = match newNotepadContent r with
       | Some _ => Some who
       | None => lastNotepadUpdateBy st
       end
  /\ discussionLog (recorded who p r lg st) = lg
  /\ failedStepInfo (recorded who p r lg st) = failedStepInfo st
  /\ isApiKeyMissing (recorded who p r lg st) = isApiKeyMissing st
  /\ isLoading (recorded who p r lg st) = isLoading st
  /\ cancelRequest (recorded who p r lg st) = cancelRequest st
  /\ messages (recorded who p r lg st)
     = messages st ++
       [{| msg_id := nextId st; msg_text := Spoken (spokenText r);
           msg_sender := who; msg_purpose := p |}].
Proof.
  unfold recorded, applyNotepad.
  destruct (newNotepadContent r); repeat split.
Qed.

(** *** The ways out of the discussion loop *)

(** What a handler that finds the cancel flag set leaves behind. *)
Lemma stopped_spec (env : Env) (f : Flow) (st : AppState) :
  cancelRequest st = true ->
  control (stopped env f st) = Finished Cancelled
  /\ discussionOf (app (stopped env f st)) = discussionOf st
  /\ isLoading (app (stopped env f st)) = false
  /\ exists ms,
       messages (app (stopped env f st)) = messages st ++ ms
       /\ forallb isUserStopped ms = true
       /\ length ms = if env_failedStepInfo env then 0 else 2.
Proof.
  intros Hc. split; [apply control_stopped|].
  unfold stopped, finish, flowFinally, manualRetryFinally.
  destruct f as [c | prior init]; cbn [isContinued app];
    destruct (env_failedStepInfo env);
    cbn [setIsLoading cancelRequest notify addMessage snd negb andb orb];
    rewrite ?Hc;
    cbn [setIsLoading cancelRequest notify addMessage snd negb andb orb
         messages isLoading];
    rewrite ?Hc; cbn [andb orb negb];
    (split; [reflexivity|]); (split; [reflexivity|]).
  - exists []. now rewrite app_nil_r.
  - eexists. rewrite <- app_assoc. split; [reflexivity|]. split; reflexivity.
  - exists []. now rewrite app_nil_r.
  - eexists. cbn [messages]. rewrite <- app_assoc.
    split; [reflexivity|]. split; reflexivity.
Qed.

Lemma enterFinal_uniform (env : Env) (f : Flow) (l : Locals) (st : AppState) :
  enterFinal env f l st
  = if cancelRequest st then stopped env f st
    else {| app := notify Synthesizing st;
            control := AwaitCall f CognitoFinalAnswer 0 l |}.
Proof.
  destruct (cancelRequest st) eqn:E.
  - unfold enterFinal. now rewrite E.
  - now apply enterFinal_live.
Qed.

Lemma beforeCognitoReply_uniform (env : Env) (f : Flow) (turn : nat)
    (l : Locals) :
  exists t s',
    (s' = CognitoFinalAnswer \/ s' = CognitoReplyToMuseTurn turn)
    /\ forall st,
         beforeCognitoReply env f turn l st
         = if cancelRequest st then stopped env f st
           else {| app := notify t st; control := AwaitCall f s' 0 l |}.
Proof.
  unfold beforeCognitoReply.
  destruct (match f with
            | Fresh _ => false
            | Continued prior _ =>
                isAiDriven env && previousAISignaledStop l && prior
            end).
  { exists Synthesizing, CognitoFinalAnswer. split; [now left|].
    intros st. rewrite enterFinal_uniform. now destruct (cancelRequest st). }
  destruct (isFixedTurns env && (manualFixedTurns env - 1 <=? turn)).
  { exists Synthesizing, CognitoFinalAnswer. split; [now left|].
    intros st. rewrite enterFinal_uniform. now destruct (cancelRequest st). }
  exists CognitoResponding, (CognitoReplyToMuseTurn turn).
  split; [now right|]. intros st. rewrite enterFinal_uniform.
  destruct (cancelRequest st) eqn:E; [reflexivity|].
  now apply beginAttempt_live.
Qed.

Lemma loopHead_uniform (env : Env) (f : Flow) (turn : nat) (skip : bool)
    (l : Locals) :
  exists t s',
    (s' = CognitoFinalAnswer \/ s' = MuseReplyToCognitoTurn turn
     \/ (s' = CognitoReplyToMuseTurn turn /\ skip = true))
    /\ forall st,
         loopHead env f turn skip l st
         = if cancelRequest st then stopped env f st
           else {| app := notify t st; control := AwaitCall f s' 0 l |}.
Proof.
  unfold loopHead.
  destruct (isFixedTurns env && (manualFixedTurns env <=? turn)).
  { exists Synthesizing, CognitoFinalAnswer. split; [now left|].
    intros st. rewrite enterFinal_uniform. now destruct (cancelRequest st). }
  destruct (isAiDriven env && previousAISignaledStop l &&
            match f with
            | Fresh cognitoSignal => cognitoSignal && (0 <? turn)
            | Continued prior init => prior && (init <? turn)
            end).
  { exists Synthesizing, CognitoFinalAnswer. split; [now left|].
    intros st. rewrite enterFinal_uniform. now destruct (cancelRequest st). }
  destruct (match f with
            | Fresh _ => false
            | Continued _ init => skip && (turn =? init)
            end) eqn:Es.
  { destruct (beforeCognitoReply_uniform env f turn l) as [t [s' [Hs Hb]]].
    exists t, s'. split.
    - destruct Hs as [-> | ->]; [now left|]. right. right. split; [easy|].
      destruct f; [discriminate Es|]. now destruct skip.
    - intros st. rewrite enterFinal_uniform, Hb.
      now destruct (cancelRequest st). }
  exists MuseResponding, (MuseReplyToCognitoTurn turn).
  split; [right; now left|]. intros st. rewrite enterFinal_uniform.
  destruct (cancelRequest st) eqn:E; [reflexivity|].
  now apply beginAttempt_live.
Qed.

(** *** A successful step *)

Lemma onSuccess_recorded (env : Env) (f : Flow) (s : StepIdentifier)
    (l : Locals) (text : jsstring) (st : AppState) :
  onSuccess env f s l text st
  = let r := parseAIResponse text in
    let st2 :=
      recorded (stepSender s) (stepPurpose s) r
        (currentDiscussionLog l ++ [(stepSender s, spokenText r)]) st in
    match s with
    | CognitoInitialToMuse =>
        let l' :=
          recordTurn Cognito r (isAiDriven env && discussionShouldEnd r) l in
        loopHead env (Fresh (discussionShouldEnd r)) 0 false l'
          (if isAiDriven env && discussionShouldEnd r
           then notify (SuggestedEnd Cognito Muse) st2 else st2)
    | MuseReplyToCognitoTurn turn =>
        let l' := recordTurn Muse r (discussionShouldEnd r) l in
        if isAiDriven env then
          if discussionShouldEnd r && previousAISignaledStop l then
            enterFinal env f l' (notify (BothAgreed Cognito Muse) st2)
          else if discussionShouldEnd r then
            beforeCognitoReply env f turn l'
              (notify (SuggestedEnd Muse Cognito) st2)
          else beforeCognitoReply env f turn l' st2
        else beforeCognitoReply env f turn l' st2
    | CognitoReplyToMuseTurn turn =>
        let l' := recordTurn Cognito r (discussionShouldEnd r) l in
        let next st :=
          if isContinued f && cancelRequest st then enterFinal env f l' st
          else loopHead env f (S turn) false l' st in
        if isAiDriven env then
          if discussionShouldEnd r && previousAISignaledStop l then
            enterFinal env f l' (notify (BothAgreed Muse Cognito) st2)
          else if discussionShouldEnd r then
            next (notify (SuggestedEnd Cognito Muse) st2)
          else next st2
        else next st2
    | CognitoFinalAnswer =>
        finish env f Completed
          (applyNotepad r Cognito
             (snd (addMessage (Spoken (spokenText r)) Cognito FinalResponse
                     st)))
    end.
Proof. destruct s; reflexivity. Qed.

Lemma cancel_noticed (t : MessageText) (who : MessageSender)
    (p : MessagePurpose) (r : ParsedAIResponse) (lg : list LogEntry)
    (st : AppState) :
  cancelRequest (recorded who p r lg st) = cancelRequest st
  /\ cancelRequest (notify t (recorded who p r lg st)) = cancelRequest st.
Proof.
  destruct (recorded_spec who p r lg st) as [_ [_ [_ [_ [_ [_ [H _]]]]]]].
  split; [exact H|]. cbn [notify addMessage snd cancelRequest]. exact H.
Qed.

(** Closes the case of [onSuccess_uniform] in which the calls [Hb] of the
    loop functions take the turn on. *)
Ltac taken_on Hc :=
  rewrite onSuccess_recorded; cbn zeta beta iota;
  match goal with
  | H : ?r = parseAIResponse _ |- _ => rewrite <- H
  end;
  repeat match goal with
         | H : _ = true |- _ => rewrite H
         | H : _ = false |- _ => rewrite H
         end;
  cbn [andb orb isContinued];
  repeat match goal with
         | H : forall st, _ = _ |- _ => rewrite H
         end;
  rewrite ?enterFinal_uniform;
  repeat match goal with
         | |- context [cancelRequest (notify ?t (recorded ?w ?p ?r ?lg ?st))] =>
             rewrite (proj2 (cancel_noticed t w p r lg st))
         | |- context [cancelRequest (recorded ?w ?p ?r ?lg ?st)] =>
             rewrite (proj1 (cancel_noticed PreparingInitial w p r lg st))
         end;
  rewrite ?Hc, ?andb_false_r; cbn [andb]; rewrite ?enterFinal_uniform;
  repeat match goal with
         | H : forall st, _ = _ |- _ => rewrite H
         end;
  repeat match goal with
         | |- context [cancelRequest (notify ?t (recorded ?w ?p ?r ?lg ?st))] =>
             rewrite (proj2 (cancel_noticed t w p r lg st))
         | |- context [cancelRequest (recorded ?w ?p ?r ?lg ?st)] =>
             rewrite (proj1 (cancel_noticed PreparingInitial w p r lg st))
         end;
  rewrite ?Hc; reflexivity.

(** A successful call of a step of the discussion: in every mode and in
    every flow, the turn is recorded, some notifications are posted, and
    the handler waits for the first attempt of a step behind it or of the
    final answer. What is posted and what comes next does not depend on the
    state. *)
Lemma onSuccess_uniform (env : Env) (f : Flow) (s : StepIdentifier)
    (l : Locals) (text : jsstring) :
  s <> CognitoFinalAnswer ->
  exists s' notices sig,
    mayFollow s s' = true
    /\ forall st,
         cancelRequest st = false ->
         onSuccess env f s l text st
         = {| app :=
                notifyAll notices
                  (recorded (stepSender s) (stepPurpose s)
                     (parseAIResponse text)
                     (currentDiscussionLog l
                      ++ [(stepSender s,
                           spokenText (parseAIResponse text))]) st);
              control :=
                AwaitCall
                  (match s with
                   | CognitoInitialToMuse =>
                       Fresh (discussionShouldEnd (parseAIResponse text))
                   | _ => f
                   end) s' 0
                  (recordTurn (stepSender s) (parseAIResponse text) sig l) |}.
Proof.
  intros Hs. remember (parseAIResponse text) as r eqn:Er.
  destruct s as [|turn|turn|]; [| | |congruence]; clear Hs.
  - destruct (loopHead_uniform env (Fresh (discussionShouldEnd r)) 0 false
                (recordTurn Cognito r (isAiDriven env && discussionShouldEnd r)
                   l)) as [t [s1 [Hs1 Hb]]].
    assert (Hf : mayFollow CognitoInitialToMuse s1 = true).
    { destruct Hs1 as [-> | [-> | [_ Hk]]]; [reflexivity | reflexivity|].
      discriminate Hk. }
    exists s1.
    destruct (isAiDriven env && discussionShouldEnd r) eqn:Ha.
    + exists [SuggestedEnd Cognito Muse; t], true.
      split; [exact Hf|]. intros st Hc. taken_on Hc.
    + exists [t], false. split; [exact Hf|]. intros st Hc. taken_on Hc.
  - destruct (beforeCognitoReply_uniform env f turn
                (recordTurn Muse r (discussionShouldEnd r) l))
      as [t [s1 [Hs1 Hb]]].
    assert (Hf : mayFollow (MuseReplyToCognitoTurn turn) s1 = true).
    { destruct Hs1 as [-> | ->]; [reflexivity|]. cbn [mayFollow].
      apply Nat.eqb_refl. }
    destruct (isAiDriven env) eqn:Ha.
    + destruct (discussionShouldEnd r) eqn:Hr.
      * destruct (previousAISignaledStop l) eqn:Hp.
        -- exists CognitoFinalAnswer, [BothAgreed Cognito Muse; Synthesizing],
             true.
           split; [reflexivity|]. intros st Hc. taken_on Hc.
        -- exists s1, [SuggestedEnd Muse Cognito; t], true.
           split; [exact Hf|]. intros st Hc. taken_on Hc.
      * exists s1, [t], false. split; [exact Hf|]. intros st Hc. taken_on Hc.
    + exists s1, [t], (discussionShouldEnd r).
      split; [exact Hf|]. intros st Hc. taken_on Hc.
  - destruct (loopHead_uniform env f (S turn) false
                (recordTurn Cognito r (discussionShouldEnd r) l))
      as [t [s1 [Hs1 Hb]]].
    assert (Hf : mayFollow (CognitoReplyToMuseTurn turn) s1 = true).
    { destruct Hs1 as [-> | [-> | [_ Hk]]]; [reflexivity | |discriminate Hk].
      cbn [mayFollow]. apply Nat.eqb_refl. }
    destruct (isAiDriven env) eqn:Ha.
    + destruct (discussionShouldEnd r) eqn:Hr.
      * destruct (previousAISignaledStop l) eqn:Hp.
        -- exists CognitoFinalAnswer, [BothAgreed Muse Cognito; Synthesizing],
             true.
           split; [reflexivity|]. intros st Hc. taken_on Hc.
        -- exists s1, [SuggestedEnd Cognito Muse; t], true.
           split; [exact Hf|]. intros st Hc. taken_on Hc.
      * exists s1, [t], false. split; [exact Hf|]. intros st Hc. taken_on Hc.
    + exists s1, [t], (discussionShouldEnd r).
      split; [exact Hf|]. intros st Hc. taken_on Hc.
Qed.

Lemma finish_spec (env : Env) (f : Flow) (o : Outcome) (st : AppState) :
  cancelRequest st = false ->
  discussionOf (app (finish env f o st)) = discussionOf st
  /\ isLoading (app (finish env f o st)) = false
  /\ messages (app (finish env f o st)) = messages st
  /\ nextId (app (finish env f o st)) = nextId st.
Proof.
  intros Hc. unfold finish, flowFinally, manualRetryFinally.
  destruct f; destruct (env_failedStepInfo env);
    repeat (cbn [isContinued app andb orb negb cancelRequest setIsLoading];
            rewrite ?Hc);
    repeat split.
Qed.

Lemma dataOf_finish (env : Env) (f : Flow) (o : Outcome) (st st' : AppState) :
  dataOf st = dataOf st' ->
  dataOf (app (finish env f o st)) = dataOf (app (finish env f o st')).
Proof.
  intros H. destruct (dataOf_inv _ _ H) as [H1 [H2 H3]].
  destruct (discussionOf_inv _ _ H1) as [D1 [D2 [D3 [D4 D5]]]].
  unfold finish, flowFinally, manualRetryFinally.
  destruct f; cbn [isContinued app]; cbn [cancelRequest setIsLoading];
    rewrite <- ?H3; destruct (cancelRequest st) eqn:Ec;
    destruct (env_failedStepInfo env);
    cbn [andb orb negb setIsLoading notify addMessage snd cancelRequest];
    rewrite <- ?H3, ?Ec; cbn [andb orb negb];
    unfold dataOf, discussionOf;
    cbn [setIsLoading notify addMessage snd notepadContent
         lastNotepadUpdateBy discussionLog failedStepInfo isApiKeyMissing
         isLoading cancelRequest];
    congruence.
Qed.

Lemma dataOf_applyNotepad (r : ParsedAIResponse) (who : MessageSender)
    (st st' : AppState) :
  dataOf st = dataOf st' ->
  dataOf (applyNotepad r who st) = dataOf (applyNotepad r who st').
Proof.
  intros H. destruct (dataOf_inv _ _ H) as [H1 [H2 H3]].
  destruct (discussionOf_inv _ _ H1) as [D1 [D2 [D3 [D4 D5]]]].
  unfold applyNotepad, dataOf, discussionOf.
  destruct (newNotepadContent r);
    cbn [notepadContent lastNotepadUpdateBy discussionLog failedStepInfo
         isApiKeyMissing isLoading cancelRequest];
    congruence.
Qed.

(** *** Stopping *)

(** X12: a call that returns after the user asked to stop is thrown away,
    whatever it returned: the handler ends, nothing is shown of the result,
    notepad, discussion log, checkpoint and credentials flag stay as they
    were. The only messages added are notices that the user stopped the
    response: none when the handler was created while a checkpoint was
    stored, else two (in a query one by the early return and one by the
    [finally] block, in a continuation one by its [finally] block and one
    by that of [handleManualRetry]). *)
Theorem cancelled_call_discards_result (env : Env) (f : Flow)
    (s : StepIdentifier) (attempt : nat) (l : Locals) (st : AppState)
    (cancelled : bool) (r : ApiResult) :
  cancelled || cancelRequest st = true ->
  let m :=
    step env {| app := st; control := AwaitCall f s attempt l |}
      (CallReturned cancelled r) in
  control m = Finished Cancelled
  /\ discussionOf (app m) = discussionOf st
  /\ isLoading (app m) = false
  /\ exists ms,
       messages (app m) = messages st ++ ms
       /\ forallb isUserStopped ms = true
       /\ length ms = if env_failedStepInfo env then 0 else 2.
Proof.
  intros H m. subst m. unfold step. cbn [control app].
  unfold onCallReturned.
  set (st0 := if cancelled then setCancelRequest true st else st).
  assert (Hc : cancelRequest st0 = true).
  { subst st0. destruct cancelled; [reflexivity | exact H]. }
  assert (Hd : discussionOf st0 = discussionOf st)
    by (subst st0; now destruct cancelled).
  assert (Hm : messages st0 = messages st)
    by (subst st0; now destruct cancelled).
  rewrite Hc. rewrite <- Hd, <- Hm. now apply stopped_spec.
Qed.

Lemma cancelled_call_discards_result_witness :
  control
    (step (plainEnv AiDriven 2)
       {| app := initialState [];
          control :=
            AwaitCall (Fresh false) (MuseReplyToCognitoTurn 0) 0
              exampleLocals |}
       (CallReturned true {| r_text := lit "late"; r_error := None |}))
  = Finished Cancelled.
Proof.
  exact (proj1 (cancelled_call_discards_result (plainEnv AiDriven 2)
                  (Fresh false) (MuseReplyToCognitoTurn 0) 0 exampleLocals
                  (initialState []) true
                  {| r_text := lit "late"; r_error := None |} eq_refl)).
Defined.

(** X13: [handleStopGenerating] sets the cancel flag only while the component is
    loading. Pressed then, it makes the suspended handler end at the event
    it waits for, be it the return of a call, of the call of a manual retry,
    or the end of a retry delay: nothing of the discussion changes any more
    and no later event is handled. Pressed while nothing is loading, it
    changes nothing. *)
Theorem stop_generating_cancels (env : Env) (m : Machine) (e : Event) :
  resumes (control m) e = true ->
  let m' := step env (stopPressed m) e in
  if isLoading (app m) then
    control m' = Finished Cancelled
    /\ discussionOf (app m') = discussionOf (app m)
    /\ isLoading (app m') = false
    /\ forall es, run env m' es = m'
  else m' = step env m e.
Proof.
  intros Hr m'. subst m'. unfold stopPressed, handleStopGenerating.
  destruct m as [st c]. cbn [app control] in *.
  destruct (isLoading st) eqn:El; [|reflexivity].
  assert (Hgoal :
    control (step env {| app := setCancelRequest true st; control := c |} e)
    = Finished Cancelled
    /\ discussionOf
         (app (step env {| app := setCancelRequest true st; control := c |}
                 e))
       = discussionOf st
    /\ isLoading
         (app (step env {| app := setCancelRequest true st; control := c |}
                 e)) = false).
  { destruct c as [f s attempt l | f s attempt l | cp | o | input file];
      destruct e as [cancelled r | cancelled | cancelled result]; try discriminate Hr.
    - unfold step. cbn [control app]. unfold onCallReturned.
      set (st0 := if cancelled
                  then setCancelRequest true (setCancelRequest true st)
                  else setCancelRequest true st).
      assert (Hc : cancelRequest st0 = true)
        by (subst st0; now destruct cancelled).
      assert (Hd : discussionOf st0 = discussionOf st)
        by (subst st0; now destruct cancelled).
      rewrite Hc. destruct (stopped_spec env f st0 Hc) as [H1 [H2 [H3 _]]].
      split; [exact H1|]. split; [rewrite H2; exact Hd | exact H3].
    - unfold step. cbn [control app]. unfold onDelayElapsed, beginAttempt.
      set (st0 := if cancelled
                  then setCancelRequest true (setCancelRequest true st)
                  else setCancelRequest true st).
      assert (Hc : cancelRequest st0 = true)
        by (subst st0; now destruct cancelled).
      assert (Hd : discussionOf st0 = discussionOf st)
        by (subst st0; now destruct cancelled).
      rewrite Hc. destruct (stopped_spec env f st0 Hc) as [H1 [H2 [H3 _]]].
      split; [exact H1|]. split; [rewrite H2; exact Hd | exact H3].
    - unfold step. cbn [control app]. unfold onManualReturned.
      set (st0 := if cancelled
                  then setCancelRequest true (setCancelRequest true st)
                  else setCancelRequest true st).
      assert (Hc : cancelRequest st0 = true)
        by (subst st0; now destruct cancelled).
      assert (Hd : discussionOf st0 = discussionOf st)
        by (subst st0; now destruct cancelled).
      rewrite Hc. cbn [control app]. unfold manualRetryFinally.
      rewrite Hc, orb_true_r. cbn [setIsLoading cancelRequest].
      rewrite Hc. rewrite <- Hd.
      destruct (env_failedStepInfo env); repeat split. }
  destruct Hgoal as [H1 [H2 H3]].
  split; [exact H1|]. split; [exact H2|]. split; [exact H3|].
  intros es. now apply (run_finished env es _ Cancelled).
Qed.

Lemma stop_generating_cancels_witness :
  control
    (step (plainEnv AiDriven 2)
       (stopPressed
          (handleSendMessage (plainEnv AiDriven 2) (lit "q") None
             (initialState [])))
       (ok (lit "late")))
  = Finished Cancelled.
Proof.
  exact (proj1 (stop_generating_cancels (plainEnv AiDriven 2)
                  (handleSendMessage (plainEnv AiDriven 2) (lit "q") None
                     (initialState []))
                  (ok (lit "late")) eq_refl)).
Defined.

(** *** The start of a continuation *)

Lemma cancel_notify (t : MessageText) (st : AppState) :
  cancelRequest (notify t st) = cancelRequest st.
Proof. reflexivity. Qed.

Lemma cancel_setDiscussionLog (lg : list LogEntry) (st : AppState) :
  cancelRequest (setDiscussionLog lg st) = cancelRequest st.
Proof. reflexivity. Qed.

Lemma cancel_setFailedStepInfo (x : option FailedStepPayload)
    (st : AppState) :
  cancelRequest (setFailedStepInfo x st) = cancelRequest st.
Proof. reflexivity. Qed.

Lemma continue_decide (env : Env) (f : Flow) (init : nat) (skip : bool)
    (l : Locals) (agree : bool) :
  exists t s',
    (s' = CognitoFinalAnswer \/ s' = MuseReplyToCognitoTurn init
     \/ (s' = CognitoReplyToMuseTurn init /\ skip = true))
    /\ forall st,
         (if agree then enterFinal env f l st
          else loopHead env f init skip l st)
         = if cancelRequest st then stopped env f st
           else {| app := notify t st; control := AwaitCall f s' 0 l |}.
Proof.
  destruct agree.
  - exists Synthesizing, CognitoFinalAnswer. split; [now left|].
    intros st. apply enterFinal_uniform.
  - apply loopHead_uniform.
Qed.

(** The locals a continuation starts with. *)
Lemma continue_unfold (env : Env) (cp : FailedStepPayload)
    (r : ParsedAIResponse) (st : AppState) :
  continueDiscussionAfterSuccessfulRetry env cp r st
  = let l :=
      {| userInput := userInputForFlow cp;
         l_imageApiPart := imageApiPartForFlow cp;
         currentDiscussionLog :=
           discussionLogBeforeFailure cp ++ [(fs_sender cp, spokenText r)];
         lastTurnTextForLog := spokenText r;
         previousAISignaledStop := isAiDriven env && discussionShouldEnd r |}
    in
    let prior :=
      match previousAISignaledStopForResume cp with
      | Some b => b
      | None => false
      end in
    let turnIndex :=
      match currentTurnIndexForResume cp with
      | Some t => t
      | None => 0
      end in
    let st0 := setDiscussionLog (currentDiscussionLog l) st in
    let agree := isAiDriven env && discussionShouldEnd r && prior in
    let signal := isAiDriven env && discussionShouldEnd r in
    match stepIdentifier cp with
    | CognitoInitialToMuse =>
        let st1 :=
          if signal then notify (SuggestedEnd Cognito Muse) st0 else st0 in
        if agree then enterFinal env (Continued prior 0) l st1
        else loopHead env (Continued prior 0) 0 false l st1
    | MuseReplyToCognitoTurn _ =>
        let st1 :=
          if agree then notify (BothAgreed Cognito Muse) st0
          else if signal then notify (SuggestedEnd Muse Cognito) st0
          else st0 in
        if agree then enterFinal env (Continued prior turnIndex) l st1
        else loopHead env (Continued prior turnIndex) turnIndex true l st1
    | CognitoReplyToMuseTurn _ =>
        let st1 :=
          if agree then notify (BothAgreed Muse Cognito) st0
          else if signal then notify (SuggestedEnd Cognito Muse) st0
          else st0 in
        if agree then enterFinal env (Continued prior (turnIndex + 1)) l st1
        else loopHead env (Continued prior (turnIndex + 1)) (turnIndex + 1)
               false l st1
    | CognitoFinalAnswer =>
        {| app := manualRetryFinally env (setIsLoading false st0);
           control := Finished Completed |}
    end.
Proof.
  unfold continueDiscussionAfterSuccessfulRetry.
  cbn [previousAISignaledStop currentDiscussionLog].
  destruct (stepIdentifier cp); cbn zeta;
    destruct (isAiDriven env), (discussionShouldEnd r); reflexivity.
Qed.

(** A continuation of a step of the discussion: the log is set, some
    notifications are posted and the handler waits for the first attempt of
    a step; what is posted and which step it is does not depend on the
    state. *)
Lemma continue_uniform (env : Env) (cp : FailedStepPayload)
    (r : ParsedAIResponse) :
  stepIdentifier cp <> CognitoFinalAnswer ->
  exists s' notices init,
    s' <> CognitoInitialToMuse
    /\ forall st,
         cancelRequest st = false ->
         continueDiscussionAfterSuccessfulRetry env cp r st
         = {| app :=
                notifyAll notices
                  (setDiscussionLog
                     (discussionLogBeforeFailure cp
                      ++ [(fs_sender cp, spokenText r)]) st);
              control :=
                AwaitCall
                  (Continued
                     match previousAISignaledStopForResume cp with
                     | Some b => b
                     | None => false
                     end init) s' 0
                  {| userInput := userInputForFlow cp;
                     l_imageApiPart := imageApiPartForFlow cp;
                     currentDiscussionLog :=
                       discussionLogBeforeFailure cp
                       ++ [(fs_sender cp, spokenText r)];
                     lastTurnTextForLog := spokenText r;
                     previousAISignaledStop :=
                       isAiDriven env && discussionShouldEnd r |} |}.
Proof.
  intros Hs.
  remember {| userInput := userInputForFlow cp;
              l_imageApiPart := imageApiPartForFlow cp;
              currentDiscussionLog :=
                discussionLogBeforeFailure cp
                ++ [(fs_sender cp, spokenText r)];
              lastTurnTextForLog := spokenText r;
              previousAISignaledStop :=
                isAiDriven env && discussionShouldEnd r |} as l eqn:El.
  remember (match previousAISignaledStopForResume cp with
            | Some b => b
            | None => false
            end) as prior eqn:Ep.
  remember (match currentTurnIndexForResume cp with
            | Some t => t
            | None => 0
            end) as turnIndex eqn:Et.
  remember (isAiDriven env && discussionShouldEnd r && prior) as agree
    eqn:Ea.
  remember (isAiDriven env && discussionShouldEnd r) as signal eqn:Eg.
  assert (Hlog : currentDiscussionLog l
                 = discussionLogBeforeFailure cp
                   ++ [(fs_sender cp, spokenText r)])
    by (subst l; reflexivity).
  assert (Hunf : forall st,
            continueDiscussionAfterSuccessfulRetry env cp r st
            = match stepIdentifier cp with
              | CognitoInitialToMuse =>
                  if agree
                  then enterFinal env (Continued prior 0) l
                         (if signal
                          then notify (SuggestedEnd Cognito Muse)
                                 (setDiscussionLog (currentDiscussionLog l) st)
                          else setDiscussionLog (currentDiscussionLog l) st)
                  else loopHead env (Continued prior 0) 0 false l
                         (if signal
                          then notify (SuggestedEnd Cognito Muse)
                                 (setDiscussionLog (currentDiscussionLog l) st)
                          else setDiscussionLog (currentDiscussionLog l) st)
              | MuseReplyToCognitoTurn _ =>
                  if agree
                  then enterFinal env (Continued prior turnIndex) l
                         (if agree
                          then notify (BothAgreed Cognito Muse)
                                 (setDiscussionLog (currentDiscussionLog l) st)
                          else if signal
                          then notify (SuggestedEnd Muse Cognito)
                                 (setDiscussionLog (currentDiscussionLog l) st)
                          else setDiscussionLog (currentDiscussionLog l) st)
                  else loopHead env (Continued prior turnIndex) turnIndex
                         true l
                         (if agree
                          then notify (BothAgreed Cognito Muse)
                                 (setDiscussionLog (currentDiscussionLog l) st)
                          else if signal
                          then notify (SuggestedEnd Muse Cognito)
                                 (setDiscussionLog (currentDiscussionLog l) st)
                          else setDiscussionLog (currentDiscussionLog l) st)
              | CognitoReplyToMuseTurn _ =>
                  if agree
                  then enterFinal env (Continued prior (turnIndex + 1)) l
                         (if agree
                          then notify (BothAgreed Muse Cognito)
                                 (setDiscussionLog (currentDiscussionLog l) st)
                          else if signal
                          then notify (SuggestedEnd Cognito Muse)
                                 (setDiscussionLog (currentDiscussionLog l) st)
                          else setDiscussionLog (currentDiscussionLog l) st)
                  else loopHead env (Continued prior (turnIndex + 1))
                         (turnIndex + 1) false l
                         (if agree
                          then notify (BothAgreed Muse Cognito)
                                 (setDiscussionLog (currentDiscussionLog l) st)
                          else if signal
                          then notify (SuggestedEnd Cognito Muse)
                                 (setDiscussionLog (currentDiscussionLog l) st)
                          else setDiscussionLog (currentDiscussionLog l) st)
              | CognitoFinalAnswer =>
                  {| app :=
                       manualRetryFinally env
                         (setIsLoading false
                            (setDiscussionLog (currentDiscussionLog l) st));
                     control := Finished Completed |}
              end).
  { intros st. rewrite continue_unfold. subst. reflexivity. }
  rewrite <- Hlog. clear El Ep Et Ea Eg Hlog.
  destruct (stepIdentifier cp) as [|k|k|] eqn:Hid; [| | |congruence];
    clear Hs.
  - destruct (continue_decide env (Continued prior 0) 0 false l agree)
      as [t [s1 [Hs1 Hd]]].
    exists s1, (if signal then [SuggestedEnd Cognito Muse; t] else [t]), 0.
    split.
    { destruct Hs1 as [-> | [-> | [-> _]]]; discriminate. }
    intros st Hc. rewrite Hunf, Hd.
    destruct signal;
      rewrite ?cancel_notify, ?cancel_setDiscussionLog, Hc; reflexivity.
  - destruct (continue_decide env (Continued prior turnIndex) turnIndex true l
                agree) as [t [s1 [Hs1 Hd]]].
    exists s1,
      (if agree then [BothAgreed Cognito Muse; t]
       else if signal then [SuggestedEnd Muse Cognito; t] else [t]),
      turnIndex.
    split.
    { destruct Hs1 as [-> | [-> | [-> _]]]; discriminate. }
    intros st Hc. rewrite Hunf, Hd.
    destruct agree, signal;
      rewrite ?cancel_notify, ?cancel_setDiscussionLog, Hc; reflexivity.
  - destruct (continue_decide env (Continued prior (turnIndex + 1))
                (turnIndex + 1) false l agree) as [t [s1 [Hs1 Hd]]].
    exists s1,
      (if agree then [BothAgreed Muse Cognito; t]
       else if signal then [SuggestedEnd Cognito Muse; t] else [t]),
      (turnIndex + 1).
    split.
    { destruct Hs1 as [-> | [-> | [-> _]]]; discriminate. }
    intros st Hc. rewrite Hunf, Hd.
    destruct agree, signal;
      rewrite ?cancel_notify, ?cancel_setDiscussionLog, Hc; reflexivity.
Qed.

(** *** What an event can do *)

Lemma final_or_not (s : StepIdentifier) :
  s = CognitoFinalAnswer \/ s <> CognitoFinalAnswer.
Proof. destruct s; [right | right | right | left]; congruence. Qed.

Lemma authAbort_spec (env : Env) (f : Flow) (msg : jsstring) (st : AppState) :
  cancelRequest st = false ->
  control (authAbort env f msg st) = Finished AuthAborted
  /\ isLoading (app (authAbort env f msg st)) = false
  /\ failedStepInfo (app (authAbort env f msg st)) = failedStepInfo st
  /\ discussionLog (app (authAbort env f msg st)) = discussionLog st
  /\ notepadContent (app (authAbort env f msg st)) = notepadContent st.
Proof.
  intros Hc. unfold authAbort.
  match goal with
  | |- context [finish env f AuthAborted ?x] => set (st' := x)
  end.
  assert (Hc' : cancelRequest st' = false)
    by (subst st'; destruct (env_messagesInclude env msg); exact Hc).
  assert (Hf : failedStepInfo st' = failedStepInfo st)
    by (subst st'; now destruct (env_messagesInclude env msg)).
  assert (Hl : discussionLog st' = discussionLog st)
    by (subst st'; now destruct (env_messagesInclude env msg)).
  assert (Hn : notepadContent st' = notepadContent st)
    by (subst st'; now destruct (env_messagesInclude env msg)).
  destruct (finish_spec env f AuthAborted st' Hc') as [H1 [H2 _]].
  destruct (discussionOf_inv _ _ H1) as [D1 [_ [D3 [D4 _]]]].
  split; [reflexivity|]. split; [exact H2|].
  rewrite D4, D3, D1. auto.
Qed.

(** What the return of a call leads to: the handler ends; or it waits for
    the retry delay, nothing but the messages changed; or the turn is
    recorded and it waits for the first attempt of a later step. *)
Lemma call_returned_cases (env : Env) (f : Flow) (s : StepIdentifier)
    (a : nat) (l : Locals) (st : AppState) (c : bool) (r : ApiResult) :
  let m' :=
    step env {| app := st; control := AwaitCall f s a l |}
      (CallReturned c r) in
  (exists o,
     control m' = Finished o /\ o <> Rejected
     /\ isLoading (app m') = false
     /\ match o with
        | Failed =>
            exists cp,
              failedStepInfo (app m') = Some cp
              /\ pointsAtLastMessage (app m') cp
        | _ => failedStepInfo (app m') = failedStepInfo st
        end)
  \/ (control m' = AwaitDelay f s a l /\ a < MAX_AUTO_RETRIES
      /\ dataOf (app m') = dataOf st)
  \/ (exists s' sig,
        control m'
        = AwaitCall
            (match s with
             | CognitoInitialToMuse =>
                 Fresh (discussionShouldEnd (parseAIResponse (r_text r)))
             | _ => f
             end) s' 0
            (recordTurn (stepSender s) (parseAIResponse (r_text r)) sig l)
        /\ mayFollow s s' = true
        /\ dataOf (app m')
           = dataOf (recorded (stepSender s) (stepPurpose s)
                       (parseAIResponse (r_text r))
                       (currentDiscussionLog l
                        ++ [(stepSender s,
                             spokenText (parseAIResponse (r_text r)))])
                       st)).
Proof.
  intros m'. subst m'. unfold step. cbn [control app]. unfold onCallReturned.
  remember (if c then setCancelRequest true st else st) as st0 eqn:E0.
  destruct (cancelRequest st0) eqn:Hc.
  - left. exists Cancelled.
    destruct (stopped_spec env f st0 Hc) as [H1 [H2 [H3 _]]].
    split; [exact H1|]. split; [discriminate|]. split; [exact H3|].
    destruct (discussionOf_inv _ _ H2) as [_ [_ [_ [D4 _]]]].
    rewrite D4. subst st0. now destruct c.
  - assert (Est : st0 = st).
    { subst st0. destruct c; [discriminate Hc | reflexivity]. }
    clear E0. subst st0.
    destruct (hasError r) as [e|] eqn:He.
    + destruct (includes e API_KEY_NOT_VALID).
      * left. exists AuthAborted.
        destruct (authAbort_spec env f (r_text r) st Hc)
          as [H1 [H2 [H3 _]]].
        split; [exact H1|]. split; [discriminate|]. split; assumption.
      * destruct (a <? MAX_AUTO_RETRIES) eqn:Ea.
        -- right. left. cbn [control app].
           split; [reflexivity|]. split; [now apply Nat.ltb_lt|].
           reflexivity.
        -- left. exists Failed.
           destruct (failStep_spec env f s l (r_text r) st Hc)
             as [H1 [H2 H3]].
           split; [exact H1|]. split; [discriminate|].
           split; [unfold failStep; cbn [addMessage]; apply isLoading_finish|].
           eexists. split; [exact H3|].
           eexists. eexists. split; [exact H2|]. split; reflexivity.
    + destruct (final_or_not s) as [-> | Hs].
      * left. exists Completed. cbn [onSuccess stepSender stepPurpose].
        unfold onFinalSuccess.
        match goal with
        | |- context [finish env f Completed ?x] => set (st' := x)
        end.
        destruct (applyNotepad_frame (parseAIResponse (r_text r)) Cognito
                    (snd (addMessage
                            (Spoken (spokenText (parseAIResponse (r_text r))))
                            Cognito FinalResponse st)))
          as [N1 [_ [_ [N4 _]]]].
        assert (Hc' : cancelRequest st' = false)
          by (subst st'; rewrite N1; exact Hc).
        destruct (finish_spec env f Completed st' Hc') as [F1 [F2 _]].
        destruct (discussionOf_inv _ _ F1) as [_ [_ [_ [D4 _]]]].
        split; [reflexivity|]. split; [discriminate|]. split; [exact F2|].
        rewrite D4. subst st'. rewrite N4. reflexivity.
      * right. right.
        destruct (onSuccess_uniform env f s l (r_text r) Hs)
          as [s' [notices [sig [Hf Hu]]]].
        rewrite (Hu st Hc). exists s', sig.
        split; [reflexivity|]. split; [exact Hf|].
        cbn [app]. apply dataOf_notifyAll.
Qed.

Lemma delay_elapsed_cases (env : Env) (f : Flow) (s : StepIdentifier)
    (a : nat) (l : Locals) (st : AppState) (c : bool) :
  let m' :=
    step env {| app := st; control := AwaitDelay f s a l |}
      (DelayElapsed c) in
  (control m' = Finished Cancelled /\ isLoading (app m') = false
   /\ failedStepInfo (app m') = failedStepInfo st)
  \/ m' = {| app := st; control := AwaitCall f s (S a) l |}.
Proof.
  intros m'. subst m'. unfold step. cbn [control app].
  unfold onDelayElapsed, beginAttempt.
  remember (if c then setCancelRequest true st else st) as st0 eqn:E0.
  destruct (cancelRequest st0) eqn:Hc.
  - left. destruct (stopped_spec env f st0 Hc) as [H1 [H2 [H3 _]]].
    split; [exact H1|]. split; [exact H3|].
    destruct (discussionOf_inv _ _ H2) as [_ [_ [_ [D4 _]]]].
    rewrite D4. subst st0. now destruct c.
  - right. subst st0. destruct c; [discriminate Hc | reflexivity].
Qed.

(** What the return of the call of a manual retry leads to. *)
Lemma manual_returned_cases (env : Env) (cp : FailedStepPayload)
    (st : AppState) (c : bool) (r : ApiResult) :
  let m' :=
    step env {| app := st; control := AwaitManualRetry cp |}
      (CallReturned c r) in
  (exists o, control m' = Finished o)
  \/ (exists s' init l,
        control m'
        = AwaitCall
            (Continued
               match previousAISignaledStopForResume cp with
               | Some b => b
               | None => false
               end init) s' 0 l
        /\ s' <> CognitoInitialToMuse
        /\ discussionLog (app m') = currentDiscussionLog l
        /\ failedStepInfo (app m') = None).
Proof.
  intros m'. subst m'. unfold step. cbn [control app].
  unfold onManualReturned.
  remember (if c then setCancelRequest true st else st) as st0 eqn:E0.
  destruct (cancelRequest st0) eqn:Hc; [left; eexists; reflexivity|].
  destruct (hasError r) as [e|].
  { left. cbn [addMessage]. eexists. reflexivity. }
  destruct (final_or_not (stepIdentifier cp)) as [Hs | Hs].
  { left. rewrite continue_unfold, Hs. eexists. reflexivity. }
  right.
  destruct (continue_uniform env cp (parseAIResponse (r_text r)) Hs)
    as [s' [notices [init [Hn Hu]]]].
  rewrite Hu.
  2:{ rewrite cancel_setFailedStepInfo, cancel_notify.
      destruct (applyNotepad_frame (parseAIResponse (r_text r))
                  (fs_sender cp)
                  (snd (addMessage
                          (Spoken (spokenText (parseAIResponse (r_text r))))
                          (fs_sender cp) (fs_purpose cp) st0)))
        as [N1 _].
      rewrite N1. exact Hc. }
  eexists s', init, _. split; [reflexivity|]. split; [exact Hn|].
  cbn [app currentDiscussionLog].
  match goal with
  | |- context [notifyAll notices ?x] =>
      pose proof (dataOf_notifyAll notices x) as Hd
  end.
  destruct (dataOf_inv _ _ Hd) as [H1 _].
  destruct (discussionOf_inv _ _ H1) as [_ [_ [D3 [D4 _]]]].
  rewrite D3, D4. split; reflexivity.
Qed.

(** What the end of the reading of the image leads to: the handler ends,
    because the reading failed or the user stopped; or the opening turn is
    called with the image. *)
Lemma image_read_cases (env : Env) (input : jsstring) (file : ImageFile)
    (st : AppState) (c : bool) (result : option jsstring) :
  let m' :=
    step env {| app := st; control := AwaitImage input file |}
      (ImageRead c result) in
  (exists o,
     control m' = Finished o /\ (o = ImageFailed \/ o = Cancelled)
     /\ isLoading (app m') = false
     /\ discussionOf (app m') = discussionOf st)
  \/ (exists url,
        result = Some url
        /\ control m'
           = AwaitCall (Fresh false) CognitoInitialToMuse 0
               {| userInput := input;
                  l_imageApiPart := Some (file, dataUrlPayload url);
                  currentDiscussionLog := []; lastTurnTextForLog := [];
                  previousAISignaledStop := false |}
        /\ dataOf (app m') = dataOf st).
Proof.
  intros m'. subst m'. unfold step. cbn [control app]. unfold onImageRead.
  remember (if c then setCancelRequest true st else st) as st0 eqn:E0.
  assert (Hd : discussionOf st0 = discussionOf st)
    by (subst st0; now destruct c).
  destruct result as [url|].
  - unfold beginQuery, beginAttempt. rewrite cancel_notify.
    destruct (cancelRequest st0) eqn:Hc.
    + left. exists Cancelled.
      assert (Hc' : cancelRequest (notify PreparingInitial st0) = true)
        by (rewrite cancel_notify; exact Hc).
      destruct (stopped_spec env (Fresh false) _ Hc') as [H1 [H2 [H3 _]]].
      split; [exact H1|]. split; [now right|]. split; [exact H3|].
      rewrite H2. exact Hd.
    + right. exists url. split; [reflexivity|]. split; [reflexivity|].
      cbn [app]. rewrite dataOf_notify. subst st0.
      destruct c; [discriminate Hc | reflexivity].
  - left. exists ImageFailed. split; [reflexivity|]. split; [now left|].
    split; [reflexivity|]. exact Hd.
Qed.

(** *** The retry budget *)

Lemma handleSendMessage_cases (env : Env) (input : jsstring)
    (imageFile : option ImageFile) (st : AppState) :
  (queryAccepted input imageFile st = false
   /\ handleSendMessage env input imageFile st
      = {| app := st; control := Finished Rejected |})
  \/ (queryAccepted input imageFile st = true
      /\ exists st0,
           handleSendMessage env input imageFile st
           = {| app := st0;
                control :=
                  match imageFile with
                  | Some file => AwaitImage input file
                  | None =>
                      AwaitCall (Fresh false) CognitoInitialToMuse 0
                        {| userInput := input; l_imageApiPart := None;
                           currentDiscussionLog := [];
                           lastTurnTextForLog := [];
                           previousAISignaledStop := false |}
                  end |}
           /\ dataOf st0
              = (notepadContent st, lastNotepadUpdateBy st, [], None,
                 isApiKeyMissing st, true, false)).
Proof.
  unfold queryAccepted, handleSendMessage.
  destruct (isApiKeyMissing st || isLoading st); [now left|].
  destruct (negb (truthy (trim input))
            && match imageFile with Some _ => false | None => true end);
    [now left|].
  right. split; [reflexivity|].
  destruct imageFile as [file|].
  - eexists. split; reflexivity.
  - unfold beginQuery. rewrite beginAttempt_live by reflexivity.
    eexists. split; reflexivity.
Qed.

Lemma handleManualRetry_cases (env : Env) (cp : FailedStepPayload)
    (st : AppState) :
  control (handleManualRetry env cp st) = Finished Rejected
  \/ control (handleManualRetry env cp st) = AwaitManualRetry cp.
Proof.
  unfold handleManualRetry. destruct (isLoading st); [now left | now right].
Qed.

Lemma fst_countedRun (env : Env) (es : list Event) (mn : Machine * nat) :
  fst (fold_left (countedStep env) es mn) = run env (fst mn) es.
Proof.
  revert mn. induction es as [|e es IH]; intros mn; [reflexivity|].
  cbn [fold_left]. rewrite IH. reflexivity.
Qed.

Lemma counts_step (env : Env) (mn : Machine * nat) (e : Event) :
  countsAttempts mn -> countsAttempts (countedStep env mn e).
Proof.
  destruct mn as [[st c] n]. unfold countsAttempts, countedStep, callsOfLoop.
  cbn [fst snd control]. unfold MAX_AUTO_RETRIES. intros [Hn H].
  destruct c as [f s a l | f s a l | cp | o | input file];
    destruct e as [c r | c | c result];
    try (cbn [step control]; split; [exact Hn | exact H]).
  - destruct (call_returned_cases env f s a l st c r)
      as [[o [H1 _]] | [[H1 [H2 _]] | [s' [sig [H1 _]]]]]; rewrite H1.
    + split; [exact Hn | exact I].
    + unfold MAX_AUTO_RETRIES in H2. split; [exact Hn | now split].
    + split; [lia | reflexivity].
  - destruct H as [H Ha].
    destruct (delay_elapsed_cases env f s a l st c) as [[H1 _] | H1];
      rewrite H1; cbn [control].
    + split; [exact Hn | exact I].
    + split; [lia | now rewrite H].
  - destruct (manual_returned_cases env cp st c r)
      as [[o H1] | [s' [init [l [H1 _]]]]]; rewrite H1.
    + split; [exact Hn | exact I].
    + split; [lia | reflexivity].
  - destruct (image_read_cases env input file st c result)
      as [[o [H1 _]] | [url [_ [H1 _]]]]; rewrite H1.
    + split; [exact Hn | exact I].
    + split; [lia | reflexivity].
Qed.

Lemma counts_run (env : Env) (es : list Event) (mn : Machine * nat) :
  countsAttempts mn -> countsAttempts (fold_left (countedStep env) es mn).
Proof.
  revert mn. induction es as [|e es IH]; intros mn H; [exact H|].
  cbn [fold_left]. apply IH, counts_step, H.
Qed.

Lemma counts_query (env : Env) (input : jsstring)
    (imageFile : option ImageFile) (st : AppState) (es : list Event) :
  countsAttempts (countedRun env (handleSendMessage env input imageFile st) es).
Proof.
  apply counts_run. unfold countsAttempts, MAX_AUTO_RETRIES. cbn [fst snd].
  destruct (handleSendMessage_cases env input imageFile st)
    as [[_ H] | [_ [st0 [H _]]]]; rewrite H; cbn [control].
  - split; [lia | exact I].
  - destruct imageFile; split; first [lia | exact I | reflexivity].
Qed.

Lemma counts_manual_retry (env : Env) (cp : FailedStepPayload)
    (st : AppState) (es : list Event) :
  countsAttempts (countedRun env (handleManualRetry env cp st) es).
Proof.
  apply counts_run. unfold countsAttempts, MAX_AUTO_RETRIES. cbn [fst snd].
  destruct (handleManualRetry_cases env cp st) as [H | H]; rewrite H;
    split; first [lia | exact I].
Qed.

(** X14: whatever happens to a query or to a manual retry and the discussion
    it takes up again, a retry loop makes at most [MAX_AUTO_RETRIES + 1]
    calls, counted by the transitions of the handler (the first call of a
    loop, and one more behind every retry delay); while a retry delay is
    waited for at most [MAX_AUTO_RETRIES] are made. The call behind a
    retry delay is of the step that failed; the count is the attempt
    counter of the loop plus one; and three failures of the opening turn
    reach the bound. *)
Theorem attempts_stay_within_budget (env : Env) (input : jsstring)
    (imageFile : option ImageFile) (cp : FailedStepPayload) (st : AppState)
    (es : list Event) :
  let q := countedRun env (handleSendMessage env input imageFile st) es in
  let r := countedRun env (handleManualRetry env cp st) es in
  (fst q = run env (handleSendMessage env input imageFile st) es
   /\ fst r = run env (handleManualRetry env cp st) es)
  /\ (snd q <= MAX_AUTO_RETRIES + 1 /\ snd r <= MAX_AUTO_RETRIES + 1)
  /\ (forall f s attempt l,
        control (fst q) = AwaitDelay f s attempt l
        \/ control (fst r) = AwaitDelay f s attempt l ->
        forall c f' s' attempt' l' st',
          step env {| app := st'; control := AwaitDelay f s attempt l |}
            (DelayElapsed c)
          = {| app := st'; control := AwaitCall f' s' attempt' l' |} ->
          s' = s /\ attempt' = S attempt /\ attempt' <= MAX_AUTO_RETRIES)
  /\ (countsAttempts q /\ countsAttempts r)
  /\ snd (countedRun env
            (handleSendMessage env (lit "q") None (initialState []))
            [failed (lit "boom") (lit "503"); DelayElapsed false;
             failed (lit "boom") (lit "503"); DelayElapsed false])
     = MAX_AUTO_RETRIES + 1.
Proof.
  intros q r.
  pose proof (counts_query env input imageFile st es) as Hq.
  pose proof (counts_manual_retry env cp st es) as Hr.
  fold q in Hq. fold r in Hr.
  split; [split; apply fst_countedRun|].
  split; [split; [apply Hq | apply Hr]|].
  split; [|split; [now split | reflexivity]].
  intros f s a l Hd c f' s' a' l' st' Hs.
  assert (Ha : a < MAX_AUTO_RETRIES).
  { destruct Hd as [Hd | Hd].
    - destruct Hq as [_ Hq]. rewrite Hd in Hq. apply Hq.
    - destruct Hr as [_ Hr]. rewrite Hd in Hr. apply Hr. }
  destruct (delay_elapsed_cases env f s a l st' c) as [[H1 _] | H1].
  - rewrite Hs in H1. discriminate H1.
  - rewrite Hs in H1. injection H1 as _ -> -> ->.
    split; [reflexivity|]. split; [reflexivity | exact Ha].
Qed.

(** *** The discussion log *)

Lemma sync_step (env : Env) (m : Machine) (e : Event) :
  logInSync m -> logInSync (step env m e).
Proof.
  destruct m as [st c].
  destruct c as [f s a l | f s a l | cp | o | input file];
    destruct e as [c r | c | c result]; intros H; try exact H.
  - unfold logInSync in *. cbn [control app] in H.
    destruct (call_returned_cases env f s a l st c r)
      as [[o [H1 _]] | [[H1 [_ H2]] | [s' [sig [H1 [_ H2]]]]]]; rewrite H1.
    + exact I.
    + destruct (dataOf_inv _ _ H2) as [D _].
      destruct (discussionOf_inv _ _ D) as [_ [_ [D3 _]]].
      now rewrite D3.
    + destruct (dataOf_inv _ _ H2) as [D _].
      destruct (discussionOf_inv _ _ D) as [_ [_ [D3 _]]].
      rewrite D3.
      match goal with
      | |- discussionLog (recorded ?w ?p ?r ?lg ?x) = _ =>
          destruct (recorded_spec w p r lg x) as [_ [_ [R3 _]]]
      end.
      rewrite R3. reflexivity.
  - unfold logInSync in *. cbn [control app] in H.
    destruct (delay_elapsed_cases env f s a l st c) as [[H1 _] | H1];
      rewrite H1; [exact I | exact H].
  - unfold logInSync.
    destruct (manual_returned_cases env cp st c r)
      as [[o H1] | [s' [init [l [H1 [_ [H2 _]]]]]]]; rewrite H1;
      [exact I | exact H2].
  - unfold logInSync in *. cbn [control app] in H.
    destruct (image_read_cases env input file st c result)
      as [[o [H1 _]] | [url [_ [H1 H2]]]]; rewrite H1; [exact I|].
    destruct (dataOf_inv _ _ H2) as [D _].
    destruct (discussionOf_inv _ _ D) as [_ [_ [D3 _]]].
    rewrite D3. exact H.
Qed.

Lemma sync_run (env : Env) (es : list Event) (m : Machine) :
  logInSync m -> logInSync (run env m es).
Proof.
  revert m. induction es as [|e es IH]; intros m H; [exact H|].
  rewrite run_cons. apply IH, sync_step, H.
Qed.

(** X15: at every suspension of a query, of a manual retry and of the discussion
    it takes up again, the discussion log shown by the component is the log
    the handler builds its next prompt from. *)
Theorem discussion_log_in_sync (env : Env) (input : jsstring)
    (imageFile : option ImageFile) (cp : FailedStepPayload) (st : AppState)
    (es : list Event) :
  logInSync (run env (handleSendMessage env input imageFile st) es)
  /\ logInSync (run env (handleManualRetry env cp st) es).
Proof.
  split; apply sync_run.
  - destruct (handleSendMessage_cases env input imageFile st)
      as [[_ H] | [_ [st0 [H Hd]]]]; rewrite H; [exact I|].
    unfold dataOf, discussionOf in Hd.
    destruct imageFile; unfold logInSync;
      cbn [control app currentDiscussionLog]; congruence.
  - unfold logInSync.
    destruct (handleManualRetry_cases env cp st) as [H | H]; rewrite H;
      exact I.
Qed.

(** *** The loading flag and the checkpoint of a query *)

Lemma queryState_step (env : Env) (m : Machine) (e : Event) :
  queryState m -> queryState (step env m e).
Proof.
  destruct m as [st c].
  destruct c as [f s a l | f s a l | cp | o | input file];
    destruct e as [c r | c | c result]; intros H; try exact H;
    unfold queryState in H; cbn [control app] in H;
    try contradiction.
  - destruct f as [c0 | prior init]; [|contradiction].
    destruct H as [Hl Hf]. unfold queryState.
    destruct (call_returned_cases env (Fresh c0) s a l st c r)
      as [[o [H1 [H2 [H3 H4]]]] | [[H1 [_ H2]] | [s' [sig [H1 [_ H2]]]]]];
      rewrite H1.
    + destruct o; cbv beta iota in *;
        try (split; [exact H3 | first [exact H4 | congruence]]).
      congruence.
    + destruct (dataOf_inv _ _ H2) as [D [D' _]].
      destruct (discussionOf_inv _ _ D) as [_ [_ [_ [D4 _]]]].
      rewrite D', D4. now split.
    + destruct (dataOf_inv _ _ H2) as [D [D' _]].
      destruct (discussionOf_inv _ _ D) as [_ [_ [_ [D4 _]]]].
      rewrite D', D4.
      match goal with
      | |- context [recorded ?w ?p ?r ?lg ?x] =>
          destruct (recorded_spec w p r lg x)
            as [_ [_ [_ [R4 [_ [R6 _]]]]]]
      end.
      rewrite R4, R6. destruct s; now split.
  - destruct f as [c0 | prior init]; [|contradiction].
    destruct H as [Hl Hf]. unfold queryState.
    destruct (delay_elapsed_cases env (Fresh c0) s a l st c)
      as [[H1 [H2 H3]] | H1]; rewrite H1.
    + split; [exact H2 | congruence].
    + now split.
  - destruct H as [Hl Hf]. unfold queryState.
    destruct (image_read_cases env input file st c result)
      as [[o [H1 [Ho [H2 H3]]]] | [url [_ [H1 H2]]]]; rewrite H1.
    + destruct (discussionOf_inv _ _ H3) as [_ [_ [_ [D4 _]]]].
      destruct Ho as [-> | ->]; (split; [exact H2 | congruence]).
    + destruct (dataOf_inv _ _ H2) as [D [D' _]].
      destruct (discussionOf_inv _ _ D) as [_ [_ [_ [D4 _]]]].
      rewrite D', D4. now split.
Qed.

Lemma queryState_run (env : Env) (es : list Event) (m : Machine) :
  queryState m -> queryState (run env m es).
Proof.
  revert m. induction es as [|e es IH]; intros m H; [exact H|].
  rewrite run_cons. apply IH, queryState_step, H.
Qed.

Lemma queryState_accepted (env : Env) (input : jsstring)
    (imageFile : option ImageFile) (st : AppState) (es : list Event) :
  queryAccepted input imageFile st = true ->
  queryState (run env (handleSendMessage env input imageFile st) es).
Proof.
  intros Ha. apply queryState_run.
  destruct (handleSendMessage_cases env input imageFile st)
    as [[H _] | [_ [st0 [H Hd]]]]; [congruence|].
  rewrite H. unfold dataOf, discussionOf in Hd.
  destruct imageFile; unfold queryState; cbn [control app];
    split; congruence.
Qed.

(** X16: from the moment a query is accepted, the loading flag is set exactly
    while its handler is suspended (at the reading of the image, at a call
    or at a retry delay), whatever ends it: the answer, a stop, a step that
    failed, an authentication failure or an image that cannot be read; as
    long as it is set, a further query and a manual retry return at once
    and change nothing (lines 500 and 740). *)
Theorem loading_while_query_runs (env env' : Env) (input input' : jsstring)
    (imageFile imageFile' : option ImageFile) (cp : FailedStepPayload)
    (st : AppState) (es : list Event) :
  queryAccepted input imageFile st = true ->
  let m := run env (handleSendMessage env input imageFile st) es in
  isLoading (app m) = isSuspended (control m)
  /\ (isSuspended (control m) = true ->
      handleSendMessage env' input' imageFile' (app m)
      = {| app := app m; control := Finished Rejected |}
      /\ handleManualRetry env' cp (app m)
         = {| app := app m; control := Finished Rejected |}).
Proof.
  intros Ha m.
  pose proof (queryState_accepted env input imageFile st es Ha) as Q.
  fold m in Q. unfold queryState in Q.
  assert (Hl : isLoading (app m) = isSuspended (control m)).
  { destruct (control m) as [f s a l | f s a l | cp' | o | input0 file].
    - destruct f; [|contradiction]. now destruct Q.
    - destruct f; [|contradiction]. now destruct Q.
    - contradiction.
    - destruct o; try contradiction; now destruct Q.
    - now destruct Q. }
  split; [exact Hl|]. intros Hs. rewrite Hs in Hl.
  unfold handleSendMessage, handleManualRetry.
  rewrite Hl, orb_true_r. split; reflexivity.
Qed.

Lemma loading_while_query_runs_witness :
  let env := plainEnv AiDriven 2 in
  let query := handleSendMessage env [] (Some (lit "image/png"))
                 (initialState []) in
  isLoading (app (run env query [])) = true
  /\ isLoading (app (run env query [ImageRead false None])) = false
  /\ isLoading
       (app (run env query [ImageRead false (Some (lit "data:,QQ=="))]))
     = true.
Proof.
  intros env query.
  split; [|split].
  - exact (proj1 (loading_while_query_runs env env [] []
                    (Some (lit "image/png")) None
                    exampleCheckpoint (initialState []) [] eq_refl)).
  - exact (proj1 (loading_while_query_runs env env [] []
                    (Some (lit "image/png")) None
                    exampleCheckpoint (initialState [])
                    [ImageRead false None] eq_refl)).
  - exact (proj1 (loading_while_query_runs env env [] []
                    (Some (lit "image/png")) None
                    exampleCheckpoint (initialState [])
                    [ImageRead false (Some (lit "data:,QQ=="))] eq_refl)).
Defined.

(** X17: in a query, a checkpoint is stored exactly when the query has ended
    because a step used up its attempts; the checkpoint then points at the
    last message of the chat, the notification that offers the retry
    (which is where the retry button is drawn). *)
Theorem checkpoint_only_after_failed_step (env : Env) (input : jsstring)
    (imageFile : option ImageFile) (st : AppState) (es : list Event) :
  queryAccepted input imageFile st = true ->
  let m := run env (handleSendMessage env input imageFile st) es in
  (failedStepInfo (app m) <> None <-> control m = Finished Failed)
  /\ forall cp,
       failedStepInfo (app m) = Some cp ->
       control m = Finished Failed /\ pointsAtLastMessage (app m) cp.
Proof.
  intros Ha m.
  pose proof (queryState_accepted env input imageFile st es Ha) as Q.
  fold m in Q. unfold queryState in Q.
  destruct (control m) as [f s a l | f s a l | cp' | o | input0 file].
  - destruct f; [|contradiction]. destruct Q as [_ ->].
    split; [split; [congruence | discriminate] | discriminate].
  - destruct f; [|contradiction]. destruct Q as [_ ->].
    split; [split; [congruence | discriminate] | discriminate].
  - contradiction.
  - destruct o; try contradiction;
      try (destruct Q as [_ ->];
           split; [split; [congruence | discriminate] | discriminate]).
    destruct Q as [_ [cp [-> Hp]]].
    split; [split; [reflexivity | discriminate]|].
    intros cp0 E. injection E as <-. now split.
  - destruct Q as [_ ->].
    split; [split; [congruence | discriminate] | discriminate].
Qed.

Lemma checkpoint_only_after_failed_step_witness :
  let env := plainEnv AiDriven 2 in
  let m :=
    run env (handleSendMessage env (lit "q") None (initialState []))
      (consecutiveFailures
         [(lit "boom", lit "503"); (lit "boom", lit "503");
          (lit "boom", lit "503")]) in
  exists cp,
    failedStepInfo (app m) = Some cp
    /\ stepIdentifier cp = CognitoInitialToMuse
    /\ control m = Finished Failed
    /\ pointsAtLastMessage (app m) cp.
Proof.
  intros env m.
  destruct (checkpoint_only_after_failed_step env (lit "q") None
              (initialState [])
              (consecutiveFailures
                 [(lit "boom", lit "503"); (lit "boom", lit "503");
                  (lit "boom", lit "503")]) eq_refl) as [_ H].
  exists (failedStepPayload env CognitoInitialToMuse exampleLocalsAtStart 4).
  assert (E : failedStepInfo (app m)
              = Some (failedStepPayload env CognitoInitialToMuse
                        exampleLocalsAtStart 4))
    by (vm_compute; reflexivity).
  destruct (H _ E) as [H1 H2].
  split; [exact E|]. split; [reflexivity|]. split; [exact H1 | exact H2].
Defined.

(** *** A successful call *)

(** X18: a call that succeeds, in any attempt of any step of a query or of a
    continuation: the spoken text is shown as one message with the sender
    and purpose of the step, followed only by notifications of the system;
    a notepad update replaces the notepad as a whole and names the sender
    of the step as its author, no update leaves both as they were; a step
    of the discussion adds one entry to the log of the handler, which
    becomes the log of the component, the final answer adds none; the
    checkpoint is not touched. *)
Theorem successful_call_is_recorded (env : Env) (f : Flow)
    (s : StepIdentifier) (attempt : nat) (l : Locals) (st : AppState)
    (text : jsstring) :
  cancelRequest st = false ->
  let r := parseAIResponse text in
  let m :=
    step env {| app := st; control := AwaitCall f s attempt l |} (ok text) in
  notepadContent (app m)
  = match newNotepadContent r with
    | Some c => c
    | None => notepadContent st
    end
  /\ lastNotepadUpdateBy (app m)
     = match newNotepadContent r with
       | Some _ => Some (stepSender s)
       | None => lastNotepadUpdateBy st
       end
  /\ discussionLog (app m)
     = match s with
       | CognitoFinalAnswer => discussionLog st
       | _ => currentDiscussionLog l ++ [(stepSender s, spokenText r)]
       end
  /\ failedStepInfo (app m) = failedStepInfo st
  /\ exists notices,
       messages (app m)
       = messages st ++
         {| msg_id := nextId st; msg_text := Spoken (spokenText r);
            msg_sender := stepSender s; msg_purpose := stepPurpose s |}
         :: notices
       /\ Forall (fun n => msg_sender n = System) notices.
Proof.
  intros Hc r m. subst m. rewrite (step_ok env f s attempt l st text Hc).
  destruct (final_or_not s) as [-> | Hs].
  - cbn [onSuccess stepSender stepPurpose]. unfold onFinalSuccess. fold r.
    match goal with
    | |- context [finish env f Completed ?x] => set (st' := x)
    end.
    destruct (applyNotepad_frame r Cognito
                (snd (addMessage (Spoken (spokenText r)) Cognito
                        FinalResponse st)))
      as [N1 [N2 [_ [N4 N5]]]].
    fold st' in N1, N2, N4, N5.
    assert (Hc' : cancelRequest st' = false) by (rewrite N1; exact Hc).
    destruct (finish_spec env f Completed st' Hc') as [F1 [_ [F3 _]]].
    destruct (discussionOf_inv _ _ F1) as [D1 [D2 [D3 [D4 _]]]].
    rewrite D1, D2, D3, D4, F3, N2, N4, N5.
    split; [|split; [|split; [|split]]]; try reflexivity.
    + subst st'. unfold applyNotepad.
      now destruct (newNotepadContent r).
    + subst st'. unfold applyNotepad.
      now destruct (newNotepadContent r).
    + exists []. split; [reflexivity | constructor].
  - destruct (onSuccess_uniform env f s l text Hs)
      as [s' [notices [sig [_ Hu]]]].
    rewrite (Hu st Hc). fold r. cbn [app].
    match goal with
    | |- context [notifyAll notices ?x] =>
        pose proof (dataOf_notifyAll notices x) as Hd;
        destruct (messages_notifyAll notices x) as [ms [M1 [_ M3]]]
    end.
    destruct (dataOf_inv _ _ Hd) as [D _].
    destruct (discussionOf_inv _ _ D) as [D1 [D2 [D3 [D4 _]]]].
    destruct (recorded_spec (stepSender s) (stepPurpose s) r
                (currentDiscussionLog l ++ [(stepSender s, spokenText r)])
                st) as [R1 [R2 [R3 [R4 [_ [_ [_ R8]]]]]]].
    rewrite D1, D2, D3, D4, M1, R1, R2, R3, R4, R8.
    split; [reflexivity|]. split; [reflexivity|].
    split; [destruct s; congruence|]. split; [reflexivity|].
    exists ms. rewrite <- app_assoc. split; [reflexivity | exact M3].
Qed.

Lemma successful_call_is_recorded_witness :
  notepadContent
    (app (step (plainEnv AiDriven 2)
            {| app := initialState (lit "old");
               control :=
                 AwaitCall (Fresh false) (MuseReplyToCognitoTurn 0) 0
                   exampleLocals |}
            (ok (lit "B <notepad_update>new</notepad_update>"))))
  = lit "new".
Proof.
  exact (proj1 (successful_call_is_recorded (plainEnv AiDriven 2)
                  (Fresh false) (MuseReplyToCognitoTurn 0) 0 exampleLocals
                  (initialState (lit "old"))
                  (lit "B <notepad_update>new</notepad_update>") eq_refl)).
Defined.

(** X19: a successful call of a step of the discussion is followed by the
    first attempt of the step behind it in the order opening turn, Muse 0,
    Cognito 0, Muse 1, ..., or by the first attempt of the final answer: in
    every mode and flow, no step is called again after it succeeded and
    none is left out. *)
Theorem steps_follow_in_order (env : Env) (f : Flow) (s : StepIdentifier)
    (attempt : nat) (l : Locals) (st : AppState) (text : jsstring) :
  cancelRequest st = false ->
  s <> CognitoFinalAnswer ->
  exists f' s' l',
    control
      (step env {| app := st; control := AwaitCall f s attempt l |}
         (ok text))
    = AwaitCall f' s' 0 l'
    /\ mayFollow s s' = true
    /\ isContinued f' = match s with
                        | CognitoInitialToMuse => false
                        | _ => isContinued f
                        end.
Proof.
  intros Hc Hs. rewrite (step_ok env f s attempt l st text Hc).
  destruct (onSuccess_uniform env f s l text Hs)
    as [s' [notices [sig [Hf Hu]]]].
  rewrite (Hu st Hc). cbn [control].
  do 3 eexists. split; [reflexivity|]. split; [exact Hf|].
  now destruct s.
Qed.

Lemma steps_follow_in_order_witness :
  exists f' s' l',
    control
      (step (plainEnv FixedTurns 2)
         {| app := initialState [];
            control :=
              AwaitCall (Fresh false) (CognitoReplyToMuseTurn 0) 0
                exampleLocals |}
         (ok (lit "C")))
    = AwaitCall f' s' 0 l'
    /\ mayFollow (CognitoReplyToMuseTurn 0) s' = true
    /\ isContinued f' = false.
Proof.
  apply (steps_follow_in_order (plainEnv FixedTurns 2) (Fresh false)
           (CognitoReplyToMuseTurn 0) 0 exampleLocals (initialState [])
           (lit "C")).
  - reflexivity.
  - discriminate.
Defined.

(** X20: an attempt that fails and is retried with success leaves the
    discussion where a first attempt with the same answer would have left
    it: the handler waits at the same point with the same locals, and
    nothing but the messages differs. *)
Theorem transient_failure_leaves_no_trace (env : Env) (f : Flow)
    (s : StepIdentifier) (attempt : nat) (l : Locals) (st : AppState)
    (msg err text : jsstring) :
  cancelRequest st = false ->
  plainFailure (msg, err) = true ->
  attempt < MAX_AUTO_RETRIES ->
  let m0 := {| app := st; control := AwaitCall f s attempt l |} in
  let direct := run env m0 [ok text] in
  let retried := run env m0 [failed msg err; DelayElapsed false; ok text] in
  control retried = control direct
  /\ dataOf (app retried) = dataOf (app direct).
Proof.
  intros Hc Hp Ha m0 direct retried. subst direct retried m0.
  unfold run. cbn [fold_left].
  rewrite (step_failed_retry env f s attempt l st msg err Hc Hp Ha).
  rewrite step_delay by exact Hc.
  rewrite !step_ok by exact Hc.
  destruct (final_or_not s) as [-> | Hs].
  - cbn [onSuccess stepSender stepPurpose]. unfold onFinalSuccess.
    split; [reflexivity|].
    apply dataOf_finish, dataOf_applyNotepad. reflexivity.
  - destruct (onSuccess_uniform env f s l text Hs)
      as [s' [notices [sig [_ Hu]]]].
    rewrite !Hu by exact Hc. cbn [control app].
    split; [reflexivity|].
    rewrite !dataOf_notifyAll. apply dataOf_recorded. reflexivity.
Qed.

Lemma transient_failure_leaves_no_trace_witness :
  control
    (run (plainEnv AiDriven 2)
       {| app := initialState [];
          control :=
            AwaitCall (Fresh false) (MuseReplyToCognitoTurn 0) 0
              exampleLocals |}
       [failed (lit "boom") (lit "503"); DelayElapsed false; ok (lit "B")])
  = control
      (run (plainEnv AiDriven 2)
         {| app := initialState [];
            control :=
              AwaitCall (Fresh false) (MuseReplyToCognitoTurn 0) 0
                exampleLocals |}
         [ok (lit "B")]).
Proof.
  apply (transient_failure_leaves_no_trace (plainEnv AiDriven 2)
           (Fresh false) (MuseReplyToCognitoTurn 0) 0 exampleLocals
           (initialState []) (lit "boom") (lit "503") (lit "B")).
  - reflexivity.
  - reflexivity.
  - unfold MAX_AUTO_RETRIES. lia.
Defined.

(** *** Resuming after a manual retry *)

(** The call of a manual retry succeeded: the state the continuation
    starts from. *)
Lemma manual_retry_succeeds (env : Env) (cp : FailedStepPayload)
    (text : jsstring) (st : AppState) :
  isLoading st = false ->
  exists st2,
    run env (handleManualRetry env cp st) [ok text]
    = continueDiscussionAfterSuccessfulRetry env cp (parseAIResponse text)
        st2
    /\ cancelRequest st2 = false
    /\ failedStepInfo st2 = None
    /\ notepadContent st2
       = match newNotepadContent (parseAIResponse text) with
         | Some c => c
         | None => notepadContent st
         end
    /\ In {| msg_id := S (nextId st);
             msg_text := Spoken (spokenText (parseAIResponse text));
             msg_sender := fs_sender cp; msg_purpose := fs_purpose cp |}
         (messages st2).
Proof.
  intros Hl.
  destruct (handleManualRetry_idle env cp st Hl)
    as [st1 [Hstart [Hc1 [Hn1 _]]]].
  remember (parseAIResponse text) as r eqn:Er.
  exists (setFailedStepInfo None
            (notify (ManualRetrySucceeded (fs_sender cp) (stepIdentifier cp))
               (applyNotepad r (fs_sender cp)
                  (snd (addMessage (Spoken (spokenText r)) (fs_sender cp)
                          (fs_purpose cp) st1))))).
  destruct (applyNotepad_frame r (fs_sender cp)
              (snd (addMessage (Spoken (spokenText r)) (fs_sender cp)
                      (fs_purpose cp) st1))) as [N1 [N2 _]].
  assert (Hin : In {| msg_id := S (nextId st);
                      msg_text := Spoken (spokenText r);
                      msg_sender := fs_sender cp;
                      msg_purpose := fs_purpose cp |}
                  (messages (snd (addMessage (Spoken (spokenText r))
                                    (fs_sender cp) (fs_purpose cp) st1)))).
  { cbn [addMessage snd messages]. rewrite Hn1, in_app_iff.
    right. left. reflexivity. }
  split.
  { rewrite run_cons, Hstart. unfold step, ok.
    cbn [control app run fold_left]. unfold onManualReturned, hasError.
    cbn [r_error r_text]. rewrite Hc1, <- Er. reflexivity. }
  split; [rewrite cancel_setFailedStepInfo, cancel_notify, N1; exact Hc1|].
  split; [reflexivity|]. split.
  - cbn [setFailedStepInfo notify addMessage snd notepadContent].
    unfold applyNotepad. destruct (newNotepadContent r); [reflexivity|].
    cbn [notepadContent].
    assert (E : st1 = app (handleManualRetry env cp st))
      by (rewrite Hstart; reflexivity).
    rewrite E. unfold handleManualRetry. rewrite Hl. reflexivity.
  - rewrite <- N2 in Hin. cbn [setFailedStepInfo notify addMessage snd messages].
    rewrite in_app_iff. left. exact Hin.
Qed.

(** Where the continuation of a retried step goes: behind the loop when
    the retried answer and the signal stored in the checkpoint both ask for
    the end, else to the head of the loop at the turn and with the skip
    that belong to the step. *)
Lemma resume_shape (env : Env) (cp : FailedStepPayload) (text : jsstring)
    (st : AppState) :
  isLoading st = false ->
  let r := parseAIResponse text in
  let l :=
    {| userInput := userInputForFlow cp;
       l_imageApiPart := imageApiPartForFlow cp;
       currentDiscussionLog :=
         discussionLogBeforeFailure cp ++ [(fs_sender cp, spokenText r)];
       lastTurnTextForLog := spokenText r;
       previousAISignaledStop := isAiDriven env && discussionShouldEnd r |} in
  let prior :=
    match previousAISignaledStopForResume cp with
    | Some b => b
    | None => false
    end in
  let turnIndex :=
    match currentTurnIndexForResume cp with
    | Some t => t
    | None => 0
    end in
  let agree := isAiDriven env && discussionShouldEnd r && prior in
  exists st3,
    cancelRequest st3 = false
    /\ failedStepInfo st3 = None
    /\ discussionLog st3 = currentDiscussionLog l
    /\ notepadContent st3
       = match newNotepadContent r with
         | Some c => c
         | None => notepadContent st
         end
    /\ In {| msg_id := S (nextId st); msg_text := Spoken (spokenText r);
             msg_sender := fs_sender cp; msg_purpose := fs_purpose cp |}
         (messages st3)
    /\ run env (handleManualRetry env cp st) [ok text]
       = match stepIdentifier cp with
         | CognitoInitialToMuse =>
             if agree then enterFinal env (Continued prior 0) l st3
             else loopHead env (Continued prior 0) 0 false l st3
         | MuseReplyToCognitoTurn _ =>
             if agree then enterFinal env (Continued prior turnIndex) l st3
             else loopHead env (Continued prior turnIndex) turnIndex true l
                    st3
         | CognitoReplyToMuseTurn _ =>
             if agree
             then enterFinal env (Continued prior (turnIndex + 1)) l st3
             else loopHead env (Continued prior (turnIndex + 1))
                    (turnIndex + 1) false l st3
         | CognitoFinalAnswer =>
             {| app := manualRetryFinally env (setIsLoading false st3);
                control := Finished Completed |}
         end.
Proof.
  intros Hl r l prior turnIndex agree.
  destruct (manual_retry_succeeds env cp text st Hl)
    as [st2 [Hrun [Hc2 [Hf2 [Hn2 Hin2]]]]].
  fold r in Hrun, Hn2, Hin2.
  rewrite Hrun, continue_unfold. cbn zeta.
  fold r. fold l. fold prior. fold turnIndex. fold agree.
  set (st0 := setDiscussionLog (currentDiscussionLog l) st2).
  destruct (stepIdentifier cp);
    [destruct (isAiDriven env && discussionShouldEnd r)
    |destruct agree; [|destruct (isAiDriven env && discussionShouldEnd r)]
    |destruct agree; [|destruct (isAiDriven env && discussionShouldEnd r)]
    |];
    eexists; (split; [|split; [|split; [|split; [|split;
                                                   [|reflexivity]]]]]);
    try exact Hc2; try exact Hf2; try exact Hn2; try reflexivity;
    cbn [notify addMessage snd messages setDiscussionLog st0];
    rewrite ?in_app_iff; auto.
Qed.

Lemma pastMuse_follow (k : nat) (f f' : Flow) (s s' : StepIdentifier)
    (a a' : nat) (l l' : Locals) :
  pastMuseOf k (AwaitCall f s a l) = true ->
  mayFollow s s' = true ->
  pastMuseOf k (AwaitCall f' s' a' l') = true.
Proof.
  destruct s as [|t|t|], s' as [|t'|t'|]; cbn [pastMuseOf mayFollow];
    intros H1 H2; try discriminate; try reflexivity.
  - apply Nat.eqb_eq in H2. subst t'. apply Nat.ltb_lt in H1.
    apply Nat.leb_le. lia.
  - apply Nat.eqb_eq in H2. subst t'. apply Nat.leb_le in H1.
    apply Nat.ltb_lt. lia.
Qed.

Lemma pastMuse_step (env : Env) (k : nat) (m : Machine) (e : Event) :
  pastMuseOf k (control m) = true ->
  pastMuseOf k (control (step env m e)) = true.
Proof.
  destruct m as [st c].
  destruct c as [f s a l | f s a l | cp | o | input file];
    destruct e as [c r | c | c result]; cbn [control]; intros H; try exact H;
    try discriminate H.
  - destruct (call_returned_cases env f s a l st c r)
      as [[o [H1 _]] | [[H1 _] | [s' [sig [H1 [H2 _]]]]]]; rewrite H1.
    + reflexivity.
    + exact H.
    + exact (pastMuse_follow k f _ s s' a 0 l _ H H2).
  - destruct (delay_elapsed_cases env f s a l st c) as [[H1 _] | H1];
      rewrite H1; [reflexivity | exact H].
Qed.

Lemma pastMuse_run (env : Env) (k : nat) (es : list Event) (m : Machine) :
  pastMuseOf k (control m) = true ->
  pastMuseOf k (control (run env m es)) = true.
Proof.
  revert m. induction es as [|e es IH]; intros m H; [exact H|].
  rewrite run_cons. apply IH, pastMuse_step, H.
Qed.

(** X21: a manual retry of the turn of Muse in pair [k] that succeeds: the
    answer of Muse is added to the log of the checkpoint and the checkpoint
    is cleared; the turn of Muse is skipped in the first iteration of the
    loop, so the handler waits for the reply of Cognito in pair [k], or for
    the final answer when the discussion is over (in AI-driven mode the
    retried answer and the signal stored in the checkpoint both say so, or
    pair [k] is the last of the fixed turns); whatever happens later, the
    turn of Muse in pair [k] and everything before it is not run again. *)
Theorem resume_after_muse_reply (env : Env) (cp : FailedStepPayload)
    (k : nat) (text : jsstring) (st : AppState) :
  stepIdentifier cp = MuseReplyToCognitoTurn k ->
  currentTurnIndexForResume cp = Some k ->
  isLoading st = false ->
  let r := parseAIResponse text in
  let m := run env (handleManualRetry env cp st) [ok text] in
  let prior :=
    match previousAISignaledStopForResume cp with
    | Some b => b
    | None => false
    end in
  let over :=
    isAiDriven env && discussionShouldEnd r && prior
    || isFixedTurns env && (manualFixedTurns env - 1 <=? k) in
  (exists l,
     control m
     = AwaitCall (Continued prior k)
         (if over then CognitoFinalAnswer else CognitoReplyToMuseTurn k) 0 l
     /\ currentDiscussionLog l
        = discussionLogBeforeFailure cp ++ [(fs_sender cp, spokenText r)]
     /\ discussionLog (app m) = currentDiscussionLog l)
  /\ failedStepInfo (app m) = None
  /\ forall es, pastMuseOf k (control (run env m es)) = true.
Proof.
  intros Hid Hk Hl r m prior over.
  destruct (resume_shape env cp text st Hl)
    as [st3 [Hc3 [Hf3 [Hd3 [_ [_ Hm]]]]]].
  fold m in Hm. rewrite Hid, Hk in Hm. fold r in Hm, Hd3. fold prior in Hm.
  set (l := {| userInput := userInputForFlow cp;
               l_imageApiPart := imageApiPartForFlow cp;
               currentDiscussionLog :=
                 discussionLogBeforeFailure cp
                 ++ [(fs_sender cp, spokenText r)];
               lastTurnTextForLog := spokenText r;
               previousAISignaledStop :=
                 isAiDriven env && discussionShouldEnd r |}) in *.
  assert (Hres : exists t,
            m = {| app := notify t st3;
                   control :=
                     AwaitCall (Continued prior k) (if over then CognitoFinalAnswer
                                  else CognitoReplyToMuseTurn k) 0 l |}).
  { rewrite Hm. subst over.
    destruct (isAiDriven env && discussionShouldEnd r && prior) eqn:Ea;
      cbn [orb].
    { eexists. now apply enterFinal_live. }
    unfold loopHead. rewrite Hc3.
    destruct (isFixedTurns env) eqn:Efix; cbn [andb].
    - destruct (manualFixedTurns env <=? k) eqn:En.
      + apply Nat.leb_le in En.
        replace (manualFixedTurns env - 1 <=? k) with true
          by (symmetry; apply Nat.leb_le; lia).
        eexists. now apply enterFinal_live.
      + cbv beta iota. rewrite Nat.ltb_irrefl, !andb_false_r, Nat.eqb_refl.
        unfold beforeCognitoReply. rewrite Hc3, Efix.
        replace (isAiDriven env && previousAISignaledStop l && prior)
          with false
          by (cbn [l previousAISignaledStop]; rewrite <- Ea;
              now destruct (isAiDriven env)).
        cbn [andb].
        destruct (manualFixedTurns env - 1 <=? k).
        * eexists. now apply enterFinal_live.
        * eexists. now apply beginAttempt_live.
    - cbv beta iota. rewrite Nat.ltb_irrefl, !andb_false_r, Nat.eqb_refl.
      unfold beforeCognitoReply. rewrite Hc3, Efix.
      replace (isAiDriven env && previousAISignaledStop l && prior)
        with false
        by (cbn [l previousAISignaledStop]; rewrite <- Ea;
            now destruct (isAiDriven env)).
      cbn [andb]. eexists. now apply beginAttempt_live. }
  destruct Hres as [t Hres].
  split.
  { exists l. rewrite Hres. cbn [control app].
    split; [reflexivity|]. split; [reflexivity|].
    cbn [notify addMessage snd discussionLog]. exact Hd3. }
  split.
  { rewrite Hres. cbn [app notify addMessage snd failedStepInfo]. exact Hf3. }
  intros es. apply pastMuse_run. rewrite Hres. cbn [control pastMuseOf].
  destruct over; [reflexivity|]. apply Nat.leb_refl.
Qed.

Lemma resume_after_muse_reply_witness :
  exists l,
    control
      (run (plainEnv AiDriven 2)
         (handleManualRetry (plainEnv AiDriven 2)
            (exampleCheckpointOf (MuseReplyToCognitoTurn 0)
               exampleLocalsAfterOpening)
            (exampleFailedStateOf
               (exampleCheckpointOf (MuseReplyToCognitoTurn 0)
                  exampleLocalsAfterOpening)))
         [ok (lit "B")])
    = AwaitCall (Continued false 0) (CognitoReplyToMuseTurn 0) 0 l.
Proof.
  destruct (resume_after_muse_reply (plainEnv AiDriven 2)
              (exampleCheckpointOf (MuseReplyToCognitoTurn 0)
                 exampleLocalsAfterOpening)
              0 (lit "B")
              (exampleFailedStateOf
                 (exampleCheckpointOf (MuseReplyToCognitoTurn 0)
                    exampleLocalsAfterOpening))
              eq_refl eq_refl eq_refl) as [[l [H _]] _].
  exists l. exact H.
Defined.

(** X22: a manual retry of the opening turn that succeeds: the answer opens the
    log, the checkpoint is cleared and the handler waits for the turn of
    Muse in pair 0, or for the final answer when the discussion is over
    before it began (the retried answer and the signal stored in the
    checkpoint both ask for the end, or no fixed turn is to be made);
    whatever happens later, the opening turn is not run again. *)
Theorem resume_after_opening_turn (env : Env) (cp : FailedStepPayload)
    (text : jsstring) (st : AppState) :
  stepIdentifier cp = CognitoInitialToMuse ->
  isLoading st = false ->
  let r := parseAIResponse text in
  let m := run env (handleManualRetry env cp st) [ok text] in
  let prior :=
    match previousAISignaledStopForResume cp with
    | Some b => b
    | None => false
    end in
  let over :=
    isAiDriven env && discussionShouldEnd r && prior
    || isFixedTurns env && (manualFixedTurns env <=? 0) in
  (exists l,
     control m
     = AwaitCall (Continued prior 0)
         (if over then CognitoFinalAnswer else MuseReplyToCognitoTurn 0) 0 l
     /\ currentDiscussionLog l
        = discussionLogBeforeFailure cp ++ [(fs_sender cp, spokenText r)]
     /\ discussionLog (app m) = currentDiscussionLog l)
  /\ failedStepInfo (app m) = None
  /\ forall es, notBeforePair 0 (control (run env m es)) = true.
Proof.
  intros Hid Hl r m prior over.
  destruct (resume_shape env cp text st Hl)
    as [st3 [Hc3 [Hf3 [Hd3 [_ [_ Hm]]]]]].
  fold m in Hm. rewrite Hid in Hm. fold r in Hm, Hd3. fold prior in Hm.
  set (l := {| userInput := userInputForFlow cp;
               l_imageApiPart := imageApiPartForFlow cp;
               currentDiscussionLog :=
                 discussionLogBeforeFailure cp
                 ++ [(fs_sender cp, spokenText r)];
               lastTurnTextForLog := spokenText r;
               previousAISignaledStop :=
                 isAiDriven env && discussionShouldEnd r |}) in *.
  assert (Hres : exists t,
            m = {| app := notify t st3;
                   control :=
                     AwaitCall (Continued prior 0)
                       (if over then CognitoFinalAnswer
                        else MuseReplyToCognitoTurn 0) 0 l |}).
  { rewrite Hm. subst over.
    destruct (isAiDriven env && discussionShouldEnd r && prior) eqn:Ea;
      cbn [orb].
    { eexists. now apply enterFinal_live. }
    unfold loopHead. rewrite Hc3.
    destruct (isFixedTurns env && (manualFixedTurns env <=? 0)).
    - eexists. now apply enterFinal_live.
    - cbv beta iota. rewrite Nat.ltb_irrefl, !andb_false_r. cbn [andb].
      eexists. now apply beginAttempt_live. }
  destruct Hres as [t Hres].
  split.
  { exists l. rewrite Hres. cbn [control app].
    split; [reflexivity|]. split; [reflexivity|].
    cbn [notify addMessage snd discussionLog]. exact Hd3. }
  split.
  { rewrite Hres. cbn [app notify addMessage snd failedStepInfo]. exact Hf3. }
  intros es. apply nb_run. rewrite Hres. cbn [control notBeforePair].
  now destruct over.
Qed.

Lemma resume_after_opening_turn_witness :
  exists l,
    control
      (run (plainEnv AiDriven 2)
         (handleManualRetry (plainEnv AiDriven 2)
            (exampleCheckpointOf CognitoInitialToMuse exampleLocalsAtStart)
            (exampleFailedStateOf
               (exampleCheckpointOf CognitoInitialToMuse
                  exampleLocalsAtStart)))
         [ok (lit "A")])
    = AwaitCall (Continued false 0) (MuseReplyToCognitoTurn 0) 0 l.
Proof.
  destruct (resume_after_opening_turn (plainEnv AiDriven 2)
              (exampleCheckpointOf CognitoInitialToMuse exampleLocalsAtStart)
              (lit "A")
              (exampleFailedStateOf
                 (exampleCheckpointOf CognitoInitialToMuse
                    exampleLocalsAtStart))
              eq_refl eq_refl) as [[l [H _]] _].
  exists l. exact H.
Defined.

(** X23: a manual retry of the final answer that succeeds ends the handler: the
    answer is shown, a notepad update applied, the checkpoint cleared and
    the loading flag reset. Unlike the final answer of a query, this one is
    added to the discussion log. *)
Theorem resume_after_final_answer (env : Env) (cp : FailedStepPayload)
    (text : jsstring) (st : AppState) :
  stepIdentifier cp = CognitoFinalAnswer ->
  isLoading st = false ->
  let r := parseAIResponse text in
  let m := run env (handleManualRetry env cp st) [ok text] in
  control m = Finished Completed
  /\ failedStepInfo (app m) = None
  /\ isLoading (app m) = false
  /\ discussionLog (app m)
     = discussionLogBeforeFailure cp ++ [(fs_sender cp, spokenText r)]
  /\ notepadContent (app m)
     = match newNotepadContent r with
       | Some c => c
       | None => notepadContent st
       end
  /\ In {| msg_id := S (nextId st); msg_text := Spoken (spokenText r);
           msg_sender := fs_sender cp; msg_purpose := fs_purpose cp |}
       (messages (app m))
  /\ forall es, run env m es = m.
Proof.
  intros Hid Hl r m.
  destruct (resume_shape env cp text st Hl)
    as [st3 [Hc3 [Hf3 [Hd3 [Hn3 [Hin3 Hm]]]]]].
  fold m in Hm. rewrite Hid in Hm. fold r in Hm, Hd3, Hn3, Hin3.
  cbn [currentDiscussionLog] in Hd3.
  assert (Happ : app m = setIsLoading false st3
                 \/ app m = setIsLoading false (setIsLoading false st3)).
  { rewrite Hm. cbn [app]. unfold manualRetryFinally.
    cbn [cancelRequest setIsLoading]. rewrite Hc3, orb_false_r.
    destruct (env_failedStepInfo env); cbn [andb]; auto. }
  split; [rewrite Hm; reflexivity|].
  assert (Hrest : failedStepInfo (app m) = failedStepInfo st3
                  /\ isLoading (app m) = false
                  /\ discussionLog (app m) = discussionLog st3
                  /\ notepadContent (app m) = notepadContent st3
                  /\ messages (app m) = messages st3).
  { destruct Happ as [-> | ->]; repeat split. }
  destruct Hrest as [E1 [E2 [E3 [E4 E5]]]].
  rewrite E1, E3, E4, E5.
  repeat split; try assumption.
  intros es. apply (run_finished env es m Completed). rewrite Hm. reflexivity.
Qed.

Lemma resume_after_final_answer_witness :
  control
    (run (plainEnv AiDriven 2)
       (handleManualRetry (plainEnv AiDriven 2)
          (exampleCheckpointOf CognitoFinalAnswer exampleLocals)
          (exampleFailedStateOf
             (exampleCheckpointOf CognitoFinalAnswer exampleLocals)))
       [ok (lit "Z")])
  = Finished Completed.
Proof.
  exact (proj1 (resume_after_final_answer (plainEnv AiDriven 2)
                  (exampleCheckpointOf CognitoFinalAnswer exampleLocals)
                  (lit "Z")
                  (exampleFailedStateOf
                     (exampleCheckpointOf CognitoFinalAnswer exampleLocals))
                  eq_refl eq_refl)).
Defined.

(** *** The end of a discussion that was taken up again *)

(** Counts the notices of one kind among messages added behind those of
    [st]. *)
Ltac count_added R8 :=
  unfold countMessages; cbn [app notify addMessage snd messages];
  rewrite R8, !filter_app, !length_app; cbn [filter isNotice msg_text
    isBothAgreed length]; lia.

(** X24: in AI-driven mode, a discussion taken up after a manual retry leaves
    its loop after a turn that asks for the end when the turn before it
    did so too, which is announced as an agreement, and also, without
    announcement, when the signal stored in the checkpoint of the retried
    step was set: that signal is compared with every later turn (lines 358
    and 400), not only with the retried one. *)
Theorem continuation_leaves_on_stored_signal (env : Env) (prior : bool)
    (init turn attempt : nat) (l : Locals) (st : AppState)
    (text : jsstring) :
  discussionMode env = AiDriven ->
  cancelRequest st = false ->
  init <= turn ->
  let r := parseAIResponse text in
  let left :=
    discussionShouldEnd r && (previousAISignaledStop l || prior) in
  let agreed := discussionShouldEnd r && previousAISignaledStop l in
  let afterMuse :=
    step env
      {| app := st;
         control :=
           AwaitCall (Continued prior init) (MuseReplyToCognitoTurn turn)
             attempt l |}
      (ok text) in
  let afterCognito :=
    step env
      {| app := st;
         control :=
           AwaitCall (Continued prior init) (CognitoReplyToMuseTurn turn)
             attempt l |}
      (ok text) in
  control afterMuse
  = AwaitCall (Continued prior init)
      (if left then CognitoFinalAnswer else CognitoReplyToMuseTurn turn) 0
      (recordTurn Muse r (discussionShouldEnd r) l)
  /\ control afterCognito
     = AwaitCall (Continued prior init)
         (if left then CognitoFinalAnswer
          else MuseReplyToCognitoTurn (S turn)) 0
         (recordTurn Cognito r (discussionShouldEnd r) l)
  /\ countMessages (isNotice isBothAgreed) (app afterMuse)
     = countMessages (isNotice isBothAgreed) st + (if agreed then 1 else 0)
  /\ countMessages (isNotice isBothAgreed) (app afterCognito)
     = countMessages (isNotice isBothAgreed) st + (if agreed then 1 else 0).
Proof.
  intros mode Hc Hinit r left agreed afterMuse afterCognito.
  destruct (ai_flags env mode) as [Ha Hf].
  assert (Hlt : (init <? S turn) = true) by (apply Nat.ltb_lt; lia).
  assert (HM : exists t,
            afterMuse
            = {| app := t;
                 control :=
                   AwaitCall (Continued prior init)
                     (if left then CognitoFinalAnswer
                      else CognitoReplyToMuseTurn turn) 0
                     (recordTurn Muse r (discussionShouldEnd r) l) |}
            /\ countMessages (isNotice isBothAgreed) t
               = countMessages (isNotice isBothAgreed) st
                 + (if agreed then 1 else 0)).
  { subst afterMuse left agreed.
    rewrite (step_ok env _ _ attempt l st text Hc), onSuccess_recorded.
    cbv zeta. fold r. cbn [stepSender stepPurpose]. rewrite Ha.
    destruct (recorded_spec Muse MuseToCognito r
                (currentDiscussionLog l ++ [(Muse, spokenText r)]) st)
      as [_ [_ [_ [_ [_ [_ [R7 R8]]]]]]].
    remember (recorded Muse MuseToCognito r
                (currentDiscussionLog l ++ [(Muse, spokenText r)]) st)
      as st2 eqn:E2.
    rewrite Hc in R7.
    destruct (discussionShouldEnd r) eqn:Er; cbn [andb orb].
    - destruct (previousAISignaledStop l) eqn:Ep; cbn [orb].
      + rewrite enterFinal_live by exact R7.
        eexists. split; [reflexivity|]. count_added R8.
      + unfold beforeCognitoReply.
        rewrite cancel_notify, R7, Ha, Hf.
        cbn [recordTurn previousAISignaledStop andb].
        destruct prior.
        * rewrite enterFinal_live by exact R7.
          eexists. split; [reflexivity|]. count_added R8.
        * rewrite beginAttempt_live by exact R7.
          eexists. split; [reflexivity|]. count_added R8.
    - unfold beforeCognitoReply. rewrite R7, Ha, Hf.
      cbn [recordTurn previousAISignaledStop andb].
      rewrite beginAttempt_live by exact R7.
      eexists. split; [reflexivity|]. count_added R8. }
  assert (HC : exists t,
            afterCognito
            = {| app := t;
                 control :=
                   AwaitCall (Continued prior init)
                     (if left then CognitoFinalAnswer
                      else MuseReplyToCognitoTurn (S turn)) 0
                     (recordTurn Cognito r (discussionShouldEnd r) l) |}
            /\ countMessages (isNotice isBothAgreed) t
               = countMessages (isNotice isBothAgreed) st
                 + (if agreed then 1 else 0)).
  { subst afterCognito left agreed.
    rewrite (step_ok env _ _ attempt l st text Hc), onSuccess_recorded.
    cbv zeta. fold r. cbn [stepSender stepPurpose isContinued]. rewrite Ha.
    destruct (recorded_spec Cognito CognitoToMuse r
                (currentDiscussionLog l ++ [(Cognito, spokenText r)]) st)
      as [_ [_ [_ [_ [_ [_ [R7 R8]]]]]]].
    remember (recorded Cognito CognitoToMuse r
                (currentDiscussionLog l ++ [(Cognito, spokenText r)]) st)
      as st2 eqn:E2.
    rewrite Hc in R7.
    destruct (discussionShouldEnd r) eqn:Er; cbn [andb orb].
    - destruct (previousAISignaledStop l) eqn:Ep; cbn [orb].
      + rewrite enterFinal_live by exact R7.
        eexists. split; [reflexivity|]. count_added R8.
      + rewrite cancel_notify, R7. unfold loopHead.
        rewrite cancel_notify, R7, Ha, Hf, Hlt.
        cbn [recordTurn previousAISignaledStop andb].
        rewrite andb_true_r.
        destruct prior.
        * rewrite enterFinal_live by exact R7.
          eexists. split; [reflexivity|]. count_added R8.
        * rewrite beginAttempt_live by exact R7.
          eexists. split; [reflexivity|]. count_added R8.
    - rewrite R7. unfold loopHead. rewrite R7, Ha, Hf.
      cbn [recordTurn previousAISignaledStop andb].
      rewrite beginAttempt_live by exact R7.
      eexists. split; [reflexivity|]. count_added R8. }
  destruct HM as [tM [EM KM]]. destruct HC as [tC [EC KC]].
  rewrite EM, EC. cbn [control app]. auto.
Qed.

Lemma continuation_leaves_on_stored_signal_witness :
  control
    (step (plainEnv AiDriven 2)
       {| app := initialState [];
          control :=
            AwaitCall (Continued true 0) (MuseReplyToCognitoTurn 0) 0
              exampleLocalsAfterOpening |}
       (ok (lit "Done. <discussion_complete />")))
  = AwaitCall (Continued true 0) CognitoFinalAnswer 0
      (recordTurn Muse
         (parseAIResponse (lit "Done. <discussion_complete />")) true
         exampleLocalsAfterOpening).
Proof.
  exact (proj1 (continuation_leaves_on_stored_signal (plainEnv AiDriven 2)
                  true 0 0 0 exampleLocalsAfterOpening (initialState [])
                  (lit "Done. <discussion_complete />")
                  eq_refl eq_refl (le_n 0))).
Defined.

(** *** A discussion without end signal *)

Lemma ai_driven_goes_on (env : Env) (c : bool) :
  discussionMode env = AiDriven ->
  forall (texts : list jsstring) (s : StepIdentifier) (a : nat) (l : Locals)
         (st : AppState),
    cancelRequest st = false ->
    previousAISignaledStop l = false ->
    s <> CognitoInitialToMuse -> s <> CognitoFinalAnswer ->
    Forall (fun t => discussionShouldEnd (parseAIResponse t) = false) texts ->
    exists st' l',
      run env {| app := st; control := AwaitCall (Fresh c) s a l |}
        (map ok texts)
      = {| app := st';
           control :=
             AwaitCall (Fresh c)
               (Nat.iter (length texts) nextDiscussionStep s)
               (match texts with [] => a | _ :: _ => 0 end) l' |}.
Proof.
  intros mode. induction texts as [|t texts IH];
    intros s a l st Hc Hp Hs1 Hs2 Hall.
  - exists st, l. reflexivity.
  - inversion Hall as [|? ? Ht Hall']; subst.
    cbn [map]. rewrite run_cons.
    cbn [length]. rewrite Nat.iter_succ_r.
    destruct s as [|turn|turn|]; try congruence.
    + destruct (muse_turn_ai_driven env mode c turn a l st t Hc)
        as [st1 [ms [H1 [H2 _]]]].
      rewrite Ht in H1. cbn [andb] in H1. rewrite H1.
      destruct (IH (CognitoReplyToMuseTurn turn) 0
                  (recordTurn Muse (parseAIResponse t) false l) st1 H2
                  eq_refl) as [st' [l' H]];
        try discriminate; try exact Hall'.
      exists st', l'. rewrite H. cbn [nextDiscussionStep].
      now destruct texts.
    + destruct (cognito_reply_ai_driven env mode c turn a l st t Hc)
        as [st1 [ms [H1 [H2 _]]]].
      rewrite Ht in H1. cbn [andb] in H1. rewrite H1.
      destruct (IH (MuseReplyToCognitoTurn (S turn)) 0
                  (recordTurn Cognito (parseAIResponse t) false l) st1 H2
                  eq_refl) as [st' [l' H]];
        try discriminate; try exact Hall'.
      exists st', l'. rewrite H. cbn [nextDiscussionStep].
      now destruct texts.
Qed.

(** X25: AI-driven mode has no bound on the number of turns: as long as no
    answer carries the end signal, every successful call is followed by
    the call of the next step of the discussion, in the order Muse 0,
    Cognito 0, Muse 1, ..., and the final answer is not asked for. *)
Theorem ai_driven_goes_on_without_signal (env : Env) (input : jsstring)
    (imageFile : option ImageFile) (url : jsstring) (st : AppState)
    (text : jsstring) (texts : list jsstring) :
  discussionMode env = AiDriven ->
  queryAccepted input imageFile st = true ->
  Forall (fun t => discussionShouldEnd (parseAIResponse t) = false)
    (text :: texts) ->
  exists l,
    control (run env (handleSendMessage env input imageFile st)
               (imageRead imageFile url ++ map ok (text :: texts)))
    = AwaitCall (Fresh false)
        (Nat.iter (length texts) nextDiscussionStep
           (MuseReplyToCognitoTurn 0)) 0 l.
Proof.
  intros mode Ha Hall. inversion Hall as [|? ? Ht Hall']; subst.
  destruct (handleSendMessage_accepted env input imageFile url st Ha)
    as [st0 [H0 [Hc0 _]]].
  cbn [map]. rewrite run_app, H0, run_cons.
  match goal with
  | |- context [AwaitCall (Fresh false) CognitoInitialToMuse 0 ?x] =>
      destruct (opening_turn_ai_driven env mode 0 x st0 text Hc0)
        as [st1 [ms [H1 [H2 _]]]]
  end.
  rewrite Ht in H1. rewrite H1.
  match goal with
  | |- context [AwaitCall (Fresh false) (MuseReplyToCognitoTurn 0) 0 ?x] =>
      destruct (ai_driven_goes_on env false mode texts
                  (MuseReplyToCognitoTurn 0) 0 x st1 H2 eq_refl)
        as [st' [l' H]]; try discriminate; try exact Hall'
  end.
  rewrite H. cbn [control]. destruct texts; eexists; reflexivity.
Qed.

Lemma ai_driven_goes_on_without_signal_witness :
  exists l,
    control (run (plainEnv AiDriven 2)
               (handleSendMessage (plainEnv AiDriven 2) (lit "q") None
                  (initialState []))
               (map ok [lit "A"; lit "B"; lit "C"]))
    = AwaitCall (Fresh false) (MuseReplyToCognitoTurn 1) 0 l.
Proof.
  apply (ai_driven_goes_on_without_signal (plainEnv AiDriven 2) (lit "q")
           None [] (initialState []) (lit "A") [lit "B"; lit "C"]).
  - reflexivity.
  - reflexivity.
  - repeat constructor.
Defined.

(** *** A manual retry that is stopped *)

(** X26: [handleManualRetry] removes the notification its checkpoint points at
    before it calls. When the user stops the retry, the checkpoint stays as
    it is (line 792), so it points at a message that is no longer there:
    no message of the chat carries its id, and the retry button, drawn at
    the message with that id, is gone. *)
Theorem stopped_manual_retry_orphans_checkpoint (env : Env)
    (cp : FailedStepPayload) (st : AppState) (r : ApiResult) :
  isLoading st = false ->
  failedStepInfo st = Some cp ->
  originalSystemErrorMsgId cp < nextId st ->
  let m := run env (handleManualRetry env cp st) [CallReturned true r] in
  control m = Finished Cancelled
  /\ failedStepInfo (app m) = Some cp
  /\ isLoading (app m) = false
  /\ forall msg,
       In msg (messages (app m)) ->
       msg_id msg <> originalSystemErrorMsgId cp.
Proof.
  intros Hl Hf Hid m.
  destruct (handleManualRetry_idle env cp st Hl)
    as [st1 [Hstart [Hc1 [Hn1 [_ Hm1]]]]].
  assert (Hf1 : failedStepInfo st1 = Some cp).
  { assert (E : st1 = app (handleManualRetry env cp st))
      by (rewrite Hstart; reflexivity).
    rewrite E. unfold handleManualRetry. rewrite Hl. exact Hf. }
  assert (Hm : m = {| app := manualRetryFinally env
                               (setCancelRequest true st1);
                      control := Finished Cancelled |}).
  { subst m. rewrite run_cons, Hstart. reflexivity. }
  assert (Hold : forall msg,
            In msg (messages st1) ->
            msg_id msg <> originalSystemErrorMsgId cp).
  { intros msg Hin. rewrite Hm1, in_app_iff in Hin.
    destruct Hin as [Hin | [<- | []]].
    - apply filter_In in Hin. destruct Hin as [_ Hne].
      apply negb_true_iff, Nat.eqb_neq in Hne. exact Hne.
    - cbn [msg_id]. intros E. rewrite E in Hid.
      exact (Nat.lt_irrefl _ Hid). }
  rewrite Hm. cbn [control app]. unfold manualRetryFinally.
  cbn [cancelRequest setCancelRequest setIsLoading]. rewrite orb_true_r.
  cbn [andb].
  destruct (env_failedStepInfo env); cbn [negb];
    (split; [reflexivity|]); (split; [exact Hf1|]);
    (split; [reflexivity|]).
  - exact Hold.
  - intros msg Hin. cbn [notify addMessage snd messages] in Hin.
    rewrite in_app_iff in Hin. destruct Hin as [Hin | [<- | []]].
    + now apply Hold.
    + cbn [msg_id nextId setIsLoading setCancelRequest]. rewrite Hn1.
      intros E. rewrite <- E in Hid. apply (Nat.lt_irrefl (nextId st)).
      apply Nat.lt_trans with (S (nextId st)); [constructor | exact Hid].
Qed.

Lemma stopped_manual_retry_orphans_checkpoint_witness :
  failedStepInfo
    (app (run (plainEnv AiDriven 2)
            (handleManualRetry (plainEnv AiDriven 2) exampleCheckpoint
               exampleFailedState)
            [CallReturned true {| r_text := lit "late"; r_error := None |}]))
  = Some exampleCheckpoint.
Proof.
  destruct (stopped_manual_retry_orphans_checkpoint (plainEnv AiDriven 2)
              exampleCheckpoint exampleFailedState
              {| r_text := lit "late"; r_error := None |}
              eq_refl eq_refl (le_n 1)) as [_ [H _]].
  exact H.
Defined.

(** *** The notepad in the prompts *)



(** *** The notepad in the prompts *)

Lemma noDollar_app (a b : jsstring) :
  noDollar (a ++ b) = noDollar a && noDollar b.
Proof. apply forallb_app. Qed.

(** Text without a dollar sign is spliced in as it is. *)
Lemma getSubstitution_plain_app (matched before after r r' : jsstring) :
  noDollar r = true ->
  getSubstitution matched before after (r ++ r')
  = r ++ getSubstitution matched before after r'.
Proof.
  induction r as [|c r IH]; intros H; [reflexivity|].
  cbn [noDollar forallb] in H. apply andb_true_iff in H as [Hc Hr].
  apply negb_true_iff in Hc.
  cbn [List.app getSubstitution]. rewrite Hc. f_equal. exact (IH Hr).
Qed.

Lemma getSubstitution_plain (matched before after r : jsstring) :
  noDollar r = true -> getSubstitution matched before after r = r.
Proof.
  intros H.
  rewrite <- (app_nil_r r) at 1.
  rewrite (getSubstitution_plain_app matched before after r [] H).
  cbn [getSubstitution]. apply app_nil_r.
Qed.

(** The template is its two parts around the placeholder, which occurs
    once, so the splice puts the substitution of the notepad between the
    two parts. *)
Lemma notepad_template_parts :
  NOTEPAD_INSTRUCTION_PROMPT_PART
  = notepadPartBefore ++ lit "{notepadContent}" ++ notepadPartBehind
  /\ includes notepadPartBefore (lit "{notepadContent}") = false
  /\ includes notepadPartBehind (lit "{notepadContent}") = false.
Proof. vm_compute. repeat split; reflexivity. Qed.

Lemma notepadInstruction_unfold (n : jsstring) :
  notepadInstruction n
  = notepadPartBefore
    ++ getSubstitution (lit "{notepadContent}") notepadPartBefore
         notepadPartBehind n
    ++ notepadPartBehind.
Proof.
  unfold notepadInstruction, replaceString.
  assert (E : indexOf NOTEPAD_INSTRUCTION_PROMPT_PART (lit "{notepadContent}")
              = Some (length notepadPartBefore))
    by (vm_compute; reflexivity).
  rewrite E. cbv zeta.
  assert (E1 : firstn (length notepadPartBefore)
                 NOTEPAD_INSTRUCTION_PROMPT_PART = notepadPartBefore)
    by (vm_compute; reflexivity).
  assert (E2 : skipn (length notepadPartBefore
                      + length (lit "{notepadContent}"))
                 NOTEPAD_INSTRUCTION_PROMPT_PART = notepadPartBehind)
    by (vm_compute; reflexivity).
  rewrite E1, E2. reflexivity.
Qed.

Lemma notepadInstruction_plain (n : jsstring) :
  noDollar n = true ->
  notepadInstruction n = notepadPartBefore ++ n ++ notepadPartBehind.
Proof.
  intros H. rewrite notepadInstruction_unfold.
  now rewrite getSubstitution_plain.
Qed.




(** X28: the notepad is put into the prompt by [String.prototype.replace]
    with a replacement string (lines 546 and 313), which rewrites the
    dollar patterns of the notepad: around text without a dollar sign,
    [$$] reaches the model as one dollar sign, [$&] as the placeholder
    [{notepadContent}], and the two patterns with a back quote and a quote
    as the text of the template in front of the placeholder and behind
    it. A notepad without a dollar sign is put in as it is. *)
Theorem notepad_splice_rewrites_dollar_patterns (a b : jsstring) :
  noDollar a = true ->
  noDollar b = true ->
  notepadInstruction (a ++ b)
  = notepadPartBefore ++ (a ++ b) ++ notepadPartBehind
  /\ notepadInstruction (a ++ lit "$$" ++ b)
     = notepadPartBefore ++ (a ++ lit "$" ++ b) ++ notepadPartBehind
  /\ notepadInstruction (a ++ lit "$&" ++ b)
     = notepadPartBefore ++ (a ++ lit "{notepadContent}" ++ b)
       ++ notepadPartBehind
  /\ notepadInstruction (a ++ lit "$`" ++ b)
     = notepadPartBefore ++ (a ++ notepadPartBefore ++ b)
       ++ notepadPartBehind
  /\ notepadInstruction (a ++ lit "$'" ++ b)
     = notepadPartBefore ++ (a ++ notepadPartBehind ++ b)
       ++ notepadPartBehind.
Proof.
  intros Ha Hb.
  split.
  { apply notepadInstruction_plain. now rewrite noDollar_app, Ha, Hb. }
  repeat split; rewrite notepadInstruction_unfold;
    rewrite (getSubstitution_plain_app _ _ _ a _ Ha);
    cbn [lit list_ascii_of_string map N_of_ascii List.app getSubstitution];
    change (N_of_ascii "$") with 36%N;
    cbv beta iota delta [N.eqb Pos.eqb N_of_ascii N_of_digits N.add N.mul
                         Pos.add Pos.mul Pos.succ];
    rewrite (getSubstitution_plain _ _ _ b Hb); reflexivity.
Qed.

Lemma notepad_splice_rewrites_dollar_patterns_witness :
  notepadInstruction (lit "Budget: $$5")
  = notepadPartBefore ++ lit "Budget: $5" ++ notepadPartBehind
  /\ notepadInstruction (lit "see $& above")
     = notepadPartBefore ++ lit "see {notepadContent} above"
       ++ notepadPartBehind.
Proof.
  split.
  - exact (proj1 (proj2 (notepad_splice_rewrites_dollar_patterns
                           (lit "Budget: ") (lit "5") eq_refl eq_refl))).
  - exact (proj1 (proj2 (proj2 (notepad_splice_rewrites_dollar_patterns
                                  (lit "see ") (lit " above")
                                  eq_refl eq_refl)))).
Defined.

(** *** The image of a query *)

(** X29: a query with an image makes no call before [fileToBase64] has
    settled (lines 523-535). When the reading fails, the failure is shown,
    the loading flag is reset and the handler returns: no call is made,
    nothing else of the discussion changes, and a stop pressed meanwhile
    is not announced, its flag stays set. When the reading succeeds, the
    opening turn is announced and, unless the user has stopped, called
    with the type of the file and the text behind the first comma of the
    data URL; after a stop the query ends as cancelled without a call. *)
Theorem image_conversion_outcomes (env : Env) (input : jsstring)
    (file : ImageFile) (st : AppState) (c : bool)
    (result : option jsstring) :
  queryAccepted input (Some file) st = true ->
  let m0 := handleSendMessage env input (Some file) st in
  let m := step env m0 (ImageRead c result) in
  let preparing :=
    {| msg_id := S (nextId st); msg_text := PreparingInitial;
       msg_sender := System; msg_purpose := SystemNotification |} in
  (control m0 = AwaitImage input file
   /\ messages (app m0)
      = messages st ++
        [{| msg_id := nextId st; msg_text := Spoken input;
            msg_sender := User; msg_purpose := UserInput |}]
   /\ dataOf (app m0)
      = (notepadContent st, lastNotepadUpdateBy st, [], None,
         isApiKeyMissing st, true, false))
  /\ match result with
     | None =>
         control m = Finished ImageFailed
         /\ messages (app m)
            = messages (app m0) ++
              [{| msg_id := S (nextId st);
                  msg_text := ImageProcessingFailed;
                  msg_sender := System;
                  msg_purpose := SystemNotification |}]
         /\ dataOf (app m) = (discussionOf (app m0), false, c)
     | Some url =>
         if c then
           control m = Finished Cancelled
           /\ isLoading (app m) = false
           /\ discussionOf (app m) = discussionOf (app m0)
           /\ exists ms,
                messages (app m) = messages (app m0) ++ preparing :: ms
                /\ forallb isUserStopped ms = true
         else
           control m
           = AwaitCall (Fresh false) CognitoInitialToMuse 0
               {| userInput := input;
                  l_imageApiPart := Some (file, dataUrlPayload url);
                  currentDiscussionLog := []; lastTurnTextForLog := [];
                  previousAISignaledStop := false |}
           /\ messages (app m) = messages (app m0) ++ [preparing]
           /\ dataOf (app m) = dataOf (app m0)
     end.
Proof.
  intros Ha m0 m preparing. subst m m0.
  unfold queryAccepted in Ha.
  rewrite andb_true_iff, !negb_true_iff in Ha. destruct Ha as [H1 H2].
  unfold handleSendMessage. rewrite H1, H2.
  split; [repeat split|].
  cbn [step control app]. unfold onImageRead.
  destruct result as [url|].
  - unfold beginQuery, beginAttempt. rewrite cancel_notify.
    destruct c.
    + cbn [cancelRequest setCancelRequest].
      match goal with
      | |- context [stopped env (Fresh false) ?x] =>
          destruct (stopped_spec env (Fresh false) x eq_refl)
            as [S1 [S2 [S3 [ms [S4 [S5 _]]]]]]
      end.
      split; [exact S1|]. split; [exact S3|]. split; [exact S2|].
      exists ms. split; [|exact S5].
      rewrite S4.
      cbn [notify addMessage snd messages setCancelRequest
           setDiscussionLog setFailedStepInfo setIsLoading nextId].
      rewrite <- !app_assoc. reflexivity.
    + cbn [cancelRequest setCancelRequest addMessage snd setDiscussionLog
           setFailedStepInfo setIsLoading].
      split; [reflexivity|]. split; [|reflexivity].
      cbn [app notify addMessage snd messages nextId]. reflexivity.
  - cbn [control app]. split; [reflexivity|].
    split; [|now destruct c].
    destruct c; reflexivity.
Qed.

Lemma image_conversion_outcomes_witness :
  let env := plainEnv AiDriven 2 in
  let m0 := handleSendMessage env [] (Some (lit "image/png"))
              (initialState []) in
  control (step env m0 (ImageRead true None)) = Finished ImageFailed
  /\ control (step env m0 (ImageRead false (Some (lit "data:,QQ=="))))
     = AwaitCall (Fresh false) CognitoInitialToMuse 0
         {| userInput := [];
            l_imageApiPart := Some (lit "image/png", Some (lit "QQ=="));
            currentDiscussionLog := []; lastTurnTextForLog := [];
            previousAISignaledStop := false |}.
Proof.
  intros env m0. split.
  - exact (proj1 (proj2 (image_conversion_outcomes env []
                           (lit "image/png") (initialState []) true None
                           eq_refl))).
  - exact (proj1 (proj2 (image_conversion_outcomes env []
                           (lit "image/png") (initialState []) false
                           (Some (lit "data:,QQ==")) eq_refl))).
Defined.

End OrchestratorMore.
